(** * The Hack assembler of Project6 (n2tAssembler.c), embedded in Rocq

    The C program is a two-pass assembler.  Its global state is the symbol
    table [gSymbolTable] with its meta data and the per-line record
    [gInsFields]; both passes read the input file with [fgets] into a
    100-byte line buffer.  The embedding below keeps the arrays of the C
    code as lists of bytes of the declared size, and every access outside
    an array, as well as the out-of-range conversion of a [double] to
    [uint16_t], is an explicit [Undefined] outcome: C gives these no
    meaning, so nothing is stated about them.

    The parser takes the carriage return for the end of the text of a
    line, so the source files it is written for end their lines in
    carriage return and line feed. *)

From Stdlib Require Import ZArith Lia Bool Ascii String.
From stdpp Require Import base list strings relations.

Open Scope Z_scope.

(** ** Bytes and C strings *)

Abbreviation NUL := Ascii.zero.
Definition CR : ascii := "013"%char.
Definition LF : ascii := "010"%char.

(** [uint8_t] values are [ascii]; their numeric value is read with [code]. *)
Definition code (c : ascii) : Z := Z.of_N (N_of_ascii c).
Definition chr (z : Z) : ascii := ascii_of_N (Z.to_N z).

(** A string literal of the C source as the list of its characters
    (without the terminating NUL). *)
Notation "$ s" := (list_ascii_of_string s) (at level 1, format "$ s").

(** The C string held in an array: the bytes before the first NUL. *)
Fixpoint cstr (a : list ascii) : list ascii :=
  match a with
  | [] => []
  | c :: a' => if (c =? NUL)%char then [] else c :: cstr a'
  end.

(** Equality of byte lists, as a boolean. *)
Fixpoint bytes_eqb (a b : list ascii) : bool :=
  match a, b with
  | [], [] => true
  | x :: a', y :: b' => (x =? y)%char && bytes_eqb a' b'
  | _, _ => false
  end.

(** [!strcmp(a, b)]: the two arrays hold the same C string. *)
Definition strcmp_eq (a b : list ascii) : bool := bytes_eqb (cstr a) (cstr b).

(** ** Outcomes *)

Inductive fault : Type :=
| OutOfBounds (array : string)   (* access outside the named array *)
| FloatToInt.                    (* double converted to uint16_t out of range *)

Inductive result (A : Type) : Type :=
| Ok (a : A)
| Undefined (f : fault).
Arguments Ok {A} a.
Arguments Undefined {A} f.

#[global] Instance result_ret : MRet result := fun A a => Ok a.
#[global] Instance result_bind : MBind result := fun A B f m =>
  match m with
  | Ok a => f a
  | Undefined e => Undefined e
  end.

(** [a[i] = c] on an array of [size] bytes. *)
Definition store (array : string) (size : nat) (a : list ascii) (i : nat) (c : ascii)
  : result (list ascii) :=
  if (i <? size)%nat then Ok (<[i := c]> a) else Undefined (OutOfBounds array).

(** [strcpy(&a[off], src)] on an array of [size] bytes: the characters of
    [src] and the terminating NUL are written from [off] on. *)
Definition strcpy (array : string) (size : nat) (a : list ascii) (off : nat) (src : list ascii)
  : result (list ascii) :=
  if (off + length src + 1 <=? size)%nat
  then Ok (take off a ++ src ++ NUL :: drop (off + length src + 1) a)
  else Undefined (OutOfBounds array).

(** [strlen]/[strcpy] reading from an array: the C string, provided a NUL
    lies inside the array. *)
Fixpoint read_cstr (array : string) (a : list ascii) : result (list ascii) :=
  match a with
  | [] => Undefined (OutOfBounds array)
  | c :: a' => if (c =? NUL)%char then Ok [] else r ← read_cstr array a'; Ok (c :: r)
  end.

(** ** Macros *)

Definition SYSTEM_SUCCESS : Z := 1.
Definition SYSTEM_FAILURE : Z := -1.
Definition LINEBUFFER_SIZE : nat := 100.
Definition BITFIELD_MAX : nat := 16.
Definition COMP_FIELD_LEN : nat := 7.
Definition DEST_FIELD_LEN : nat := 3.
Definition JUMP_FIELD_LEN : nat := 3.
Definition C_INST_PAD_LEN : nat := 3.
Definition INVALID_VALUE : ascii := "255"%char.
Definition CURR_MEMORY : Z := 16.
Definition SYMBOLTABLE_TAIL : nat := 23.
(** Number of elements of [gSymbolTable]. *)
Definition SYMBOLTABLE_SIZE : Z := 65535.

(** ** Data *)

Record Instruction_Encoding := mkEncoding {
  mnemonic : list ascii;
  binary : list ascii
}.

Record Symbol_Table := mkSymbol {
  symbol : list ascii;     (* uint8_t symbol[LINEBUFFER_SIZE] *)
  value : Z                (* uint32_t *)
}.

Record ISA_Field := mkFields {
  destFldString : list ascii;   (* [5]  *)
  jmpFldString : list ascii;    (* [5]  *)
  cmpFldString : list ascii;    (* [5]  *)
  addFldString : list ascii;    (* [10] *)
  bitFields : list ascii        (* [17] *)
}.

(** The global state.  [gSymbolTable] lists the elements below
    [symbolTableTail]; the elements from the tail on are the zero bytes of
    static storage, because the program writes the table only at the tail
    and then advances it.  So [symbolTableTail] is the length of the list. *)
Record State := mkState {
  gSymbolTable : list Symbol_Table;
  currMemory : Z;                  (* uint32_t *)
  gInsFields : ISA_Field
}.

Definition symbolTableTail (s : State) : nat := length (gSymbolTable s).

Definition enc (m b : string) : Instruction_Encoding := mkEncoding $m $b.

Definition compFieldLT : list Instruction_Encoding :=
  [ enc "0" "0101010"; enc "1" "0111111"; enc "-1" "0111010"; enc "D" "0001100";
    enc "A" "0110000"; enc "!D" "0001101"; enc "!A" "0110001"; enc "-D" "0001111";
    enc "-A" "0110011"; enc "D+1" "0011111"; enc "A+1" "0110111"; enc "D-1" "0001110";
    enc "A-1" "0110010"; enc "D+A" "0000010"; enc "D-A" "0010011"; enc "A-D" "0000111";
    enc "D&A" "0000000"; enc "D|A" "0010101"; enc "M" "1110000"; enc "!M" "1110001";
    enc "-M" "1110011"; enc "M+1" "1110111"; enc "M-1" "1110010"; enc "D+M" "1000010";
    enc "D-M" "1010011"; enc "M-D" "1000111"; enc "D&M" "1000000"; enc "D|M" "1010101" ].

Definition destFieldLT : list Instruction_Encoding :=
  [ enc "" "000"; enc "M" "001"; enc "D" "010"; enc "MD" "011";
    enc "A" "100"; enc "AM" "101"; enc "AD" "110"; enc "AMD" "111" ].

Definition jumpFieldLT : list Instruction_Encoding :=
  [ enc "" "000"; enc "JGT" "001"; enc "JEQ" "010"; enc "JGE" "011";
    enc "JLT" "100"; enc "JNE" "101"; enc "JLE" "110"; enc "JMP" "111" ].

(** An element of [gSymbolTable] whose [symbol] array holds the string
    [name] followed by zero bytes. *)
Definition symbol_array (name : list ascii) : list ascii :=
  name ++ replicate (LINEBUFFER_SIZE - length name) NUL.

Definition sym (name : string) (v : Z) : Symbol_Table := mkSymbol (symbol_array $name) v.

Definition initialSymbolTable : list Symbol_Table :=
  [ sym "R0" 0; sym "R1" 1; sym "R2" 2; sym "R3" 3; sym "R4" 4; sym "R5" 5;
    sym "R6" 6; sym "R7" 7; sym "R8" 8; sym "R9" 9; sym "R10" 10; sym "R11" 11;
    sym "R12" 12; sym "R13" 13; sym "R14" 14; sym "R15" 15;
    sym "SCREEN" 16384; sym "KBD" 24576;
    sym "SP" 0; sym "LCL" 1; sym "ARG" 2; sym "THIS" 3; sym "THAT" 4 ].

Definition set_fields (s : State) (f : ISA_Field) : State :=
  mkState (gSymbolTable s) (currMemory s) f.

Definition set_bitFields (s : State) (bits : list ascii) : State :=
  let f := gInsFields s in
  set_fields s (mkFields (destFldString f) (jmpFldString f) (cmpFldString f) (addFldString f) bits).

Definition set_addFldString (s : State) (add : list ascii) : State :=
  let f := gInsFields s in
  set_fields s (mkFields (destFldString f) (jmpFldString f) (cmpFldString f) add (bitFields f)).

(** ** varInit *)

Definition varInit_fields : ISA_Field :=
  mkFields (replicate 5 NUL) (replicate 5 NUL) (replicate 5 NUL)
           (replicate 10 INVALID_VALUE) (replicate 17 NUL).

Definition varInit (s : State) : State := set_fields s varInit_fields.

(** The globals as their static initialisers leave them. *)
Definition staticState : State :=
  mkState initialSymbolTable CURR_MEMORY
    (mkFields (replicate 5 NUL) (replicate 5 NUL) (replicate 5 NUL)
              (replicate 10 NUL) (replicate 17 NUL)).

(** ** Scanning the line buffer

    The loops that copy the characters under [ptr] to [a[index++]] until a
    stopping character is read share one shape.  [ptr] is the part of the
    line buffer from the pointer to the end of the buffer; reading when
    nothing is left is a read past the buffer.  The result is the pointer
    at the stopping character, the index and the array. *)
Fixpoint copyUntil (stop : ascii -> bool) (array : string) (size : nat)
    (ptr : list ascii) (index : nat) (a : list ascii)
  : result (list ascii * nat * list ascii) :=
  match ptr with
  | [] => Undefined (OutOfBounds "lineBuffer")
  | c :: ptr' =>
      if stop c then Ok (ptr, index, a)
      else a' ← store array size a index c; copyUntil stop array size ptr' (S index) a'
  end.

(** The line buffer after [memset(lineBuffer, 0, 100)] and [fgets]: the
    characters read, then zero bytes. *)
Definition lineBuffer (chunk : list ascii) : list ascii :=
  chunk ++ replicate (LINEBUFFER_SIZE - length chunk) NUL.

(** ** searchSymbolEntry *)

(** The [for] loop over the table: the first element whose symbol is [str]. *)
Fixpoint findEntry (str : list ascii) (table : list Symbol_Table) : option Z :=
  match table with
  | [] => None
  | e :: table' => if strcmp_eq str (symbol e) then Some (value e) else findEntry str table'
  end.

Definition wrap32 (z : Z) : Z := z mod 2 ^ 32.

(** The first [while] loop: the decimal digits of [value], least
    significant first, written to the local [str] of 100 bytes.  [room] is
    the number of bytes of [str] not yet written. *)
Fixpoint digitsLoop (room : nat) (value : Z) (str : list ascii) : result (list ascii) :=
  if value =? 0 then Ok str
  else match room with
       | O => Undefined (OutOfBounds "str")
       | S room' => digitsLoop room' (value / 10) (str ++ [chr (value mod 10 + code "0")])
       end.

(** The second [while] loop: [str] copied backwards to [addFldString]. *)
Fixpoint reverseCopy (str : list ascii) (index tempIndex : nat) (a : list ascii)
  : result (nat * list ascii) :=
  match index with
  | O => Ok (tempIndex, a)
  | S index' =>
      a' ← store "addFldString" 10 a tempIndex (nth index' str NUL);
      reverseCopy str index' (S tempIndex) a'
  end.

(** The [for] loop and the [if (!foundEntry)] block: the value of the
    symbol [str], which is appended at the tail with the value
    [currMemory] when no element holds it.  [str] has fewer than 100
    characters, so [strcpy] fills the zeroed element at the tail with
    [symbol_array str]. *)
Definition resolveSymbol (str : list ascii) (s : State) : result (Z * State) :=
  match findEntry str (gSymbolTable s) with
  | Some v => Ok (v, s)
  | None =>
      (* strcpy(gSymbolTable[symbolTableTail].symbol, str) *)
      if Z.of_nat (symbolTableTail s) <? SYMBOLTABLE_SIZE then
        let e := mkSymbol (symbol_array str) (currMemory s) in
        Ok (currMemory s,
            mkState (gSymbolTable s ++ [e]) (wrap32 (currMemory s + 1)) (gInsFields s))
      else Undefined (OutOfBounds "gSymbolTable")
  end.

(** The rest of the function: [value] is written to [addFldString] in
    decimal. *)
Definition writeAddress (value : Z) (s : State) : result State :=
  digits ← digitsLoop LINEBUFFER_SIZE value [];
  '(tempIndex, add) ← reverseCopy digits (length digits) 0 (addFldString (gInsFields s));
  add ← store "addFldString" 10 add tempIndex NUL;
  Ok (set_addFldString s add).

(** [line] is the C string the argument points to; it is copied to the
    local [str] of 100 bytes and loses its last two characters. *)
Definition searchSymbolEntry (line : list ascii) (s : State) : result State :=
  (* strcpy(str, line) *)
  if (LINEBUFFER_SIZE <=? length line)%nat then Undefined (OutOfBounds "str") else
  let strLen := length line in
  (* str[strLen - 2] = 0 *)
  if (strLen <? 2)%nat then Undefined (OutOfBounds "str") else
  let str := take (strLen - 2) line in
  '(value, s') ← resolveSymbol str s;
  writeAddress value s'.

(** ** lineCommand *)

Definition wrap8 (z : Z) : Z := z mod 256.

(** The [while] loop that reads the decimal address.  [pow(10, powTen)]
    is a power of ten below 10^9 here (the string has at most nine
    characters), which a [double] holds exactly, as it does the products
    and sums formed with it; [pow] is taken to return that power, as a
    correctly rounding library does.  The assignment to the [uint16_t]
    [addr] converts the [double], which C defines only inside the range
    of [uint16_t]. *)
Fixpoint addrLoop (chars : list ascii) (powTen : Z) (addr : Z) : result Z :=
  match chars with
  | [] => Ok addr
  | c :: chars' =>
      let v := addr + (code c - code "0") * 10 ^ powTen in
      if (0 <=? v) && (v <=? 65535) then addrLoop chars' (wrap8 (powTen - 1)) v
      else Undefined FloatToInt
  end.

(** [((addr & (1 << bitPos)) >> bitPos) + '0'] *)
Definition bitChar (addr bitPos : Z) : ascii :=
  chr (Z.shiftr (Z.land addr (Z.shiftl 1 bitPos)) bitPos + code "0").

(** The [for] loop over [bitPos] from 15 down to 0; [n] is [bitPos + 1]. *)
Fixpoint bitLoop (n : nat) (addr : Z) (bits : list ascii) : list ascii :=
  match n with
  | O => bits
  | S bitPos =>
      bitLoop bitPos addr (<[(BITFIELD_MAX - bitPos - 1)%nat := bitChar addr (Z.of_nat bitPos)]> bits)
  end.

(** The [for] loops over a lookup table: the binary of the first entry
    whose mnemonic is the string in [fld]. *)
Fixpoint lookupLT (fld : list ascii) (table : list Instruction_Encoding) : option (list ascii) :=
  match table with
  | [] => None
  | e :: table' => if strcmp_eq (mnemonic e) fld then Some (binary e) else lookupLT fld table'
  end.

Definition lineCommand (s : State) : result (Z * State) :=
  let f := gInsFields s in
  (* memset(gInsFields.bitFields, 0, 17) *)
  let bits := replicate 17 NUL in
  if negb (nth 0 (addFldString f) NUL =? INVALID_VALUE)%char then
    (* A Instruction *)
    chars ← read_cstr "addFldString" (addFldString f);
    let strlength := Z.of_nat (length chars) in
    addr ← addrLoop chars (wrap8 (strlength - 1)) 0;
    let bits := bitLoop BITFIELD_MAX addr bits in
    bits ← store "bitFields" 17 bits BITFIELD_MAX NUL;
    Ok (SYSTEM_SUCCESS, set_bitFields s bits)
  else
    (* C Instruction *)
    let bits := <[2%nat := "1"%char]> (<[1%nat := "1"%char]> (<[0%nat := "1"%char]> bits)) in
    let bitPos := C_INST_PAD_LEN in
    match lookupLT (cmpFldString f) compFieldLT with
    | None => Ok (SYSTEM_FAILURE, set_bitFields s bits)
    | Some b =>
        bits ← strcpy "bitFields" 17 bits bitPos b;
        let bitPos := (bitPos + COMP_FIELD_LEN)%nat in
        match lookupLT (destFldString f) destFieldLT with
        | None => Ok (SYSTEM_FAILURE, set_bitFields s bits)
        | Some b =>
            bits ← strcpy "bitFields" 17 bits bitPos b;
            let bitPos := (bitPos + DEST_FIELD_LEN)%nat in
            match lookupLT (jmpFldString f) jumpFieldLT with
            | None => Ok (SYSTEM_FAILURE, set_bitFields s bits)
            | Some b =>
                bits ← strcpy "bitFields" 17 bits bitPos b;
                let bitPos := (bitPos + JUMP_FIELD_LEN)%nat in
                bits ← store "bitFields" 17 bits bitPos NUL;
                Ok (SYSTEM_SUCCESS, set_bitFields s bits)
            end
        end
    end.

(** ** lineParser *)

(** The first [while] loop of the C instruction branch: the destination
    field up to the equals sign; a semicolon met first ends the loop with
    the failure status.  The result is the status, the pointer, the index
    and [destFldString]. *)
Fixpoint destLoop (ptr : list ascii) (index : nat) (dest : list ascii)
  : result (Z * list ascii * nat * list ascii) :=
  match ptr with
  | [] => Undefined (OutOfBounds "lineBuffer")
  | c :: ptr' =>
      if (c =? "=")%char then Ok (SYSTEM_SUCCESS, ptr, index, dest)
      else if (c =? ";")%char then Ok (SYSTEM_FAILURE, ptr, index, dest)
      else dest' ← store "destFldString" 5 dest index c; destLoop ptr' (S index) dest'
  end.

Definition is_char (c : ascii) : ascii -> bool := fun x => (x =? c)%char.
Definition is_either (c d : ascii) : ascii -> bool := fun x => (x =? c)%char || (x =? d)%char.

(** The C instruction branch.  Its last loop, which advances [index] to
    the end of the string in [jmpFldString], changes nothing and stays
    inside the array, since the string has just been terminated. *)
Definition parseC (line : list ascii) (s : State) : result (Z * State) :=
  let f := gInsFields s in
  let add := <[0%nat := INVALID_VALUE]> (addFldString f) in
  '(status, ptr, index, dest) ← destLoop line 0 (destFldString f);
  '(ptr, dest) ←
    (if status =? SYSTEM_SUCCESS then
       (* Destination field is present *)
       dest ← store "destFldString" 5 dest index NUL; Ok (drop 1 ptr, dest)
     else
       (* Destination field is not present *)
       Ok (line, replicate 5 NUL));
  '(ptr, index, cmp) ← copyUntil (is_either ";" CR) "cmpFldString" 5 ptr 0 (cmpFldString f);
  cmp ← store "cmpFldString" 5 cmp index NUL;
  jmp ←
    match ptr with
    | [] => Undefined (OutOfBounds "lineBuffer")
    | c :: ptr' =>
        if (c =? ";")%char then
          '(_, index, jmp) ← copyUntil (is_either CR " ") "jmpFldString" 5 ptr' 0 (jmpFldString f);
          store "jmpFldString" 5 jmp index NUL
        else
          (* No Jump Field *)
          store "jmpFldString" 5 (jmpFldString f) 0 NUL
    end;
  lineCommand (set_fields s (mkFields dest jmp cmp add (bitFields f))).

(** The A instruction branch up to the call of [lineCommand]; [ptr] is the
    pointer after the at sign. *)
Definition parseAOperand (ptr : list ascii) (s : State) : result State :=
  match ptr with
  | [] => Undefined (OutOfBounds "lineBuffer")
  | c :: _ =>
      if code c >? code "9" then
        (* Symbol: strcpy(str, ptr); searchSymbolEntry(str) *)
        str ← read_cstr "lineBuffer" ptr;
        searchSymbolEntry str s
      else
        (* Address *)
        '(_, index, add) ← copyUntil (is_char CR) "addFldString" 10 ptr 0
                              (addFldString (gInsFields s));
        add ← store "addFldString" 10 add index NUL;
        Ok (set_addFldString s add)
  end.

Definition parseA (ptr : list ascii) (s : State) : result (Z * State) :=
  s' ← parseAOperand ptr s;
  lineCommand s'.

(** The label branch; [ptr] is the pointer after the parenthesis. *)
Definition parseLabel (ptr : list ascii) (s : State) : result (Z * State) :=
  '(_, index, str) ← copyUntil (is_char ")") "str" LINEBUFFER_SIZE ptr 0
                        (replicate LINEBUFFER_SIZE NUL);
  str ← store "str" LINEBUFFER_SIZE str index CR;
  str ← store "str" LINEBUFFER_SIZE str (index + 1) LF;
  str ← store "str" LINEBUFFER_SIZE str (index + 2) NUL;
  s' ← searchSymbolEntry (cstr str) s;
  Ok (SYSTEM_FAILURE, s').

(** [line] is the line buffer of 100 bytes. *)
Definition lineParser (line : list ascii) (s : State) : result (Z * State) :=
  match line with
  | c0 :: c1 :: _ =>
      if (c0 =? "/")%char && (c1 =? "/")%char then Ok (SYSTEM_FAILURE, s)
      else if (c0 =? CR)%char then Ok (SYSTEM_FAILURE, s)
      else if (c0 =? "@")%char then parseA (drop 1 line) s
      else if (c0 =? "(")%char then parseLabel (drop 1 line) s
      else parseC line s
  | _ => Undefined (OutOfBounds "lineBuffer")
  end.

(** ** Reading the input file *)

(** [fgets(buf, 100, fp)]: at most [n] characters, up to and including the
    first line feed; the result is the characters read and the rest of
    the file. *)
Fixpoint fgets (n : nat) (file : list ascii) : list ascii * list ascii :=
  match n, file with
  | S n', c :: file' =>
      if (c =? LF)%char then ([c], file')
      else let '(l, r) := fgets n' file' in (c :: l, r)
  | _, _ => ([], file)
  end.

(** The successive results of [fgets] until it returns [NULL] at the end
    of the file.  Every call consumes a character, so [length file] calls
    are enough ([readLines_concat] below). *)
Fixpoint readLines (calls : nat) (file : list ascii) : list (list ascii) :=
  match calls, file with
  | S calls', _ :: _ =>
      let '(l, r) := fgets (LINEBUFFER_SIZE - 1) file in l :: readLines calls' r
  | _, _ => []
  end.

Definition fileLines (file : list ascii) : list (list ascii) := readLines (length file) file.

(** ** firstPass *)

Definition set_table (s : State) (t : list Symbol_Table) : State :=
  mkState t (currMemory s) (gInsFields s).

(** The body of the [while] loop for one line; the result is the new
    [lineCount] and state.  The label loop reads [lineBuff[charCount]] from
    [charCount = 1] and writes [symbol[charCount - 1]] of the element at the
    tail, which holds zero bytes before. *)
Definition firstPassLine (chunk : list ascii) (lineCount : Z) (s : State) : result (Z * State) :=
  match lineBuffer chunk with
  | c0 :: c1 :: _ =>
      if (c0 =? "/")%char && (c1 =? "/")%char then Ok (lineCount, s)
      else if (c0 =? CR)%char then Ok (lineCount, s)
      else if (c0 =? "(")%char then
        if Z.of_nat (symbolTableTail s) <? SYMBOLTABLE_SIZE then
          '(_, index, symb) ← copyUntil (is_char ")") "symbol" LINEBUFFER_SIZE
                                 (drop 1 (lineBuffer chunk)) 0 (replicate LINEBUFFER_SIZE NUL);
          let charCount := S index in
          symb ← store "symbol" LINEBUFFER_SIZE symb charCount NUL;
          Ok (lineCount, set_table s (gSymbolTable s ++ [mkSymbol symb lineCount]))
        else Undefined (OutOfBounds "gSymbolTable")
      else Ok (wrap32 (lineCount + 1), s)
  | _ => Undefined (OutOfBounds "lineBuffer")
  end.

Fixpoint firstPassLoop (lines : list (list ascii)) (lineCount : Z) (s : State) : result State :=
  match lines with
  | [] => Ok s
  | chunk :: lines' =>
      '(lineCount', s') ← firstPassLine chunk lineCount s;
      firstPassLoop lines' lineCount' s'
  end.

Definition firstPass (lines : list (list ascii)) (s : State) : result State :=
  firstPassLoop lines 0 s.

(** ** secondPass *)

(** [lineWriter] appends the string in [bitFields] and a line feed to the
    output file. *)
Definition lineWriter (s : State) (out : list ascii) : result (list ascii) :=
  word ← read_cstr "bitFields" (bitFields (gInsFields s));
  Ok (out ++ word ++ [LF]).

Fixpoint secondPass (lines : list (list ascii)) (s : State) (out : list ascii)
  : result (State * list ascii) :=
  match lines with
  | [] => Ok (s, out)
  | chunk :: lines' =>
      '(status, s') ← lineParser (lineBuffer chunk) s;
      out' ← (if status =? SYSTEM_SUCCESS then lineWriter s' out else Ok out);
      secondPass lines' (varInit s') out'
  end.

(** ** main, for an input file that could be opened: the output file *)

Definition main (input : list ascii) : result (list ascii) :=
  let s := varInit staticState in
  let lines := fileLines input in
  s' ← firstPass lines s;
  '(_, out) ← secondPass lines s' [];
  Ok out.

(** The text of a source file whose lines end in carriage return and line
    feed. *)
Definition crlf (lines : list string) : list ascii :=
  concat (map (fun l => $l ++ [CR; LF]) lines).

Definition lf (lines : list string) : list ascii :=
  concat (map (fun l => $l ++ [LF]) lines).


(** ** Notions used to state the properties *)

(** The state in which the second pass hands a line to [lineParser]:
    [varInit] has just reset the per-line record. *)
Definition fresh (s : State) : Prop := gInsFields s = varInit_fields.

(** [cs] written over [a] from index [i] on. *)
Definition overwrite (i : nat) (cs a : list ascii) : list ascii :=
  take i a ++ cs ++ drop (i + length cs) a.

(** The character of bit [k] of [n]. *)
Definition bitOf (n : Z) (k : nat) : ascii :=
  if Z.testbit n (Z.of_nat k) then "1"%char else "0"%char.

(** The 16 binary digits of [n], most significant first: the character
    at position [i] is bit [15 - i]. *)
Definition binary16 (n : Z) : list ascii := map (bitOf n) (rev (seq 0 16)).

Definition digitOf (c : ascii) : Z := code c - code "0".

Definition is_digit (c : ascii) : bool := (code "0" <=? code c) && (code c <=? code "9").

(** The number a word of binary digits denotes, and the number a string
    of decimal digits denotes. *)
Definition wordValue (w : list ascii) : Z := fold_left (fun acc c => 2 * acc + digitOf c) w 0.
Definition decimalValue (ds : list ascii) : Z := fold_left (fun acc c => 10 * acc + digitOf c) ds 0.

(** The sum that [addrLoop] forms from the characters of [addFldString]. *)
Fixpoint pval (chars : list ascii) : Z :=
  match chars with
  | [] => 0
  | c :: chars' => digitOf c * 10 ^ Z.of_nat (length chars') + pval chars'
  end.

(** The source line of an A instruction with the literal operand [ds]. *)
Definition aLiteral (ds : list ascii) : list ascii := "@"%char :: ds ++ [CR; LF].

(** [ds] is a decimal literal for [n]: a string of one to nine decimal
    digits that denotes [n]. *)
Definition decimalOf (ds : list ascii) (n : Z) : Prop :=
  ds <> [] /\ Forall (fun c => is_digit c = true) ds /\ (length ds <= 9)%nat /\
  decimalValue ds = n.

(** The mnemonics of a lookup table. *)
Definition keys (table : list Instruction_Encoding) : list (list ascii) := map mnemonic table.

(** The word of a C instruction: the three ones, then the bits of the
    three fields. *)
Definition cWord (c d j : Instruction_Encoding) : list ascii :=
  $"111" ++ binary c ++ binary d ++ binary j.

(** A step of a run: the first pass consumes a line, or the second pass
    consumes a line and resets the per-line record. *)
Inductive step : State -> State -> Prop :=
| step_firstPass chunk lineCount lineCount' s s' :
    firstPassLine chunk lineCount s = Ok (lineCount', s') -> step s s'
| step_secondPass chunk s status s' :
    lineParser (lineBuffer chunk) s = Ok (status, s') -> step s (varInit s').

(** The symbol table of [s'] is that of [s] with elements appended. *)
Definition extends (s s' : State) : Prop :=
  exists ext, gSymbolTable s' = gSymbolTable s ++ ext.

(** The state after a first pass over the single line [(SCREEN)], which
    declares a label under a predefined name. *)
Definition keep_first_after : State :=
  mkState (initialSymbolTable ++ [sym "SCREEN" 0]) CURR_MEMORY varInit_fields.

(** A state whose fields hold the instruction [D=A]. *)
Definition computation_encoding_state : State :=
  mkState initialSymbolTable CURR_MEMORY
    (mkFields ($"D" ++ replicate 4 NUL) (replicate 5 NUL) ($"A" ++ replicate 4 NUL)
              (replicate 10 INVALID_VALUE) (replicate 17 NUL)).


(** ** Source programs

    The lines of a source file, as the specification classifies them.
    [render] gives the characters of a line, ended by carriage return and
    line feed. *)
Inductive sourceLine : Type :=
| Comment (text : list ascii)       (* //text *)
| Blank
| Label (name : list ascii)         (* (name) *)
| Instruction (text : list ascii).  (* an A or a C instruction *)

Definition render (l : sourceLine) : list ascii :=
  match l with
  | Comment text => $"//" ++ text ++ [CR; LF]
  | Blank => [CR; LF]
  | Label name => $"(" ++ name ++ $")" ++ [CR; LF]
  | Instruction text => text ++ [CR; LF]
  end.

(** The text of an instruction is not empty and does not begin like a
    line of another kind. *)
Definition instructionStart (text : list ascii) : Prop :=
  match text with
  | [] => False
  | c0 :: rest =>
      c0 <> CR /\ c0 <> "("%char /\ ~ (c0 = "/"%char /\ head rest = Some "/"%char)
  end.

(** A line that [fgets] reads in one piece, with a label name free of the
    closing parenthesis and of zero bytes. *)
Definition wellFormed (l : sourceLine) : Prop :=
  (length (render l) < LINEBUFFER_SIZE)%nat /\
  match l with
  | Label name => (")"%char ∉ name) /\ (NUL ∉ name)
  | Instruction text => instructionStart text
  | _ => True
  end.

(** The number of instruction lines among [ls]: comments, blank lines and
    label declarations do not count. *)
Fixpoint instructionCount (ls : list sourceLine) : Z :=
  match ls with
  | [] => 0
  | Instruction _ :: ls' => 1 + instructionCount ls'
  | _ :: ls' => instructionCount ls'
  end.

(** The elements the first pass appends for [ls] when [n] instructions
    precede [ls]. *)
Fixpoint labelsFrom (ls : list sourceLine) (n : Z) : list Symbol_Table :=
  match ls with
  | [] => []
  | Label name :: ls' => mkSymbol (symbol_array name) n :: labelsFrom ls' n
  | Instruction _ :: ls' => labelsFrom ls' (n + 1)
  | _ :: ls' => labelsFrom ls' n
  end.

(** The source line of an A instruction with the symbol [name]. *)
Definition aSymbol (name : list ascii) : list ascii := "@"%char :: name ++ [CR; LF].

(** A symbol as the parser accepts it: its first character lies above the
    digit 9, it holds no zero byte, and its line fits the line buffer. *)
Definition symbolName (name : list ascii) : Prop :=
  match name with
  | [] => False
  | c :: _ => code c > code "9"
  end /\ (NUL ∉ name) /\ (length (aSymbol name) < LINEBUFFER_SIZE)%nat.

(** ** Variables

    [isNew t n]: the table [t] holds no symbol [n]. *)
Definition isNew (t : list Symbol_Table) (n : list ascii) : Prop := findEntry n t = None.

#[global] Instance isNew_dec t n : Decision (isNew t n).
Proof. unfold isNew. apply _. Defined.

(** The number of distinct names among [ns] that [t] does not hold. *)
Definition newCount (t : list Symbol_Table) (ns : list (list ascii)) : nat :=
  length (remove_dups (filter (isNew t) ns)).

(** The index of the first appearance of [n] in [ns]. *)
Fixpoint firstIndex (n : list ascii) (ns : list (list ascii)) : nat :=
  match ns with
  | [] => O
  | m :: ns' => if decide (m = n) then O else S (firstIndex n ns')
  end.

(** The address the specification gives the symbol [n] in a program whose
    references are [ns], in this order, when the second pass begins with
    the table [t]: the value in [t] if there is one; otherwise the first
    free address plus the number of distinct new names referenced before
    the first appearance of [n]. *)
Definition resolved (t : list Symbol_Table) (ns : list (list ascii)) (n : list ascii) : Z :=
  match findEntry n t with
  | Some v => v
  | None => CURR_MEMORY + Z.of_nat (newCount t (take (firstIndex n ns) ns))
  end.

(** What holds after the references [p] have been processed, from a state
    whose table was [t0]. *)
Definition allocated (t0 : list Symbol_Table) (p : list (list ascii)) (s : State) : Prop :=
  fresh s /\
  currMemory s = CURR_MEMORY + Z.of_nat (newCount t0 p) /\
  (length (gSymbolTable s) <= length t0 + length p)%nat /\
  (forall x, NUL ∉ x -> x ∈ p \/ ¬ isNew t0 x ->
             findEntry x (gSymbolTable s) = Some (resolved t0 p x)) /\
  (forall x, NUL ∉ x -> x ∉ p -> isNew t0 x -> findEntry x (gSymbolTable s) = None).

#[global] Instance instructionStart_dec text : Decision (instructionStart text).
Proof. destruct text; simpl; apply _. Defined.

#[global] Instance wellFormed_dec l : Decision (wellFormed l).
Proof. unfold wellFormed. destruct l; apply _. Defined.

#[global] Instance symbolName_dec name : Decision (symbolName name).
Proof. unfold symbolName. destruct name; apply _. Defined.

(** A program that declares [(LOOP)] after three instructions, with a
    comment and a blank line among them. *)
Definition loopProgram : list sourceLine :=
  [ Instruction $"@1"; Comment $" count"; Instruction $"D=A"; Blank; Instruction $"@2";
    Label $"LOOP"; Instruction $"@LOOP"; Instruction $"0;JMP" ].

(** ** C instructions as the specification splits them

    The text of a C instruction with the destination [d], the operation
    [c] and the jump [j]: [d=c], [d=c;j] or [c;j], ended by carriage
    return and line feed.  The bare form [c], with neither sign, is not
    among them. *)
Inductive cLine (d c j : list ascii) : list ascii -> Prop :=
| cLine_dest_comp : j = [] -> cLine d c j (d ++ $"=" ++ c ++ [CR; LF])
| cLine_dest_comp_jump : cLine d c j (d ++ $"=" ++ c ++ $";" ++ j ++ [CR; LF])
| cLine_comp_jump : d = [] -> cLine d c j (c ++ $";" ++ j ++ [CR; LF]).

(** A field without the characters that end a field. *)
Definition plain (x : list ascii) : Prop :=
  Forall (fun ch => ch ∉ [ "="%char; ";"%char; CR; " "%char; NUL ]) x.

(** The first characters of a line that the parser takes for a C
    instruction. *)
Definition cStart (chunk : list ascii) : Prop :=
  match chunk with
  | c0 :: c1 :: _ =>
      c0 <> CR /\ c0 <> "@"%char /\ c0 <> "("%char /\ ~ (c0 = "/"%char /\ c1 = "/"%char)
  | _ => False
  end.

(** A field array of five bytes holding the string [x]. *)
Definition pad5 (x : list ascii) : list ascii := x ++ replicate (5 - length x) NUL.

(** The state in which the parser calls [lineCommand] for the fields
    [d], [c] and [j]. *)
Definition cState (s : State) (d c j : list ascii) : State :=
  set_fields s (mkFields (pad5 d) (pad5 j) (pad5 c)
                         (replicate 10 INVALID_VALUE) (replicate 17 NUL)).

(** ** Programs of the second pass

    A line of the second pass is a reference [@name] to a symbol, or
    another line together with what the pass writes for it. *)
Inductive passLine : Type :=
| Reference (name : list ascii)
| Other (chunk written : list ascii).

Definition chunkOf (l : passLine) : list ascii :=
  match l with
  | Reference name => aSymbol name
  | Other chunk _ => chunk
  end.

Fixpoint references (prog : list passLine) : list (list ascii) :=
  match prog with
  | [] => []
  | Reference name :: prog' => name :: references prog'
  | Other _ _ :: prog' => references prog'
  end.

(** The second pass handles [chunk] by writing [written] and leaves the
    state as it was, in every state whose table begins with [t0]. *)
Definition passesBy (t0 : list Symbol_Table) (chunk written : list ascii) : Prop :=
  forall s rest out,
    fresh s -> (exists ext, gSymbolTable s = t0 ++ ext) ->
    secondPass (chunk :: rest) s out = secondPass rest s (out ++ written).

Definition passLineOk (t0 : list Symbol_Table) (l : passLine) : Prop :=
  match l with
  | Reference name => symbolName name
  | Other chunk written => passesBy t0 chunk written
  end.

(** What the second pass writes for a line, when the table was [t0] at
    its beginning and [ns] are the references of the program. *)
Definition writtenFor (t0 : list Symbol_Table) (ns : list (list ascii)) (l : passLine)
  : list ascii :=
  match l with
  | Reference name => binary16 (resolved t0 ns name) ++ [LF]
  | Other _ written => written
  end.

(** The characters of a source line before its carriage return. *)
Definition textOf (l : sourceLine) : list ascii :=
  match l with
  | Comment text => $"//" ++ text
  | Blank => []
  | Label name => $"(" ++ name ++ $")"
  | Instruction text => text
  end.

(** ** Notions for the further properties *)

(** The part of [parseC] after the destination: the operation and the
    jump are read from [ptr] and [lineCommand] is called with the
    destination [dest]. *)
Definition parseRest (dest ptr : list ascii) (s : State) : result (Z * State) :=
  let f := gInsFields s in
  let add := <[0%nat := INVALID_VALUE]> (addFldString f) in
  '(ptr, index, cmp) ← copyUntil (is_either ";" CR) "cmpFldString" 5 ptr 0 (cmpFldString f);
  cmp ← store "cmpFldString" 5 cmp index NUL;
  jmp ←
    match ptr with
    | [] => Undefined (OutOfBounds "lineBuffer")
    | c :: ptr' =>
        if (c =? ";")%char then
          '(_, index, jmp) ← copyUntil (is_either CR " ") "jmpFldString" 5 ptr' 0 (jmpFldString f);
          store "jmpFldString" 5 jmp index NUL
        else
          store "jmpFldString" 5 (jmpFldString f) 0 NUL
    end;
  lineCommand (set_fields s (mkFields dest jmp cmp add (bitFields f))).

(** The bits of the mnemonic [x] in a lookup table, by equality of the
    mnemonics. *)
Fixpoint codeOf (x : list ascii) (table : list Instruction_Encoding) : option (list ascii) :=
  match table with
  | [] => None
  | e :: table' => if decide (mnemonic e = x) then Some (binary e) else codeOf x table'
  end.

(** What the second pass writes for a C instruction with the fields [d],
    [c] and [j]: its word and a line feed when the three tables hold the
    fields, and nothing otherwise. *)
Definition cOutput (d c j : list ascii) : list ascii :=
  match codeOf c compFieldLT, codeOf d destFieldLT, codeOf j jumpFieldLT with
  | Some bc, Some bd, Some bj => $"111" ++ bc ++ bd ++ bj ++ [LF]
  | _, _, _ => []
  end.

#[global] Instance plain_dec x : Decision (plain x).
Proof. unfold plain. apply _. Defined.

#[global] Instance cStart_dec chunk : Decision (cStart chunk).
Proof. unfold cStart. destruct chunk as [|c0 [|c1 chunk]]; apply _. Defined.

(** A word of the output: sixteen binary digits. *)
Definition isWord (w : list ascii) : Prop :=
  length w = 16%nat /\ Forall (fun c => c = "0"%char \/ c = "1"%char) w.

#[global] Instance Instruction_Encoding_eq_dec : EqDecision Instruction_Encoding.
Proof. solve_decision. Defined.

(** ** Assembly programs

    The lines of a program by their form. *)
Inductive asmLine : Type :=
| AComment (text : list ascii)          (* //text *)
| ABlank
| ALabel (name : list ascii)            (* (name) *)
| ALiteral (ds : list ascii)            (* @ds, a decimal literal *)
| ASymbol (name : list ascii)           (* @name *)
| CDestComp (d c : list ascii)          (* d=c *)
| CDestCompJump (d c j : list ascii)    (* d=c;j *)
| CCompJump (c j : list ascii).         (* c;j *)

Definition toSource (l : asmLine) : sourceLine :=
  match l with
  | AComment text => Comment text
  | ABlank => Blank
  | ALabel name => Label name
  | ALiteral ds => Instruction ("@"%char :: ds)
  | ASymbol name => Instruction ("@"%char :: name)
  | CDestComp d c => Instruction (d ++ $"=" ++ c)
  | CDestCompJump d c j => Instruction (d ++ $"=" ++ c ++ $";" ++ j)
  | CCompJump c j => Instruction (c ++ $";" ++ j)
  end.

(** The characters of a line in the source file. *)
Definition asmText (l : asmLine) : list ascii := render (toSource l).

(** A field of a C instruction that fits its array. *)
Definition field (x : list ascii) : Prop := plain x /\ (length x <= 4)%nat.

(** The lines the program handles within the bounds of its arrays: a
    line is read in one piece, a literal is a decimal number up to 65535,
    a symbol begins above the digit 9, the fields of a C instruction have
    at most four characters. *)
Definition asmOk (l : asmLine) : Prop :=
  wellFormed (toSource l) /\ (LF ∉ textOf (toSource l)) /\
  match l with
  | ALiteral ds => decimalOf ds (decimalValue ds) /\ decimalValue ds <= 65535
  | ASymbol name => symbolName name
  | CDestComp d c => cStart (asmText l) /\ field d /\ field c
  | CDestCompJump d c j => cStart (asmText l) /\ field d /\ field c /\ field j
  | CCompJump c j => cStart (asmText l) /\ field c /\ field j
  | _ => True
  end.

(** The symbols the program refers to, in the order of the lines. *)
Fixpoint symbolsOf (prog : list asmLine) : list (list ascii) :=
  match prog with
  | [] => []
  | ASymbol name :: prog' => name :: symbolsOf prog'
  | _ :: prog' => symbolsOf prog'
  end.

(** The symbol table after the first pass: the predefined symbols, then
    the labels in the order of their declarations, each with the number
    of instructions before it. *)
Definition labelTable (prog : list asmLine) : list Symbol_Table :=
  initialSymbolTable ++ labelsFrom (map toSource prog) 0.

(** The output for a line, when [t] is the table after the first pass and
    [ns] are the symbols the program refers to. *)
Definition asmWord (t : list Symbol_Table) (ns : list (list ascii)) (l : asmLine) : list ascii :=
  match l with
  | ALiteral ds => binary16 (decimalValue ds) ++ [LF]
  | ASymbol name => binary16 (resolved t ns name) ++ [LF]
  | CDestComp d c => cOutput d c []
  | CDestCompJump d c j => cOutput d c j
  | CCompJump c j => cOutput [] c j
  | _ => []
  end.

(** The line as the second pass sees it. *)
Definition toPass (l : asmLine) : passLine :=
  match l with
  | ASymbol name => Reference name
  | _ => Other (asmText l) (asmWord [] [] l)
  end.

#[global] Instance decimalOf_dec ds n : Decision (decimalOf ds n).
Proof. unfold decimalOf. apply _. Defined.

#[global] Instance field_dec x : Decision (field x).
Proof. unfold field. apply _. Defined.

#[global] Instance asmOk_dec l : Decision (asmOk l).
Proof. unfold asmOk. destruct l; apply _. Defined.

(** A program with lines of every form. *)
Definition sumProgram : list asmLine :=
  [ AComment $" sum"; ASymbol $"i"; CDestComp $"M" $"1"; ALabel $"LOOP"; ASymbol $"i";
    CDestComp $"D" $"M"; ASymbol $"LOOP"; CCompJump $"D" $"JGT"; ABlank; ALiteral $"5";
    ASymbol $"SCREEN"; ASymbol $"sum"; CDestComp $"D" $"Q"; CDestCompJump $"AMD" $"D|M" $"JNE" ].

(** [s'] is [s] with one symbol appended at the tail, under the address
    [currMemory], which advances by one. *)
Definition allocates (s s' : State) : Prop :=
  exists name,
    findEntry name (gSymbolTable s) = None /\
    gSymbolTable s' = gSymbolTable s ++ [mkSymbol (symbol_array name) (currMemory s)] /\
    currMemory s' = wrap32 (currMemory s + 1).

(** [s'] has the table and the free address of [s]. *)
Definition sameSymbols (s s' : State) : Prop :=
  gSymbolTable s' = gSymbolTable s /\ currMemory s' = currMemory s.


(** * Properties *)

Lemma bytes_eqb_eq a b : bytes_eqb a b = true <-> a = b.
Proof.
  revert b; induction a as [|x a IH]; intros [|y b]; simpl; try (split; congruence).
  rewrite andb_true_iff, Ascii.eqb_eq, IH. split; [intros [-> ->]; done | intros [= -> ->]; done].
Qed.

Lemma bytes_eqb_refl a : bytes_eqb a a = true.
Proof. by apply bytes_eqb_eq. Qed.

Lemma bytes_eqb_neq a b : a ≠ b -> bytes_eqb a b = false.
Proof. intros H. destruct (bytes_eqb a b) eqn:E; [|done]. by apply bytes_eqb_eq in E. Qed.

Lemma cstr_app_nul cs r : NUL ∉ cs -> cstr (cs ++ NUL :: r) = cs.
Proof.
  induction cs as [|c cs IH]; simpl; intros H; [done|].
  apply not_elem_of_cons in H as [Hc Hcs].
  destruct (Ascii.eqb_spec c NUL); [congruence|]. by rewrite IH.
Qed.

Lemma cstr_id cs : NUL ∉ cs -> cstr cs = cs.
Proof.
  induction cs as [|c cs IH]; simpl; intros H; [done|].
  apply not_elem_of_cons in H as [Hc Hcs].
  destruct (Ascii.eqb_spec c NUL); [congruence|]. by rewrite IH.
Qed.

Lemma cstr_no_nul a : NUL ∉ cstr a.
Proof.
  induction a as [|c a IH]; simpl; [apply not_elem_of_nil|].
  destruct (Ascii.eqb_spec c NUL); [apply not_elem_of_nil|].
  apply not_elem_of_cons; split; [congruence | done].
Qed.

Lemma read_cstr_app w cs r : NUL ∉ cs -> read_cstr w (cs ++ NUL :: r) = Ok cs.
Proof.
  induction cs as [|c cs IH]; simpl; intros H; [done|].
  apply not_elem_of_cons in H as [Hc Hcs].
  destruct (Ascii.eqb_spec c NUL); [congruence|]. by rewrite IH.
Qed.

Lemma read_cstr_Ok w a cs : read_cstr w a = Ok cs -> cs = cstr a /\ exists r, a = cs ++ NUL :: r.
Proof.
  revert cs; induction a as [|c a IH]; simpl; intros cs; [done|].
  destruct (Ascii.eqb_spec c NUL) as [->|Hc].
  - intros [= <-]. split; [done|]. by exists a.
  - destruct (read_cstr w a) as [r|] eqn:E; simpl; [|done].
    intros [= <-]. destruct (IH r eq_refl) as [-> [r' Hr]]. split; [done|].
    exists r'. simpl. by rewrite <- Hr.
Qed.

Lemma overwrite_nil i a : overwrite i [] a = a.
Proof. unfold overwrite. simpl. rewrite Nat.add_0_r. apply take_drop. Qed.

Lemma length_overwrite i cs a : (i + length cs <= length a)%nat -> length (overwrite i cs a) = length a.
Proof.
  intros H. unfold overwrite. rewrite !length_app, length_take, length_drop. lia.
Qed.

Lemma insert_overwrite i cs c a :
  (i + length cs < length a)%nat ->
  <[(i + length cs)%nat := c]> (overwrite i cs a) = overwrite i (cs ++ [c]) a.
Proof.
  intros H. unfold overwrite.
  rewrite insert_app_r_alt by (rewrite length_take; lia).
  rewrite length_take, Nat.min_l by lia.
  rewrite insert_app_r_alt by lia.
  replace (i + length cs - i - length cs)%nat with 0%nat by lia.
  rewrite <- app_assoc. f_equal. f_equal.
  rewrite length_app. simpl.
  destruct (drop (i + length cs) a) as [|x d] eqn:E.
  - apply (f_equal length) in E. rewrite length_drop in E. simpl in E. lia.
  - simpl. f_equal.
    replace (i + (length cs + 1))%nat with ((i + length cs) + 1)%nat by lia.
    by rewrite <- drop_drop, E.
Qed.

Lemma store_Ok w size a i c : (i < size)%nat -> store w size a i c = Ok (<[i := c]> a).
Proof. intros H. unfold store. by apply Nat.ltb_lt in H as ->. Qed.

Lemma copyUntil_overwrite stop w size cs d rest a :
  Forall (fun c => stop c = false) cs -> stop d = true ->
  (length cs <= size)%nat -> (size <= length a)%nat ->
  forall done_, (length done_ + length cs <= size)%nat ->
  copyUntil stop w size (cs ++ d :: rest) (length done_) (overwrite 0 done_ a)
  = Ok (d :: rest, (length done_ + length cs)%nat, overwrite 0 (done_ ++ cs) a).
Proof.
  intros Hcs Hd _ Ha. induction Hcs as [|c cs Hc Hcs IH]; intros done_ Hlen; simpl.
  - rewrite Hd, Nat.add_0_r, app_nil_r. done.
  - rewrite Hc. simpl in Hlen. rewrite store_Ok by lia. simpl.
    change (length done_) with (0 + length done_)%nat at 2.
    rewrite insert_overwrite by (simpl; lia).
    replace (S (length done_)) with (length (done_ ++ [c])) by (rewrite length_app; simpl; lia).
    rewrite IH by (rewrite length_app; simpl; lia).
    rewrite length_app, <- app_assoc. simpl. do 3 f_equal. lia.
Qed.

Lemma copyUntil_from0 stop w size cs d rest a :
  Forall (fun c => stop c = false) cs -> stop d = true ->
  (length cs <= size)%nat -> (size <= length a)%nat ->
  copyUntil stop w size (cs ++ d :: rest) 0 a
  = Ok (d :: rest, length cs, cs ++ drop (length cs) a).
Proof.
  intros Hcs Hd Hl Ha.
  pose proof (copyUntil_overwrite stop w size cs d rest a Hcs Hd Hl Ha [] Hl) as H.
  by rewrite overwrite_nil in H.
Qed.

Lemma copyUntil_runaway stop w size ptr index a :
  Forall (fun c => stop c = false) ptr ->
  exists f, copyUntil stop w size ptr index a = Undefined f.
Proof.
  intros H. revert index a. induction H as [|c ptr Hc H IH]; intros index a; simpl.
  - eauto.
  - rewrite Hc. unfold store. destruct (index <? size)%nat; simpl; eauto.
Qed.

Lemma testbit_b2z_pos b i : 0 < i -> Z.testbit (Z.b2z b) i = false.
Proof.
  intros Hi. destruct b; simpl Z.b2z; [|apply Z.bits_0].
  apply Z.bits_above_log2; simpl; lia.
Qed.

Lemma shift_mask_bit a k : 0 <= k ->
  Z.shiftr (Z.land a (Z.shiftl 1 k)) k = Z.b2z (Z.testbit a k).
Proof.
  intros Hk. apply Z.bits_inj'. intros i Hi.
  rewrite Z.shiftr_spec, Z.land_spec, Z.shiftl_spec by lia.
  replace (i + k - k) with i by lia.
  destruct (Z.eq_dec i 0) as [->|Hne].
  - rewrite Z.b2z_bit0. simpl. change (Z.testbit 1 0) with true. by rewrite andb_true_r.
  - change 1 with (Z.b2z true) at 1.
    rewrite (testbit_b2z_pos true i), (testbit_b2z_pos _ i) by lia. apply andb_false_r.
Qed.

Lemma bitChar_bitOf addr k : bitChar addr (Z.of_nat k) = bitOf addr k.
Proof.
  unfold bitChar, bitOf. rewrite shift_mask_bit by lia.
  by destruct (Z.testbit addr (Z.of_nat k)).
Qed.

Lemma bitLoop_16 addr :
  bitLoop BITFIELD_MAX addr (replicate 17 NUL) = binary16 addr ++ [NUL].
Proof.
  transitivity (map (fun k => bitChar addr (Z.of_nat k)) (rev (seq 0 16)) ++ [NUL]).
  - reflexivity.
  - f_equal. apply map_ext. intros k. apply bitChar_bitOf.
Qed.

Lemma horner_app (b : Z) (w : list ascii) acc :
  fold_left (fun acc c => b * acc + digitOf c) w acc
  = acc * b ^ Z.of_nat (length w) + fold_left (fun acc c => b * acc + digitOf c) w 0.
Proof.
  revert acc. induction w as [|c w IH]; intros acc; simpl fold_left.
  - simpl. lia.
  - rewrite IH, (IH (b * 0 + digitOf c)).
    replace (Z.of_nat (length (c :: w))) with (Z.succ (Z.of_nat (length w))) by (simpl; lia).
    rewrite Z.pow_succ_r by lia. ring.
Qed.

Lemma digitOf_bitOf n k : digitOf (bitOf n k) = Z.b2z (Z.testbit n (Z.of_nat k)).
Proof. unfold bitOf. by destruct (Z.testbit n (Z.of_nat k)). Qed.

Lemma wordValue_bits n w :
  wordValue (map (bitOf n) (rev (seq 0 w))) = n mod 2 ^ Z.of_nat w.
Proof.
  induction w as [|w IH].
  - simpl. by rewrite Z.mod_1_r.
  - rewrite seq_S, rev_app_distr. simpl rev. simpl map.
    unfold wordValue in *. simpl fold_left. rewrite horner_app, IH.
    rewrite length_map, length_rev, length_seq, digitOf_bitOf.
    rewrite Z.testbit_spec' by lia.
    replace (Z.of_nat (S w)) with (Z.succ (Z.of_nat w)) by lia.
    rewrite Z.pow_succ_r by lia.
    rewrite (Z.mul_comm 2 (2 ^ Z.of_nat w)), Z.rem_mul_r by lia. lia.
Qed.

Lemma wordValue_binary16 n : 0 <= n < 65536 -> wordValue (binary16 n) = n.
Proof.
  intros H. unfold binary16. rewrite wordValue_bits.
  change (2 ^ Z.of_nat 16) with 65536. by apply Z.mod_small.
Qed.

Lemma length_binary16 n : length (binary16 n) = 16%nat.
Proof. reflexivity. Qed.

Lemma binary16_bits n : Forall (fun c => c = "0"%char \/ c = "1"%char) (binary16 n).
Proof.
  unfold binary16. apply Forall_map, Forall_forall. intros k _. unfold bitOf.
  destruct (Z.testbit n (Z.of_nat k)); auto.
Qed.

Lemma binary16_head n : 0 <= n <= 32767 -> head (binary16 n) = Some "0"%char.
Proof.
  intros H. unfold binary16. cbn [seq rev app map head]. unfold bitOf.
  rewrite Z.bits_above_log2; [done | lia |].
  destruct (Z.eq_dec n 0) as [->|Hn]; [simpl; lia|].
  apply Z.log2_lt_pow2; simpl; lia.
Qed.

Lemma pval_decimalValue chars : pval chars = decimalValue chars.
Proof.
  unfold decimalValue. induction chars as [|c chars IH]; simpl; [done|].
  rewrite horner_app, <- IH. lia.
Qed.

Lemma pval_nonneg chars : Forall (fun c => is_digit c = true) chars -> 0 <= pval chars.
Proof.
  induction 1 as [|c chars Hc _ IH]; simpl; [lia|].
  unfold is_digit in Hc. apply andb_true_iff in Hc as [H1 H2].
  apply Z.leb_le in H1, H2. unfold digitOf.
  assert (0 <= 10 ^ Z.of_nat (length chars)) by (apply Z.pow_nonneg; lia). nia.
Qed.

Lemma wrap8_small z : 0 <= z < 256 -> wrap8 z = z.
Proof. intros H. unfold wrap8. by apply Z.mod_small. Qed.

Lemma addrLoop_spec chars addr :
  Forall (fun c => is_digit c = true) chars -> (length chars <= 256)%nat ->
  0 <= addr -> addr + pval chars <= 65535 ->
  addrLoop chars (wrap8 (Z.of_nat (length chars) - 1)) addr = Ok (addr + pval chars).
Proof.
  intros Hd. revert addr. induction Hd as [|c chars Hc Hd IH]; intros addr Hlen Ha Hv.
  - simpl. f_equal. lia.
  - simpl in Hlen. cbn [addrLoop pval] in *.
    pose proof (pval_nonneg chars Hd) as Hp.
    replace (Z.of_nat (length (c :: chars)) - 1) with (Z.of_nat (length chars)) by (simpl; lia).
    rewrite (wrap8_small (Z.of_nat (length chars))) by lia.
    fold (digitOf c).
    assert (0 <= digitOf c * 10 ^ Z.of_nat (length chars)).
    { unfold is_digit in Hc. apply andb_true_iff in Hc as [H1 H2].
      apply Z.leb_le in H1, H2. unfold digitOf.
      assert (0 <= 10 ^ Z.of_nat (length chars)) by (apply Z.pow_nonneg; lia). nia. }
    destruct (Z.leb_spec 0 (addr + digitOf c * 10 ^ Z.of_nat (length chars))); [|lia].
    destruct (Z.leb_spec (addr + digitOf c * 10 ^ Z.of_nat (length chars)) 65535); [|lia].
    simpl andb. cbv iota. rewrite IH by lia. f_equal. lia.
Qed.

Lemma bind_Ok {A B} (f : A -> result B) (a : A) : Ok a ≫= f = f a.
Proof. reflexivity. Qed.

Lemma bind_Undefined {A B} (f : A -> result B) e : Undefined e ≫= f = Undefined e.
Proof. reflexivity. Qed.

Lemma is_digit_code c : is_digit c = true -> 48 <= code c <= 57.
Proof.
  unfold is_digit. intros H. apply andb_true_iff in H as [H1 H2].
  apply Z.leb_le in H1, H2. change (code "0") with 48 in *. change (code "9") with 57 in *. lia.
Qed.

Lemma is_digit_neq c d : is_digit c = true -> is_digit d = false -> c <> d.
Proof. intros H1 H2 ->. congruence. Qed.

Lemma digits_no c ds : is_digit c = false -> Forall (fun d => is_digit d = true) ds -> c ∉ ds.
Proof.
  intros Hc Hds Hin. rewrite Forall_forall in Hds. apply Hds in Hin. congruence.
Qed.

Lemma lineWriter_word s w out :
  NUL ∉ w -> lineWriter (set_bitFields s (w ++ [NUL])) out = Ok (out ++ w ++ [LF]).
Proof. intros H. unfold lineWriter. simpl. by rewrite read_cstr_app. Qed.

Lemma binary16_no_nul n : NUL ∉ binary16 n.
Proof.
  intros H. pose proof (binary16_bits n) as Hb. rewrite Forall_forall in Hb.
  destruct (Hb _ H); discriminate.
Qed.

Lemma lineCommand_address s ds tl :
  addFldString (gInsFields s) = ds ++ NUL :: tl ->
  Forall (fun c => is_digit c = true) ds -> (length ds <= 256)%nat ->
  decimalValue ds <= 65535 ->
  lineCommand s = Ok (SYSTEM_SUCCESS, set_bitFields s (binary16 (decimalValue ds) ++ [NUL])).
Proof.
  intros Hadd Hds Hlen Hv. unfold lineCommand. rewrite Hadd.
  assert (nth 0 (ds ++ NUL :: tl) NUL <> INVALID_VALUE) as Hn.
  { destruct Hds as [|d ds Hd _]; simpl; [done|].
    intros ->. discriminate. }
  destruct (Ascii.eqb_spec (nth 0 (ds ++ NUL :: tl) NUL) INVALID_VALUE) as [|_]; [done|].
  simpl negb. cbv iota.
  rewrite read_cstr_app by (apply digits_no; done). rewrite bind_Ok.
  rewrite <- pval_decimalValue in *.
  rewrite addrLoop_spec by (try done; lia). rewrite bind_Ok, Z.add_0_l.
  rewrite bitLoop_16. rewrite store_Ok by (unfold BITFIELD_MAX; lia).
  rewrite bind_Ok. reflexivity.
Qed.

Lemma lineBuffer_cons c chunk :
  (length chunk < LINEBUFFER_SIZE)%nat ->
  lineBuffer (c :: chunk) = c :: chunk ++ replicate (LINEBUFFER_SIZE - 1 - length chunk) NUL.
Proof.
  intros H. unfold lineBuffer. simpl app. simpl length. do 2 f_equal.
Qed.

Lemma parseAOperand_literal ds rest s :
  fresh s -> ds <> [] -> Forall (fun c => is_digit c = true) ds -> (length ds <= 9)%nat ->
  parseAOperand (ds ++ CR :: rest) s
  = Ok (set_addFldString s (ds ++ NUL :: replicate (9 - length ds) INVALID_VALUE)).
Proof.
  intros Hs Hne Hds Hlen. unfold parseAOperand.
  destruct ds as [|d ds']; [done|]. cbn [app].
  pose proof (Forall_inv Hds) as Hd. apply is_digit_code in Hd.
  change (code "9") with 57. destruct (Z.gtb_spec (code d) 57); [lia|].
  change (d :: ds' ++ CR :: rest) with ((d :: ds') ++ CR :: rest).
  rewrite Hs. cbn [addFldString varInit_fields].
  rewrite copyUntil_from0; first last.
  - rewrite length_replicate. lia.
  - lia.
  - reflexivity.
  - eapply Forall_impl; [exact Hds|]. intros c Hc. unfold is_char.
    destruct (Ascii.eqb_spec c CR) as [->|]; [discriminate|done].
  - rewrite bind_Ok. cbv beta iota.
    rewrite store_Ok by lia. rewrite bind_Ok. do 2 f_equal.
    rewrite drop_replicate.
    rewrite insert_app_r_alt, Nat.sub_diag by lia.
    replace (10 - length (d :: ds'))%nat with (S (9 - length (d :: ds'))) by lia.
    reflexivity.
Qed.

Lemma lineParser_at c1 rest s :
  lineParser ("@"%char :: c1 :: rest) s = parseA (c1 :: rest) s.
Proof. reflexivity. Qed.

Lemma lineParser_literal ds s :
  fresh s -> ds <> [] -> Forall (fun c => is_digit c = true) ds -> (length ds <= 9)%nat ->
  decimalValue ds <= 65535 ->
  lineParser (lineBuffer (aLiteral ds)) s
  = Ok (SYSTEM_SUCCESS,
        set_bitFields (set_addFldString s (ds ++ NUL :: replicate (9 - length ds) INVALID_VALUE))
          (binary16 (decimalValue ds) ++ [NUL])).
Proof.
  intros Hs Hne Hds Hlen Hv. unfold aLiteral.
  rewrite lineBuffer_cons by (rewrite length_app; simpl; unfold LINEBUFFER_SIZE; lia).
  rewrite <- app_assoc. cbn [app].
  destruct ds as [|d ds'] eqn:E; [done|]. rewrite <- E in *.
  assert (exists x r, ds ++ CR :: LF :: replicate (LINEBUFFER_SIZE - 1 - length (ds ++ [CR; LF])) NUL = x :: r)
    as (x & r & Hx) by (rewrite E; simpl; eauto).
  rewrite Hx, lineParser_at, <- Hx. unfold parseA.
  rewrite parseAOperand_literal by done. rewrite bind_Ok.
  erewrite lineCommand_address; [reflexivity| reflexivity |done|lia|done].
Qed.

(** ** The lookup tables *)

Lemma lookupLT_In table e fld :
  NoDup (keys table) -> NUL ∉ concat (keys table) ->
  e ∈ table -> cstr fld = mnemonic e -> lookupLT fld table = Some (binary e).
Proof.
  intros Hnd Hnul He Hfld. induction table as [|x table IH]; [by apply elem_of_nil in He|].
  simpl in Hnd, Hnul. apply NoDup_cons in Hnd as [Hx Hnd].
  assert ((NUL ∉ mnemonic x) /\ (NUL ∉ concat (keys table))) as [Hnx Hnt].
  { split; intros Hin; apply Hnul, elem_of_app; auto. }
  simpl. unfold strcmp_eq. rewrite (cstr_id (mnemonic x)), Hfld by done.
  apply elem_of_cons in He as [->|He].
  - by rewrite bytes_eqb_refl.
  - rewrite bytes_eqb_neq; [by apply IH|].
    intros Heq. apply Hx. rewrite Heq. unfold keys. apply list_elem_of_fmap. eauto.
Qed.

Lemma lookupLT_None table fld :
  NUL ∉ concat (keys table) ->
  cstr fld ∉ keys table -> lookupLT fld table = None.
Proof.
  intros Hnul Hfld. induction table as [|x table IH]; [done|].
  simpl in Hnul.
  assert ((NUL ∉ mnemonic x) /\ (NUL ∉ concat (keys table))) as [Hnx Hnt].
  { split; intros Hin; apply Hnul, elem_of_app; auto. }
  simpl in *. apply not_elem_of_cons in Hfld as [Hne Hfld].
  unfold strcmp_eq. rewrite (cstr_id (mnemonic x)) by done.
  rewrite bytes_eqb_neq by done. by apply IH.
Qed.

Lemma lookupLT_Some table fld b :
  lookupLT fld table = Some b -> exists e, e ∈ table /\ b = binary e /\ cstr (mnemonic e) = cstr fld.
Proof.
  induction table as [|x table IH]; simpl; [done|].
  destruct (strcmp_eq (mnemonic x) fld) eqn:E.
  - intros [= <-]. exists x. split; [left|]. split; [done|]. by apply bytes_eqb_eq.
  - intros H. destruct (IH H) as (e & He & Hb). exists e. split; [by right | done].
Qed.

Lemma compFieldLT_keys : NoDup (keys compFieldLT) /\ (NUL ∉ concat (keys compFieldLT)).
Proof. split; apply (bool_decide_unpack _); vm_compute; exact I. Qed.
Lemma destFieldLT_keys : NoDup (keys destFieldLT) /\ (NUL ∉ concat (keys destFieldLT)).
Proof. split; apply (bool_decide_unpack _); vm_compute; exact I. Qed.
Lemma jumpFieldLT_keys : NoDup (keys jumpFieldLT) /\ (NUL ∉ concat (keys jumpFieldLT)).
Proof. split; apply (bool_decide_unpack _); vm_compute; exact I. Qed.

Lemma compFieldLT_width : Forall (fun e => length (binary e) = COMP_FIELD_LEN) compFieldLT.
Proof. apply (bool_decide_unpack _); vm_compute; exact I. Qed.
Lemma destFieldLT_width : Forall (fun e => length (binary e) = DEST_FIELD_LEN) destFieldLT.
Proof. apply (bool_decide_unpack _); vm_compute; exact I. Qed.
Lemma jumpFieldLT_width : Forall (fun e => length (binary e) = JUMP_FIELD_LEN) jumpFieldLT.
Proof. apply (bool_decide_unpack _); vm_compute; exact I. Qed.

Lemma strcpy_bits (pre src : list ascii) (n : nat) :
  n = length pre -> (n + length src < 17)%nat ->
  strcpy "bitFields" 17 (pre ++ replicate (17 - n) NUL) n src
  = Ok ((pre ++ src) ++ replicate (17 - (n + length src)) NUL).
Proof.
  intros -> H. unfold strcpy.
  destruct (Nat.leb_spec (length pre + length src + 1) 17); [|lia].
  f_equal. rewrite take_app_length, <- app_assoc. f_equal. f_equal.
  rewrite drop_app_ge by lia. rewrite drop_replicate.
  replace (17 - (length pre + length src))%nat
    with (S (17 - length pre - (length pre + length src + 1 - length pre))) by lia.
  reflexivity.
Qed.

Lemma lineCommand_C s c d j :
  c ∈ compFieldLT -> d ∈ destFieldLT -> j ∈ jumpFieldLT ->
  nth 0 (addFldString (gInsFields s)) NUL = INVALID_VALUE ->
  cstr (cmpFldString (gInsFields s)) = mnemonic c ->
  cstr (destFldString (gInsFields s)) = mnemonic d ->
  cstr (jmpFldString (gInsFields s)) = mnemonic j ->
  lineCommand s = Ok (SYSTEM_SUCCESS, set_bitFields s (cWord c d j ++ [NUL])).
Proof.
  intros Hc Hd Hj Hadd Hcf Hdf Hjf. unfold lineCommand. rewrite Hadd.
  change (negb (INVALID_VALUE =? INVALID_VALUE)%char) with false. cbv iota.
  rewrite (lookupLT_In _ c), (lookupLT_In _ d), (lookupLT_In _ j);
    try done; try apply compFieldLT_keys; try apply destFieldLT_keys; try apply jumpFieldLT_keys.
  pose proof (proj1 (Forall_forall _ _) compFieldLT_width c Hc) as Lc.
  pose proof (proj1 (Forall_forall _ _) destFieldLT_width d Hd) as Ld.
  pose proof (proj1 (Forall_forall _ _) jumpFieldLT_width j Hj) as Lj.
  unfold COMP_FIELD_LEN, DEST_FIELD_LEN, JUMP_FIELD_LEN, C_INST_PAD_LEN in *.
  change (<[2%nat:="1"%char]> (<[1%nat:="1"%char]> (<[0%nat:="1"%char]> (replicate 17 NUL))))
    with ($"111" ++ replicate (17 - 3) NUL).
  rewrite strcpy_bits by (simpl; lia). rewrite bind_Ok, Lc.
  rewrite strcpy_bits by (rewrite ?length_app; simpl; lia). rewrite bind_Ok, Ld.
  rewrite strcpy_bits by (rewrite ?length_app; simpl; lia). rewrite bind_Ok, Lj.
  rewrite store_Ok by lia. rewrite bind_Ok.
  do 3 f_equal. unfold cWord. rewrite <- !app_assoc.
  rewrite !app_assoc. rewrite insert_app_r_alt by (rewrite !length_app; simpl; lia).
  rewrite !length_app. simpl length. rewrite Lc, Ld, Lj. reflexivity.
Qed.

(** ** Address-form lines are never rejected *)

Lemma store_inv w size a i c a' :
  store w size a i c = Ok a' -> (i < size)%nat /\ a' = <[i := c]> a.
Proof.
  unfold store. destruct (Nat.ltb_spec i size); [|done]. by intros [= <-].
Qed.

Lemma nth_insert_ne (a : list ascii) i k c : i <> k -> nth k (<[i := c]> a) NUL = nth k a NUL.
Proof.
  intros H. rewrite !nth_lookup. by rewrite list_lookup_insert_ne.
Qed.

Lemma nth_insert_eq (a : list ascii) i c : (i < length a)%nat -> nth i (<[i := c]> a) NUL = c.
Proof.
  intros H. rewrite nth_lookup. by rewrite list_lookup_insert_eq.
Qed.

Lemma copyUntil_keeps stop w size ptr i a p j a' :
  copyUntil stop w size ptr i a = Ok (p, j, a') ->
  (i <= j)%nat /\ length a' = length a /\ forall k, (k < i)%nat -> nth k a' NUL = nth k a NUL.
Proof.
  revert i a. induction ptr as [|c ptr IH]; intros i a; simpl; [done|].
  destruct (stop c).
  - intros [= <- <- <-]. done.
  - destruct (store w size a i c) as [a1|] eqn:E; [|done]. rewrite bind_Ok.
    apply store_inv in E as [Hi ->]. intros H. apply IH in H as (Hj & Hl & Hk).
    rewrite length_insert in Hl. split; [lia|]. split; [done|].
    intros k Hki. rewrite Hk by lia. apply nth_insert_ne. lia.
Qed.

Lemma reverseCopy_keeps str index t a t' a' :
  reverseCopy str index t a = Ok (t', a') ->
  (t <= t')%nat /\ length a' = length a /\ forall k, (k < t)%nat -> nth k a' NUL = nth k a NUL.
Proof.
  revert t a. induction index as [|index IH]; intros t a; simpl.
  - intros [= <- <-]. done.
  - destruct (store "addFldString" 10 a t (nth index str NUL)) as [a1|] eqn:E; [|done].
    rewrite bind_Ok. apply store_inv in E as [Hi ->]. intros H. apply IH in H as (Hj & Hl & Hk).
    rewrite length_insert in Hl. split; [lia|]. split; [done|].
    intros k Hki. rewrite Hk by lia. apply nth_insert_ne. lia.
Qed.

Lemma code_chr z : 0 <= z < 256 -> code (chr z) = z.
Proof.
  intros H. unfold code, chr. rewrite N_ascii_embedding by lia. lia.
Qed.

Lemma digit_chr z : is_digit (chr (z mod 10 + code "0")) = true.
Proof.
  pose proof (Z.mod_pos_bound z 10 ltac:(lia)) as H.
  unfold is_digit. change (code "0") with 48. change (code "9") with 57.
  rewrite code_chr by lia. apply andb_true_iff. split; apply Z.leb_le; lia.
Qed.

Lemma digitsLoop_digits room v str digits :
  Forall (fun c => is_digit c = true) str ->
  digitsLoop room v str = Ok digits -> Forall (fun c => is_digit c = true) digits.
Proof.
  revert v str. induction room as [|room IH]; intros v str Hstr; simpl.
  - destruct (v =? 0); [|done]. by intros [= <-].
  - destruct (v =? 0); [by intros [= <-]|].
    apply IH. apply Forall_app. split; [done|]. constructor; [apply digit_chr | constructor].
Qed.

Lemma is_digit_valid c : is_digit c = true -> c <> INVALID_VALUE.
Proof. intros H ->. discriminate. Qed.

Lemma writeAddress_first v s s' :
  length (addFldString (gInsFields s)) = 10%nat ->
  writeAddress v s = Ok s' ->
  nth 0 (addFldString (gInsFields s')) NUL <> INVALID_VALUE
  /\ gSymbolTable s' = gSymbolTable s /\ currMemory s' = currMemory s.
Proof.
  intros Hlen. unfold writeAddress.
  destruct (digitsLoop LINEBUFFER_SIZE v []) as [digits|] eqn:Ed; [|done]. rewrite bind_Ok.
  apply digitsLoop_digits in Ed; [|constructor].
  destruct (reverseCopy digits (length digits) 0 (addFldString (gInsFields s))) as [[t a]|] eqn:Er; [|done].
  rewrite bind_Ok. destruct (store "addFldString" 10 a t NUL) as [a'|] eqn:Es; [|done].
  rewrite bind_Ok. intros [= <-]. split; [|done]. simpl.
  apply store_inv in Es as [Ht ->].
  destruct (length digits) as [|n] eqn:En.
  - simpl in Er. injection Er as <- <-. rewrite nth_insert_eq by lia. done.
  - cbn [reverseCopy] in Er. rewrite store_Ok, bind_Ok in Er by lia.
    apply reverseCopy_keeps in Er as (Ht1 & Hl & Hk).
    rewrite nth_insert_ne by lia. rewrite Hk by lia. rewrite nth_insert_eq by lia.
    apply is_digit_valid. rewrite Forall_forall in Ed. apply Ed.
    apply list_elem_of_In, nth_In. lia.
Qed.

Lemma resolveSymbol_fields str s v s' :
  resolveSymbol str s = Ok (v, s') -> gInsFields s' = gInsFields s.
Proof.
  unfold resolveSymbol. destruct (findEntry str (gSymbolTable s)); [by intros [= <- <-]|].
  destruct (_ <? _); [|done]. by intros [= <- <-].
Qed.

Lemma searchSymbolEntry_first line s s' :
  length (addFldString (gInsFields s)) = 10%nat ->
  searchSymbolEntry line s = Ok s' ->
  nth 0 (addFldString (gInsFields s')) NUL <> INVALID_VALUE.
Proof.
  intros Hlen. unfold searchSymbolEntry.
  destruct (_ <=? _)%nat; [done|]. destruct (_ <? _)%nat; [done|].
  destruct (resolveSymbol _ s) as [[v s1]|] eqn:E; [|done]. rewrite bind_Ok.
  apply resolveSymbol_fields in E. intros H. apply writeAddress_first in H; [tauto|].
  by rewrite E.
Qed.

Lemma parseAOperand_first ptr s s' :
  fresh s -> parseAOperand ptr s = Ok s' ->
  nth 0 (addFldString (gInsFields s')) NUL <> INVALID_VALUE.
Proof.
  intros Hs. unfold parseAOperand. destruct ptr as [|c ptr]; [done|].
  change (code "9") with 57.
  destruct (Z.gtb_spec (code c) 57) as [Hc|Hc].
  - destruct (read_cstr "lineBuffer" (c :: ptr)) as [str|]; [|done]. rewrite bind_Ok.
    apply searchSymbolEntry_first. by rewrite Hs.
  - rewrite Hs. cbn [addFldString varInit_fields].
    destruct (copyUntil _ _ _ _ _ _) as [[[p index] add]|] eqn:E; [|done]. rewrite bind_Ok.
    destruct (store "addFldString" 10 add index NUL) as [add'|] eqn:Es; [|done]. rewrite bind_Ok.
    intros [= <-]. simpl. apply store_inv in Es as [Hi ->].
    cbn [copyUntil] in E. unfold is_char at 1 in E.
    destruct (Ascii.eqb_spec c CR) as [->|Hcr].
    + injection E as <- <- <-. done.
    + rewrite store_Ok, bind_Ok in E by lia. apply copyUntil_keeps in E as (Hj & Hl & Hk).
      rewrite nth_insert_ne by lia. rewrite Hk by lia. simpl.
      intros ->. revert Hc. vm_compute. congruence.
Qed.

Lemma lineCommand_address_shape s st s' :
  nth 0 (addFldString (gInsFields s)) NUL <> INVALID_VALUE ->
  lineCommand s = Ok (st, s') ->
  st = SYSTEM_SUCCESS /\ exists addr, s' = set_bitFields s (binary16 addr ++ [NUL]).
Proof.
  intros Hn. unfold lineCommand.
  destruct (Ascii.eqb_spec (nth 0 (addFldString (gInsFields s)) NUL) INVALID_VALUE); [done|].
  simpl negb. cbv iota.
  destruct (read_cstr _ _) as [chars|]; [|done]. rewrite bind_Ok.
  destruct (addrLoop _ _ _) as [addr|]; [|done]. rewrite bind_Ok.
  rewrite bitLoop_16. rewrite store_Ok by (unfold BITFIELD_MAX; lia). rewrite bind_Ok.
  intros [= <- <-]. split; [done|]. exists addr. reflexivity.
Qed.

Lemma binary16_head_one n : 32768 <= n <= 65535 -> head (binary16 n) = Some "1"%char.
Proof.
  intros H. unfold binary16. cbn [seq rev app map head]. unfold bitOf.
  assert (Z.testbit n (Z.of_nat 15) = true) as ->; [|done].
  apply Z.testbit_true; [lia|]. change (2 ^ Z.of_nat 15) with 32768.
  replace (n / 32768) with 1; [done|].
  apply Z.div_unique with (r := n - 32768); lia.
Qed.

Lemma lineParser_address_line chunk s st s' :
  fresh s -> head chunk = Some "@"%char ->
  lineParser (lineBuffer chunk) s = Ok (st, s') ->
  st = SYSTEM_SUCCESS /\
  exists addr, forall out, lineWriter s' out = Ok (out ++ binary16 addr ++ [LF]).
Proof.
  intros Hs Hc. destruct chunk as [|c chunk]; [done|]. injection Hc as ->.
  unfold lineBuffer. cbn [app].
  destruct (chunk ++ replicate (LINEBUFFER_SIZE - length ("@"%char :: chunk)) NUL) as [|c1 rest] eqn:E;
    [done|].
  rewrite lineParser_at. unfold parseA.
  destruct (parseAOperand (c1 :: rest) s) as [s1|] eqn:Ep; [|done]. rewrite bind_Ok.
  apply parseAOperand_first in Ep; [|done].
  intros H. apply lineCommand_address_shape in H as [-> [addr ->]]; [|done].
  split; [done|]. exists addr. intros out. apply lineWriter_word, binary16_no_nul.
Qed.

Ltac inv_bind H :=
  match type of H with
  | (?m ≫= _) = Ok _ =>
      let E := fresh "E" in destruct m eqn:E; [rewrite bind_Ok in H | discriminate H]
  end.

(** ** The symbol table only grows *)

Lemma findEntry_app str t ext v :
  findEntry str t = Some v -> findEntry str (t ++ ext) = Some v.
Proof.
  induction t as [|e t IH]; simpl; [done|]. destruct (strcmp_eq str (symbol e)); auto.
Qed.

Lemma findEntry_app_None str t ext :
  findEntry str t = None -> findEntry str (t ++ ext) = findEntry str ext.
Proof.
  induction t as [|e t IH]; simpl; [done|]. destruct (strcmp_eq str (symbol e)); [done | auto].
Qed.

Lemma strcmp_eq_true a b : strcmp_eq a b = true <-> cstr a = cstr b.
Proof. apply bytes_eqb_eq. Qed.

Lemma findEntry_first str t v :
  findEntry str t = Some v <->
  exists i e, t !! i = Some e /\ cstr (symbol e) = cstr str /\ value e = v /\
    forall j e', (j < i)%nat -> t !! j = Some e' -> cstr (symbol e') <> cstr str.
Proof.
  induction t as [|x t IH]; simpl.
  - split; [done|]. by intros (i & e & H & _).
  - destruct (strcmp_eq str (symbol x)) eqn:E.
    + apply strcmp_eq_true in E. split.
      * intros [= <-]. exists 0%nat, x. repeat split; [done|]. intros j e' Hj. lia.
      * intros (i & e & Hi & He & Hv & Hfirst). destruct i as [|i].
        -- simpl in Hi. by injection Hi as <-; subst.
        -- exfalso. apply (Hfirst 0%nat x); [lia|done|done].
    + assert (cstr (symbol x) <> cstr str) as Hx.
      { intros Heq. symmetry in Heq. apply strcmp_eq_true in Heq. congruence. }
      rewrite IH. split.
      * intros (i & e & Hi & He & Hv & Hfirst). exists (S i), e. repeat split; try done.
        intros [|j] e' Hj Hl; simpl in Hl; [by injection Hl as <-|]. apply (Hfirst j); [lia|done].
      * intros (i & e & Hi & He & Hv & Hfirst). destruct i as [|i].
        -- simpl in Hi. injection Hi as <-. done.
        -- exists i, e. repeat split; try done. intros j e' Hj Hl. apply (Hfirst (S j)); [lia|done].
Qed.

Lemma extends_refl s : extends s s.
Proof. exists []. by rewrite app_nil_r. Qed.

Lemma extends_trans s1 s2 s3 : extends s1 s2 -> extends s2 s3 -> extends s1 s3.
Proof. intros [e1 H1] [e2 H2]. exists (e1 ++ e2). by rewrite H2, H1, app_assoc. Qed.

Lemma lineCommand_table s st s' :
  lineCommand s = Ok (st, s') ->
  gSymbolTable s' = gSymbolTable s /\ currMemory s' = currMemory s.
Proof.
  unfold lineCommand. destruct (negb _).
  - intros H. repeat inv_bind H. by injection H as <- <-.
  - destruct (lookupLT _ compFieldLT); [|by intros [= <- <-]].
    intros H. inv_bind H. destruct (lookupLT _ destFieldLT); [|by injection H as <- <-].
    inv_bind H. destruct (lookupLT _ jumpFieldLT); [|by injection H as <- <-].
    repeat inv_bind H. by injection H as <- <-.
Qed.

Lemma resolveSymbol_extends str s v s' :
  resolveSymbol str s = Ok (v, s') -> extends s s'.
Proof.
  unfold resolveSymbol. destruct (findEntry str (gSymbolTable s)).
  - intros [= <- <-]. apply extends_refl.
  - destruct (_ <? _); [|done]. intros [= <- <-]. by eexists.
Qed.

Lemma writeAddress_table v s s' :
  writeAddress v s = Ok s' -> gSymbolTable s' = gSymbolTable s /\ currMemory s' = currMemory s.
Proof.
  unfold writeAddress. intros H. inv_bind H. inv_bind H. destruct a0 as [t a0].
  inv_bind H. by injection H as <-.
Qed.

Lemma searchSymbolEntry_extends line s s' :
  searchSymbolEntry line s = Ok s' -> extends s s'.
Proof.
  unfold searchSymbolEntry. destruct (_ <=? _)%nat; [done|]. destruct (_ <? _)%nat; [done|].
  intros H. inv_bind H. destruct a as [v s1]. apply resolveSymbol_extends in E.
  apply writeAddress_table in H as [Ht _]. destruct E as [ext E]. exists ext. by rewrite Ht.
Qed.

Lemma parseAOperand_extends ptr s s' : parseAOperand ptr s = Ok s' -> extends s s'.
Proof.
  unfold parseAOperand. destruct ptr as [|c ptr]; [done|]. destruct (_ >? _).
  - intros H. inv_bind H. by apply searchSymbolEntry_extends in H.
  - intros H. inv_bind H. destruct a as [[p i] a]. inv_bind H. injection H as <-.
    exists []. simpl. by rewrite app_nil_r.
Qed.

Lemma parseC_table line s st s' :
  parseC line s = Ok (st, s') -> gSymbolTable s' = gSymbolTable s /\ currMemory s' = currMemory s.
Proof.
  unfold parseC. intros H. inv_bind H. destruct a as [[[st0 p] i] d].
  inv_bind H. destruct a as [p1 d1]. inv_bind H. destruct a as [[p2 i2] c2].
  inv_bind H. inv_bind H. by apply lineCommand_table in H.
Qed.

Lemma lineParser_extends line s st s' : lineParser line s = Ok (st, s') -> extends s s'.
Proof.
  unfold lineParser. destruct line as [|c0 [|c1 line]]; [done|done|].
  destruct (_ && _); [intros [= <- <-]; apply extends_refl|].
  destruct (c0 =? CR)%char; [intros [= <- <-]; apply extends_refl|].
  destruct (c0 =? "@")%char.
  - unfold parseA. intros H. inv_bind H. apply parseAOperand_extends in E.
    apply lineCommand_table in H as [Ht _]. destruct E as [ext E]. exists ext. by rewrite Ht.
  - destruct (c0 =? "(")%char.
    + unfold parseLabel. intros H. inv_bind H. destruct a as [[p i] str].
      repeat inv_bind H. injection H as <- <-. by apply searchSymbolEntry_extends in E3.
    + intros H. apply parseC_table in H as [Ht _]. exists []. by rewrite app_nil_r.
Qed.

Lemma firstPassLine_extends chunk n s n' s' :
  firstPassLine chunk n s = Ok (n', s') -> extends s s'.
Proof.
  unfold firstPassLine. destruct (lineBuffer chunk) as [|c0 [|c1 line]]; [done|done|].
  destruct (_ && _); [intros [= <- <-]; apply extends_refl|].
  destruct (c0 =? CR)%char; [intros [= <- <-]; apply extends_refl|].
  destruct (c0 =? "(")%char; [|intros [= <- <-]; apply extends_refl].
  destruct (_ <? _); [|done]. intros H. inv_bind H. destruct a as [[p i] a].
  inv_bind H. injection H as <- <-. by eexists.
Qed.

Lemma step_extends s s' : step s s' -> extends s s'.
Proof.
  intros [chunk n n' s1 s2 H | chunk s1 st s2 H].
  - by apply firstPassLine_extends in H.
  - apply lineParser_extends in H. exact H.
Qed.

Lemma steps_extend s s' : rtc step s s' -> extends s s'.
Proof.
  induction 1 as [|s1 s2 s3 H _ IH]; [apply extends_refl|].
  eapply extends_trans; [by apply step_extends | done].
Qed.

Lemma firstPassLoop_steps lines n s s' : firstPassLoop lines n s = Ok s' -> rtc step s s'.
Proof.
  revert n s. induction lines as [|chunk lines IH]; intros n s; simpl.
  - intros [= <-]. constructor.
  - intros H. inv_bind H. destruct a as [n1 s1]. econstructor; [|by eapply IH].
    by econstructor 1.
Qed.

Lemma secondPass_steps lines s out s' out' :
  secondPass lines s out = Ok (s', out') -> rtc step s s'.
Proof.
  revert s out. induction lines as [|chunk lines IH]; intros s out; simpl.
  - intros [= <- <-]. constructor.
  - intros H. inv_bind H. destruct a as [st s1]. inv_bind H. econstructor; [|by eapply IH].
    by econstructor 2.
Qed.

(** ** The first pass *)

Lemma set_table_id s : set_table s (gSymbolTable s) = s.
Proof. by destruct s. Qed.

Lemma lineBuffer_cons2 c0 c1 chunk :
  exists rest, lineBuffer (c0 :: c1 :: chunk) = c0 :: c1 :: rest.
Proof. unfold lineBuffer. simpl. eauto. Qed.

Lemma wrap32_small z : 0 <= z < 2 ^ 32 -> wrap32 z = z.
Proof. intros H. unfold wrap32. by apply Z.mod_small. Qed.

Lemma firstPassLine_comment text n s :
  firstPassLine (render (Comment text)) n s = Ok (n, s).
Proof. reflexivity. Qed.

Lemma firstPassLine_blank n s : firstPassLine (render Blank) n s = Ok (n, s).
Proof. reflexivity. Qed.

Lemma firstPassLine_instruction text n s :
  instructionStart text ->
  firstPassLine (render (Instruction text)) n s = Ok (wrap32 (n + 1), s).
Proof.
  destruct text as [|c0 text]; [done|]. intros (Hcr & Hpar & Hcom).
  unfold firstPassLine, render.
  assert (exists c1 rest, lineBuffer ((c0 :: text) ++ [CR; LF]) = c0 :: c1 :: rest
                          /\ head (text ++ [CR; LF]) = Some c1) as (c1 & rest & -> & Hc1).
  { unfold lineBuffer. destruct text as [|c1 text]; simpl; eauto. }
  destruct (Ascii.eqb_spec c0 "/") as [->|H0]; simpl andb.
  - destruct (Ascii.eqb_spec c1 "/") as [->|H1]; [|done].
    exfalso. apply Hcom. split; [done|]. destruct text; simpl in *; [discriminate Hc1 | done].
  - destruct (Ascii.eqb_spec c0 CR); [done|]. destruct (Ascii.eqb_spec c0 "("); done.
Qed.

Lemma firstPassLine_label name n s :
  (length (render (Label name)) < LINEBUFFER_SIZE)%nat -> ")"%char ∉ name ->
  Z.of_nat (symbolTableTail s) < SYMBOLTABLE_SIZE ->
  firstPassLine (render (Label name)) n s
  = Ok (n, set_table s (gSymbolTable s ++ [mkSymbol (symbol_array name) n])).
Proof.
  intros Hlen Hpar Hcap. unfold firstPassLine, render in *.
  rewrite !length_app in Hlen. simpl in Hlen. unfold LINEBUFFER_SIZE in Hlen.
  change ($"(" ++ name ++ $")" ++ [CR; LF]) with ("("%char :: name ++ ")"%char :: [CR; LF]).
  rewrite lineBuffer_cons by (rewrite length_app; simpl; unfold LINEBUFFER_SIZE; lia).
  rewrite <- app_assoc. cbn [app].
  set (tl := replicate _ NUL).
  assert (exists c1 rest, name ++ ")"%char :: CR :: LF :: tl = c1 :: rest) as (c1 & rest & Hx)
    by (destruct name; simpl; eauto).
  rewrite Hx. change (("(" =? "/")%char && (c1 =? "/")%char) with false.
  change ("(" =? CR)%char with false. change ("(" =? "(")%char with true. cbv iota.
  destruct (Z.ltb_spec (Z.of_nat (symbolTableTail s)) SYMBOLTABLE_SIZE); [|lia].
  cbn [drop]. rewrite <- Hx.
  rewrite copyUntil_from0; first last.
  - rewrite length_replicate. lia.
  - unfold LINEBUFFER_SIZE. lia.
  - reflexivity.
  - apply Forall_forall. intros c Hc. unfold is_char.
    destruct (Ascii.eqb_spec c ")") as [->|]; done.
  - rewrite bind_Ok. cbv beta iota. rewrite store_Ok by (unfold LINEBUFFER_SIZE; lia).
    rewrite bind_Ok. do 4 f_equal. unfold symbol_array.
    rewrite drop_replicate. rewrite insert_app_r_alt by lia.
    replace (S (length name) - length name)%nat with 1%nat by lia.
    f_equal. unfold LINEBUFFER_SIZE.
    destruct (100 - length name)%nat as [|[|k]] eqn:Ek; [lia|lia|]. reflexivity.
Qed.

Lemma firstPassLoop_render ls n s :
  Forall wellFormed ls ->
  Z.of_nat (length (gSymbolTable s)) + Z.of_nat (length ls) <= SYMBOLTABLE_SIZE ->
  0 <= n -> n + Z.of_nat (length ls) < 2 ^ 32 ->
  firstPassLoop (map render ls) n s = Ok (set_table s (gSymbolTable s ++ labelsFrom ls n)).
Proof.
  intros Hwf. revert n s. induction Hwf as [|l ls [Hlen Hl] Hwf IH]; intros n s Hcap Hn Hmax.
  - simpl. by rewrite app_nil_r, set_table_id.
  - cbn [map firstPassLoop]. simpl length in *. destruct l as [text| |name|text].
    + rewrite firstPassLine_comment, bind_Ok. cbn [labelsFrom]. apply IH; lia.
    + rewrite firstPassLine_blank, bind_Ok. cbn [labelsFrom]. apply IH; lia.
    + destruct Hl as [Hpar Hnul].
      rewrite firstPassLine_label by (try done; unfold symbolTableTail; lia).
      rewrite bind_Ok. cbn [labelsFrom]. rewrite IH; simpl; rewrite ?length_app; simpl; try lia.
      by rewrite <- app_assoc.
    + rewrite firstPassLine_instruction by done. rewrite bind_Ok, wrap32_small by lia.
      cbn [labelsFrom]. apply IH; lia.
Qed.

Lemma labelsFrom_lookup ls n i name :
  ls !! i = Some (Label name) ->
  mkSymbol (symbol_array name) (n + instructionCount (take i ls)) ∈ labelsFrom ls n.
Proof.
  revert n i. induction ls as [|l ls IH]; intros n i; [done|].
  destruct i as [|i]; simpl.
  - intros [= ->]. rewrite Z.add_0_r. left.
  - intros H. specialize (IH n i H) as IHn. destruct l; try done.
    + by right.
    + specialize (IH (n + 1) i H). by replace (n + (1 + instructionCount (take i ls)))
        with (n + 1 + instructionCount (take i ls)) by lia.
Qed.

Lemma cstr_symbol_array name :
  NUL ∉ name -> (length name < LINEBUFFER_SIZE)%nat -> cstr (symbol_array name) = name.
Proof.
  intros Hn Hl. unfold symbol_array.
  destruct (LINEBUFFER_SIZE - length name)%nat as [|k] eqn:E; [lia|].
  simpl. by apply cstr_app_nul.
Qed.


(** ** Writing and reading back a decimal address *)

Lemma decimalValue_snoc ds c : decimalValue (ds ++ [c]) = 10 * decimalValue ds + digitOf c.
Proof. unfold decimalValue. by rewrite fold_left_app. Qed.

Lemma digitsLoop_spec k : forall room v str,
  (k <= room)%nat -> 0 <= v < 10 ^ Z.of_nat k ->
  exists d, digitsLoop room v str = Ok (str ++ d) /\
            Forall (fun c => is_digit c = true) d /\
            decimalValue (rev d) = v /\ (length d <= k)%nat.
Proof.
  induction k as [|k IH]; intros room v str Hk Hv.
  - assert (v = 0) as -> by (simpl in Hv; lia).
    exists []. destruct room; simpl; rewrite app_nil_r; repeat split; try done; constructor.
  - destruct (Z.eqb_spec v 0) as [->|Hne].
    + exists []. destruct room; simpl; rewrite app_nil_r; repeat split; try done; try constructor.
      all: simpl; lia.
    + destruct room as [|room]; [lia|]. cbn [digitsLoop].
      destruct (Z.eqb_spec v 0); [done|].
      assert (0 <= v / 10 < 10 ^ Z.of_nat k) as Hq.
      { replace (Z.of_nat (S k)) with (Z.succ (Z.of_nat k)) in Hv by lia.
        rewrite Z.pow_succ_r in Hv by lia. split; [apply Z.div_pos; lia|].
        apply Z.div_lt_upper_bound; lia. }
      destruct (IH room (v / 10) (str ++ [chr (v mod 10 + code "0")]) ltac:(lia) Hq)
        as (d & Hd & Hdig & Hval & Hlen).
      exists (chr (v mod 10 + code "0") :: d). rewrite Hd, <- app_assoc. split; [done|].
      split; [constructor; [apply digit_chr | done]|]. split; [|simpl; lia].
      simpl rev. rewrite decimalValue_snoc, Hval. unfold digitOf.
      pose proof (Z.mod_pos_bound v 10 ltac:(lia)).
      change (code "0") with 48. rewrite code_chr by lia.
      pose proof (Z.div_mod v 10 ltac:(lia)). lia.
Qed.

Lemma insert_overwrite0 cs c (a : list ascii) :
  (length cs < length a)%nat -> <[length cs := c]> (overwrite 0 cs a) = overwrite 0 (cs ++ [c]) a.
Proof. intros H. by apply (insert_overwrite 0). Qed.

Lemma reverseCopy_spec str a : forall index pre,
  (index <= length str)%nat -> (length pre + index <= 10)%nat -> (10 <= length a)%nat ->
  reverseCopy str index (length pre) (overwrite 0 pre a)
  = Ok ((length pre + index)%nat, overwrite 0 (pre ++ rev (take index str)) a).
Proof.
  induction index as [|index IH]; intros pre Hi Hp Ha.
  - simpl. by rewrite Nat.add_0_r, app_nil_r.
  - cbn [reverseCopy]. rewrite store_Ok by lia. rewrite bind_Ok.
    rewrite insert_overwrite0 by lia.
    replace (S (length pre)) with (length (pre ++ [nth index str NUL]))
      by (rewrite length_app; simpl; lia).
    rewrite IH by (rewrite ?length_app; simpl; lia).
    rewrite length_app. simpl length. f_equal. f_equal; [lia|].
    f_equal. rewrite <- app_assoc. f_equal.
    destruct (lookup_lt_is_Some_2 str index ltac:(lia)) as [x Hx].
    rewrite (take_S_r _ _ x Hx), rev_app_distr. simpl.
    by rewrite (nth_lookup_Some _ _ _ _ Hx).
Qed.

Lemma writeAddress_spec v s :
  fresh s -> 0 <= v < 10 ^ 9 ->
  exists ds,
    writeAddress v s = Ok (set_addFldString s (ds ++ NUL :: replicate (9 - length ds) INVALID_VALUE))
    /\ Forall (fun c => is_digit c = true) ds /\ decimalValue ds = v /\ (length ds <= 9)%nat.
Proof.
  intros Hs Hv. unfold writeAddress.
  destruct (digitsLoop_spec 9 LINEBUFFER_SIZE v [] ltac:(unfold LINEBUFFER_SIZE; lia) Hv)
    as (d & -> & Hdig & Hval & Hlen).
  rewrite bind_Ok, app_nil_l. rewrite Hs. cbn [addFldString varInit_fields].
  pose proof (reverseCopy_spec d (replicate 10 INVALID_VALUE) (length d) []) as Hr.
  rewrite overwrite_nil in Hr. change (length (@nil ascii)) with 0%nat in Hr.
  rewrite app_nil_l in Hr.
  rewrite Hr by (rewrite ?length_replicate; simpl; lia). clear Hr.
  rewrite bind_Ok. cbv beta iota. rewrite store_Ok by (simpl; lia). rewrite bind_Ok.
  exists (rev d). split; [|split; [by apply Forall_rev | split; [done | by rewrite length_rev]]].
  do 2 f_equal. rewrite take_ge by lia.
  simpl Nat.add. rewrite <- (length_rev d) at 1.
  rewrite insert_overwrite0 by (rewrite length_replicate, length_rev; lia).
  unfold overwrite. rewrite take_0, app_nil_l, <- app_assoc. f_equal. cbn [app Nat.add].
  rewrite drop_replicate, length_app, length_rev. cbn [length].
  f_equal. f_equal. lia.
Qed.

(** ** Lines of the second pass *)

Lemma varInit_fresh s : fresh s -> varInit s = s.
Proof. unfold fresh. destruct s as [t m f]. simpl. by intros ->. Qed.

Lemma varInit_set s add bits :
  varInit (set_bitFields (set_addFldString s add) bits) = varInit s.
Proof. reflexivity. Qed.

Lemma resolveSymbol_fresh str s v s' : fresh s -> resolveSymbol str s = Ok (v, s') -> fresh s'.
Proof. unfold fresh. intros Hs H. apply resolveSymbol_fields in H. congruence. Qed.

Lemma searchSymbolEntry_name name s :
  (length name + 2 < LINEBUFFER_SIZE)%nat ->
  searchSymbolEntry (name ++ [CR; LF]) s
  = '(v, s') ← resolveSymbol name s; writeAddress v s'.
Proof.
  intros H. unfold searchSymbolEntry. rewrite length_app. simpl length.
  destruct (Nat.leb_spec LINEBUFFER_SIZE (length name + 2)); [lia|].
  destruct (Nat.ltb_spec (length name + 2) 2); [lia|].
  replace (length name + 2 - 2)%nat with (length name) by lia.
  by rewrite take_app_length.
Qed.

Lemma lineParser_symbol name s v s1 :
  fresh s -> symbolName name -> resolveSymbol name s = Ok (v, s1) -> 0 <= v <= 65535 ->
  exists s',
    lineParser (lineBuffer (aSymbol name)) s = Ok (SYSTEM_SUCCESS, s') /\
    varInit s' = s1 /\
    forall out, lineWriter s' out = Ok (out ++ binary16 v ++ [LF]).
Proof.
  intros Hs (Hc & Hnul & Hlen) Hr Hv. unfold aSymbol in *. simpl length in Hlen.
  rewrite length_app in Hlen. simpl length in Hlen. unfold LINEBUFFER_SIZE in Hlen.
  rewrite lineBuffer_cons by (rewrite length_app; simpl; unfold LINEBUFFER_SIZE; lia).
  rewrite length_app. simpl length. unfold LINEBUFFER_SIZE.
  replace (100 - 1 - (length name + 2))%nat with (S (96 - length name)) by lia.
  cbn [replicate]. destruct name as [|c name']; [done|]. set (name := c :: name') in *.
  change ((name ++ [CR; LF]) ++ NUL :: replicate (96 - length name) NUL)
    with (c :: (name' ++ [CR; LF]) ++ NUL :: replicate (96 - length name) NUL).
  rewrite lineParser_at.
  change (c :: (name' ++ [CR; LF]) ++ NUL :: replicate (96 - length name) NUL)
    with ((name ++ [CR; LF]) ++ NUL :: replicate (96 - length name) NUL).
  unfold parseA, parseAOperand.
  change ((name ++ [CR; LF]) ++ NUL :: replicate (96 - length name) NUL)
    with (c :: (name' ++ [CR; LF]) ++ NUL :: replicate (96 - length name) NUL) at 1.
  cbv iota beta. destruct (Z.gtb_spec (code c) (code "9")) as [_|Hle]; [|lia].
  change (c :: (name' ++ [CR; LF]) ++ NUL :: replicate (96 - length name) NUL)
    with ((name ++ [CR; LF]) ++ NUL :: replicate (96 - length name) NUL).
  rewrite read_cstr_app; first last.
  { rewrite not_elem_of_app. split; [done|]. intros H.
    apply elem_of_cons in H as [H|H]; [discriminate|].
    apply elem_of_cons in H as [H|H]; [discriminate|]. by apply elem_of_nil in H. }
  rewrite bind_Ok. rewrite searchSymbolEntry_name by (unfold LINEBUFFER_SIZE; lia).
  rewrite Hr, bind_Ok. cbv beta iota.
  pose proof (resolveSymbol_fresh _ _ _ _ Hs Hr) as Hs1.
  destruct (writeAddress_spec v s1 Hs1 ltac:(lia)) as (ds & -> & Hdig & Hval & Hl).
  rewrite bind_Ok.
  erewrite lineCommand_address; [|reflexivity|done|lia|lia].
  eexists. split; [reflexivity|]. split.
  - rewrite varInit_set. by apply varInit_fresh.
  - intros out. rewrite Hval. apply lineWriter_word, binary16_no_nul.
Qed.

Lemma secondPass_symbol name s v s1 rest out :
  fresh s -> symbolName name -> resolveSymbol name s = Ok (v, s1) -> 0 <= v <= 65535 ->
  secondPass (aSymbol name :: rest) s out = secondPass rest s1 (out ++ binary16 v ++ [LF]).
Proof.
  intros Hs Hn Hr Hv.
  destruct (lineParser_symbol name s v s1 Hs Hn Hr Hv) as (s' & Hp & Hi & Hw).
  cbn [secondPass]. rewrite Hp, bind_Ok. cbv beta iota.
  change (SYSTEM_SUCCESS =? SYSTEM_SUCCESS) with true. cbv iota.
  by rewrite Hw, bind_Ok, Hi.
Qed.

Lemma secondPass_literal ds s rest out :
  fresh s -> ds <> [] -> Forall (fun c => is_digit c = true) ds -> (length ds <= 9)%nat ->
  decimalValue ds <= 65535 ->
  secondPass (aLiteral ds :: rest) s out
  = secondPass rest s (out ++ binary16 (decimalValue ds) ++ [LF]).
Proof.
  intros Hs Hne Hds Hlen Hv. cbn [secondPass].
  rewrite lineParser_literal, bind_Ok by done. cbv beta iota.
  change (SYSTEM_SUCCESS =? SYSTEM_SUCCESS) with true. cbv iota.
  rewrite lineWriter_word, bind_Ok by apply binary16_no_nul.
  by rewrite varInit_set, varInit_fresh.
Qed.

(** ** Allocation of variables *)

Lemma firstIndex_in x p q :
  x ∈ p -> firstIndex x (p ++ q) = firstIndex x p /\ (firstIndex x p < length p)%nat.
Proof.
  induction p as [|m p IH]; [by intros H; apply elem_of_nil in H|].
  intros H. simpl. destruct (decide (m = x)) as [->|Hne]; [split; [done|lia]|].
  apply elem_of_cons in H as [->|H]; [done|]. destruct (IH H). split; [congruence|lia].
Qed.

Lemma firstIndex_notin x p q : x ∉ p -> firstIndex x (p ++ x :: q) = length p.
Proof.
  induction p as [|m p IH]; simpl; intros H.
  - by rewrite decide_True.
  - apply not_elem_of_cons in H as [Hne H]. rewrite decide_False by done. by rewrite IH.
Qed.

Lemma resolved_in t p q x : x ∈ p -> resolved t (p ++ q) x = resolved t p x.
Proof.
  intros H. unfold resolved. destruct (findEntry x t); [done|].
  destruct (firstIndex_in x p q H) as [-> Hlt]. by rewrite take_app_le by lia.
Qed.

Lemma resolved_notin t p q x :
  x ∉ p -> isNew t x -> resolved t (p ++ x :: q) x = CURR_MEMORY + Z.of_nat (newCount t p).
Proof.
  intros H Hn. unfold resolved. rewrite Hn, firstIndex_notin by done.
  by rewrite take_app_length.
Qed.

Lemma newCount_snoc_old t p n :
  ¬ isNew t n \/ n ∈ p -> newCount t (p ++ [n]) = newCount t p.
Proof.
  intros H. unfold newCount. apply Permutation_length, NoDup_Permutation;
    [apply NoDup_remove_dups | apply NoDup_remove_dups|].
  intros x. rewrite !elem_of_remove_dups, !list_elem_of_filter, elem_of_app, list_elem_of_singleton.
  split; [|tauto]. intros [Hx [Hin| ->]]; [done|]. destruct H; [done|]. done.
Qed.

Lemma newCount_snoc_new t p n :
  isNew t n -> n ∉ p -> newCount t (p ++ [n]) = S (newCount t p).
Proof.
  intros Hn Hp. unfold newCount.
  change (S (length (remove_dups (filter (isNew t) p))))
    with (length (n :: remove_dups (filter (isNew t) p))).
  apply Permutation_length, NoDup_Permutation; [apply NoDup_remove_dups | |].
  - apply NoDup_cons. split; [|apply NoDup_remove_dups].
    rewrite elem_of_remove_dups, list_elem_of_filter. tauto.
  - intros x. rewrite elem_of_cons, !elem_of_remove_dups, !list_elem_of_filter, elem_of_app,
      list_elem_of_singleton.
    split; [intros [Hx [Hin| ->]]; auto|]. intros [->|[Hx Hin]]; auto.
Qed.

Lemma newCount_le t p : (newCount t p <= length p)%nat.
Proof.
  induction p as [|n p IH] using rev_ind; [done|].
  rewrite length_app. simpl.
  destruct (decide (isNew t n)) as [Hn|Hn]; [destruct (decide (n ∈ p)) as [Hp|Hp]|].
  - rewrite newCount_snoc_old by auto. lia.
  - rewrite newCount_snoc_new by auto. lia.
  - rewrite newCount_snoc_old by auto. lia.
Qed.

Lemma resolved_old t p x v : findEntry x t = Some v -> resolved t p x = v.
Proof. intros H. unfold resolved. by rewrite H. Qed.

Lemma findEntry_value str t v : findEntry str t = Some v -> exists e, e ∈ t /\ value e = v.
Proof.
  induction t as [|e t IH]; simpl; [done|]. destruct (strcmp_eq str (symbol e)).
  - intros [= <-]. exists e. split; [left | done].
  - intros H. destruct (IH H) as (e' & He & Hv). exists e'. split; [by right | done].
Qed.

Lemma findEntry_single x n v :
  NUL ∉ x -> NUL ∉ n -> (length n < LINEBUFFER_SIZE)%nat ->
  findEntry x [mkSymbol (symbol_array n) v] = if decide (x = n) then Some v else None.
Proof.
  intros Hx Hn Hl. simpl. unfold strcmp_eq. rewrite cstr_symbol_array, cstr_id by done.
  destruct (decide (x = n)) as [->|Hne]; [by rewrite bytes_eqb_refl | by rewrite bytes_eqb_neq].
Qed.

Lemma allocated_start s :
  fresh s -> currMemory s = CURR_MEMORY -> allocated (gSymbolTable s) [] s.
Proof.
  intros Hs Hm. split; [done|]. split; [rewrite Hm; unfold newCount; simpl; lia|].
  split; [simpl; lia|]. split.
  - intros x Hx [H|H]; [by apply elem_of_nil in H|].
    unfold isNew in H. destruct (findEntry x (gSymbolTable s)) as [v|] eqn:E; [|done].
    by erewrite resolved_old.
  - intros x _ _ H. exact H.
Qed.

Lemma resolveSymbol_step t0 p s n :
  allocated t0 p s -> symbolName n ->
  Z.of_nat (length t0) + Z.of_nat (length p) < SYMBOLTABLE_SIZE ->
  exists s1, resolveSymbol n s = Ok (resolved t0 (p ++ [n]) n, s1) /\ allocated t0 (p ++ [n]) s1.
Proof.
  intros (Hs & Hm & Hlen & Hold & Hnew) (Hc & Hnul & Hl) Hcap.
  assert (length n < LINEBUFFER_SIZE)%nat as Hln.
  { unfold aSymbol in Hl. simpl in Hl. rewrite length_app in Hl. lia. }
  unfold resolveSymbol.
  destruct (decide (isNew t0 n)) as [Hn|Hn]; [destruct (decide (n ∈ p)) as [Hp|Hp]|].
  - (* allocated earlier *)
    rewrite (Hold n) by auto. exists s. rewrite resolved_in by done. split; [done|].
    split; [done|]. split; [by rewrite newCount_snoc_old by auto|].
    split; [rewrite length_app; simpl; lia|]. split.
    + intros x Hx H. assert (x ∈ p \/ ¬ isNew t0 x) as H'.
      { destruct H as [H|H]; [|auto]. apply elem_of_app in H as [H|H]; [auto|].
        apply list_elem_of_singleton in H as ->. auto. }
      rewrite (Hold x) by done. f_equal. destruct H' as [H'|H'].
      * by rewrite resolved_in.
      * unfold isNew in H'. destruct (findEntry x t0) as [v|] eqn:E; [|done].
        by rewrite !(resolved_old _ _ _ v).
    + intros x Hx H. apply Hnew; [done|]. intros H'. apply H, elem_of_app. auto.
  - (* a new variable *)
    rewrite (Hnew n) by done.
    unfold symbolTableTail.
    destruct (Z.ltb_spec (Z.of_nat (length (gSymbolTable s))) SYMBOLTABLE_SIZE) as [_|?]; [|lia].
    eexists. split.
    { f_equal. f_equal. rewrite Hm. change (p ++ [n]) with (p ++ n :: []).
      by rewrite resolved_notin. }
    pose proof (newCount_le t0 p) as Hle. unfold SYMBOLTABLE_SIZE in *.
    split; [exact Hs|]. cbn [currMemory gSymbolTable]. split.
    { rewrite newCount_snoc_new, Hm by done. unfold CURR_MEMORY.
      rewrite wrap32_small; lia. }
    split; [rewrite !length_app; simpl; lia|]. split.
    + intros x Hx H. destruct (decide (x = n)) as [->|Hne].
      * rewrite findEntry_app_None by (by apply Hnew).
        rewrite findEntry_single, decide_True by done. f_equal.
        change (p ++ [n]) with (p ++ n :: []). rewrite resolved_notin by done. by rewrite Hm.
      * assert (x ∈ p \/ ¬ isNew t0 x) as H'.
        { destruct H as [H|H]; [|auto]. apply elem_of_app in H as [H|H]; [auto|].
          by apply list_elem_of_singleton in H. }
        erewrite findEntry_app by (by apply Hold). f_equal. destruct H' as [H'|H'].
        -- by rewrite resolved_in.
        -- unfold isNew in H'. destruct (findEntry x t0) as [v|] eqn:E; [|done].
           by rewrite !(resolved_old _ _ _ v).
    + intros x Hx H Hxn. apply not_elem_of_app in H as [H1 H2].
      rewrite findEntry_app_None by (by apply Hnew).
      rewrite findEntry_single, decide_False; try done. intros ->. apply H2. left.
  - (* in the table from the start *)
    rewrite (Hold n) by auto. exists s.
    unfold isNew in Hn. destruct (findEntry n t0) as [v|] eqn:E; [|done].
    rewrite !(resolved_old _ _ _ v) by done. split; [done|].
    split; [done|]. split; [rewrite newCount_snoc_old; [done|]; left; unfold isNew; congruence|].
    split; [rewrite length_app; simpl; lia|]. split.
    + intros x Hx H. assert (x ∈ p \/ ¬ isNew t0 x) as H'.
      { destruct H as [H|H]; [|auto]. apply elem_of_app in H as [H|H]; [auto|].
        apply list_elem_of_singleton in H as ->. right. unfold isNew. congruence. }
      rewrite (Hold x) by done. f_equal. destruct H' as [H'|H'].
      * by rewrite resolved_in.
      * unfold isNew in H'. destruct (findEntry x t0) as [v'|] eqn:E'; [|done].
        by rewrite !(resolved_old _ _ _ v').
    + intros x Hx H. apply Hnew; [done|]. intros H'. apply H, elem_of_app. auto.
Qed.

Lemma resolved_bound t0 p x :
  Forall (fun e => 0 <= value e <= 65535) t0 -> x ∈ p ->
  0 <= resolved t0 p x <= 65535 \/ 65520 < Z.of_nat (length p).
Proof.
  intros Ht Hx. unfold resolved. destruct (findEntry x t0) as [v|] eqn:E.
  - left. apply findEntry_value in E as (e & He & <-). by apply (proj1 (Forall_forall _ _) Ht).
  - pose proof (newCount_le t0 (take (firstIndex x p) p)) as Hle.
    destruct (firstIndex_in x p [] Hx) as [_ Hlt].
    rewrite length_take in Hle. unfold CURR_MEMORY.
    destruct (Z.le_gt_cases (Z.of_nat (length p)) 65520); [left; lia | right; lia].
Qed.

Lemma secondPass_symbols t0 r : forall p s out,
  allocated t0 p s -> Forall symbolName r ->
  Forall (fun e => 0 <= value e <= 65535) t0 ->
  Z.of_nat (length t0) + Z.of_nat (length p) + Z.of_nat (length r) <= SYMBOLTABLE_SIZE ->
  Z.of_nat (length p) + Z.of_nat (length r) <= 65520 ->
  exists s',
    secondPass (map aSymbol r) s out
    = Ok (s', out ++ concat (map (fun n => binary16 (resolved t0 (p ++ r) n) ++ [LF]) r))
    /\ allocated t0 (p ++ r) s'.
Proof.
  induction r as [|n r IH]; intros p s out Ha Hr Ht Hcap Hmax.
  - simpl. rewrite !app_nil_r. eauto.
  - apply Forall_cons in Hr as [Hn Hr]. simpl length in *.
    destruct (resolveSymbol_step t0 p s n Ha Hn ltac:(lia)) as (s1 & Hres & Ha1).
    assert (0 <= resolved t0 (p ++ [n]) n <= 65535) as Hv.
    { destruct (resolved_bound t0 (p ++ [n]) n Ht) as [H|H]; [apply elem_of_app; right; left|done|].
      rewrite length_app in H. simpl in H. lia. }
    cbn [map]. rewrite (secondPass_symbol n s _ s1) by (try done; apply Ha).
    destruct (IH (p ++ [n]) s1 (out ++ binary16 (resolved t0 (p ++ [n]) n) ++ [LF]) Ha1 Hr Ht)
      as (s' & Hs' & Ha'); [rewrite length_app; simpl; lia | rewrite length_app; simpl; lia|].
    exists s'. split; [|by rewrite <- app_assoc in Ha'].
    rewrite Hs'. f_equal. f_equal. rewrite <- app_assoc. f_equal. cbn [map concat].
    replace ((p ++ [n]) ++ r) with (p ++ n :: r) by (by rewrite <- app_assoc).
    f_equal. f_equal. f_equal.
    replace (p ++ n :: r) with ((p ++ [n]) ++ r) by (by rewrite <- app_assoc).
    rewrite (resolved_in t0 (p ++ [n]) r n); [done|]. apply elem_of_app. right. left.
Qed.


Lemma instructionCount_nonneg ls : 0 <= instructionCount ls.
Proof. induction ls as [|[] ls IH]; simpl; lia. Qed.

Lemma resolveSymbol_found str s v :
  findEntry str (gSymbolTable s) = Some v -> resolveSymbol str s = Ok (v, s).
Proof. intros H. unfold resolveSymbol. by rewrite H. Qed.

(** ** Reading the file *)

Lemma fgets_app n file : (fgets n file).1 ++ (fgets n file).2 = file.
Proof.
  revert file. induction n as [|n IH]; intros [|c file]; simpl; try done.
  destruct (c =? LF)%char; [done|]. specialize (IH file).
  destruct (fgets n file) as [l r]. simpl in *. by rewrite IH.
Qed.

Lemma fgets_progress n c file : (length (fgets (S n) (c :: file)).2 <= length file)%nat.
Proof.
  simpl. destruct (c =? LF)%char; [done|].
  pose proof (fgets_app n file) as H. destruct (fgets n file) as [l r]. simpl in *.
  rewrite <- H, length_app. lia.
Qed.

Lemma readLines_concat calls file :
  (length file <= calls)%nat -> concat (readLines calls file) = file.
Proof.
  revert file. induction calls as [|calls IH]; intros [|c file] Hlen; simpl in Hlen; try done; [lia|].
  cbn [readLines]. pose proof (fgets_app (LINEBUFFER_SIZE - 1) (c :: file)) as Happ.
  pose proof (fgets_progress 98 c file) as Hp.
  change (S 98) with (LINEBUFFER_SIZE - 1)%nat in Hp.
  destruct (fgets (LINEBUFFER_SIZE - 1) (c :: file)) as [l r]. simpl in *.
  rewrite IH by lia. exact Happ.
Qed.

Lemma fileLines_concat file : concat (fileLines file) = file.
Proof. by apply readLines_concat. Qed.

Lemma fgets_line n body rest :
  LF ∉ body -> (length body < n)%nat -> fgets n (body ++ LF :: rest) = (body ++ [LF], rest).
Proof.
  revert n. induction body as [|c body IH]; intros n Hlf Hlen.
  - destruct n; [simpl in Hlen; lia|]. reflexivity.
  - apply not_elem_of_cons in Hlf as [Hc Hlf]. destruct n; [simpl in Hlen; lia|].
    simpl. destruct (Ascii.eqb_spec c LF); [done|]. rewrite IH; [done|done|simpl in Hlen; lia].
Qed.

Lemma readLines_lines calls (bodies : list (list ascii)) :
  Forall (fun b => (LF ∉ b) /\ (length b + 1 < LINEBUFFER_SIZE)%nat) bodies ->
  (length bodies <= calls)%nat ->
  readLines calls (concat (map (fun b => b ++ [LF]) bodies)) = map (fun b => b ++ [LF]) bodies.
Proof.
  intros H. revert calls. induction H as [|b bodies [Hlf Hlen] H IH]; intros calls Hc.
  - destruct calls; reflexivity.
  - destruct calls as [|calls]; [simpl in Hc; lia|]. cbn [map concat].
    rewrite <- app_assoc. cbn [app].
    assert (exists x r, b ++ LF :: concat (map (fun b => b ++ [LF]) bodies) = x :: r) as (x & r & Hx)
      by (destruct b; simpl; eauto).
    cbn [readLines]. rewrite Hx. rewrite <- Hx.
    rewrite fgets_line by (try done; unfold LINEBUFFER_SIZE in *; lia).
    rewrite IH by (simpl in Hc; lia). done.
Qed.

Lemma fileLines_lines (bodies : list (list ascii)) :
  Forall (fun b => (LF ∉ b) /\ (length b + 1 < LINEBUFFER_SIZE)%nat) bodies ->
  fileLines (concat (map (fun b => b ++ [LF]) bodies)) = map (fun b => b ++ [LF]) bodies.
Proof.
  intros H. apply readLines_lines; [done|].
  induction bodies as [|b bodies IH]; [done|]. apply Forall_cons in H as [_ H].
  cbn [map concat]. rewrite !length_app. simpl. specialize (IH H). lia.
Qed.

(** A source file whose lines hold no line feed of their own and fit the
    line buffer is read line by line. *)
Lemma fileLines_render (ls : list sourceLine) :
  Forall (fun l => (LF ∉ textOf l) /\ (length (render l) < LINEBUFFER_SIZE)%nat) ls ->
  fileLines (concat (map render ls)) = map render ls.
Proof.
  intros H.
  assert (forall l, render l = (textOf l ++ [CR]) ++ [LF]) as Hr.
  { intros []; simpl; rewrite <- ?app_assoc; reflexivity. }
  rewrite (map_ext _ _ Hr). rewrite <- (map_map (fun l => textOf l ++ [CR]) (fun b => b ++ [LF])).
  apply fileLines_lines. apply Forall_map. eapply Forall_impl; [exact H|].
  intros l [Hlf Hlen]. rewrite Hr in Hlen. rewrite !length_app in *. simpl in *.
  split; [|lia]. rewrite not_elem_of_app. split; [done|].
  intros Hin. apply list_elem_of_singleton in Hin. discriminate.
Qed.

(** ** The fields of a C instruction *)

Lemma destLoop_copyUntil ptr i a :
  destLoop ptr i a
  = '(p, j, a') ← copyUntil (is_either "=" ";") "destFldString" 5 ptr i a;
    Ok (match p with
        | c :: _ => if (c =? "=")%char then SYSTEM_SUCCESS else SYSTEM_FAILURE
        | [] => SYSTEM_FAILURE
        end, p, j, a').
Proof.
  revert i a. induction ptr as [|c ptr IH]; intros i a; [done|].
  cbn [destLoop copyUntil]. unfold is_either at 1.
  destruct (Ascii.eqb_spec c "=") as [->|H1]; [done|].
  destruct (Ascii.eqb_spec c ";") as [->|H2]; [done|].
  simpl orb. cbv iota. destruct (store "destFldString" 5 a i c) as [a1|]; [|done].
  rewrite !bind_Ok. apply IH.
Qed.

Lemma plain_not x (ch : ascii) :
  plain x -> ch ∈ [ "="%char; ";"%char; CR; " "%char; NUL ] -> ch ∉ x.
Proof. intros Hx Hch Hin. by apply (proj1 (Forall_forall _ _) Hx ch Hin). Qed.

Lemma plain_stop x (c1 c2 : ascii) :
  plain x -> c1 ∈ [ "="%char; ";"%char; CR; " "%char; NUL ] ->
  c2 ∈ [ "="%char; ";"%char; CR; " "%char; NUL ] ->
  Forall (fun ch => is_either c1 c2 ch = false) x.
Proof.
  intros Hx H1 H2. apply Forall_forall. intros ch Hch. unfold is_either.
  destruct (Ascii.eqb_spec ch c1) as [->|_]; [by apply (plain_not x c1) in Hch|].
  destruct (Ascii.eqb_spec ch c2) as [->|_]; [by apply (plain_not x c2) in Hch|]. done.
Qed.

Ltac stops := repeat first [apply list_elem_of_here | apply list_elem_of_further].

Lemma store_pad5 w x :
  (length x <= 4)%nat ->
  store w 5 (x ++ drop (length x) (replicate 5 NUL)) (length x) NUL = Ok (pad5 x).
Proof.
  intros H. rewrite store_Ok by lia. f_equal. rewrite drop_replicate.
  rewrite insert_app_r_alt, Nat.sub_diag by lia. unfold pad5. f_equal.
  destruct (5 - length x)%nat eqn:E; [lia | reflexivity].
Qed.

Lemma cstr_pad5 x : NUL ∉ x -> (length x <= 4)%nat -> cstr (pad5 x) = x.
Proof.
  intros Hn Hl. unfold pad5. destruct (5 - length x)%nat eqn:E; [lia|].
  simpl. by apply cstr_app_nul.
Qed.

(** After the destination: the operation and the jump. *)
Lemma parseC_rest {X} ptr c j (tl : list ascii) (k : list ascii -> list ascii -> result X) :
  plain c -> plain j -> (length c <= 4)%nat -> (length j <= 4)%nat ->
  ptr = c ++ CR :: tl /\ j = [] \/ ptr = c ++ $";" ++ j ++ CR :: tl ->
  ('(ptr, index, cmp) ← copyUntil (is_either ";" CR) "cmpFldString" 5 ptr 0 (replicate 5 NUL);
   cmp ← store "cmpFldString" 5 cmp index NUL;
   jmp ← match ptr with
         | [] => Undefined (OutOfBounds "lineBuffer")
         | ch :: ptr' =>
             if (ch =? ";")%char then
               '(_, index, jmp) ← copyUntil (is_either CR " ") "jmpFldString" 5 ptr' 0
                                     (replicate 5 NUL);
               store "jmpFldString" 5 jmp index NUL
             else store "jmpFldString" 5 (replicate 5 NUL) 0 NUL
         end;
   k jmp cmp)
  = k (pad5 j) (pad5 c).
Proof.
  intros Hc Hj Lc Lj Hptr.
  destruct Hptr as [[-> ->] | ->].
  - rewrite copyUntil_from0; [|apply (plain_stop c ";" CR); [done|stops|stops]|reflexivity|lia
                              |rewrite length_replicate; lia].
    rewrite bind_Ok. cbv beta iota. rewrite store_pad5 by done. rewrite bind_Ok.
    change (CR =? ";")%char with false. cbv iota.
    change (store "jmpFldString" 5 (replicate 5 NUL) 0 NUL) with (Ok (pad5 [])).
    by rewrite bind_Ok.
  - cbn [app list_ascii_of_string].
    rewrite copyUntil_from0; [|apply (plain_stop c ";" CR); [done|stops|stops]|reflexivity|lia
                              |rewrite length_replicate; lia].
    rewrite bind_Ok. cbv beta iota. rewrite store_pad5 by done. rewrite bind_Ok.
    change (";" =? ";")%char with true. cbv iota.
    rewrite copyUntil_from0; [|apply (plain_stop j CR " "); [done|stops|stops]|reflexivity|lia
                              |rewrite length_replicate; lia].
    rewrite bind_Ok. cbv beta iota. rewrite store_pad5 by done. by rewrite bind_Ok.
Qed.

Lemma lineBuffer_app body tl0 :
  lineBuffer (body ++ tl0)
  = body ++ tl0 ++ replicate (LINEBUFFER_SIZE - length (body ++ tl0)) NUL.
Proof. unfold lineBuffer. by rewrite <- app_assoc. Qed.

Lemma parseC_split d c j chunk s :
  fresh s -> cLine d c j chunk -> plain d -> plain c -> plain j ->
  (length d <= 4)%nat -> (length c <= 4)%nat -> (length j <= 4)%nat ->
  parseC (lineBuffer chunk) s = lineCommand (cState s d c j).
Proof.
  intros Hs Hline Hd Hc Hj Ld Lc Lj. unfold parseC, cState.
  rewrite destLoop_copyUntil. rewrite Hs.
  cbn [destFldString addFldString bitFields cmpFldString jmpFldString varInit_fields].
  change (<[0%nat:=INVALID_VALUE]> (replicate 10 INVALID_VALUE)) with (replicate 10 INVALID_VALUE).
  destruct Hline as [-> | | ->].
  - rewrite lineBuffer_app. cbn [app list_ascii_of_string].
    rewrite copyUntil_from0; [|apply (plain_stop d "=" ";"); [done|stops|stops]|reflexivity|lia
                              |rewrite length_replicate; lia].
    rewrite !bind_Ok. cbv beta iota. change ("=" =? "=")%char with true. cbv iota.
    change (SYSTEM_SUCCESS =? SYSTEM_SUCCESS) with true. cbv iota.
    rewrite store_pad5 by done. rewrite !bind_Ok. cbv beta iota. cbn [drop].
    rewrite <- app_assoc. cbn [app].
    eapply (parseC_rest _ c [] _ (fun jmp cmp => lineCommand (set_fields s
      (mkFields (pad5 d) jmp cmp (replicate 10 INVALID_VALUE) (replicate 17 NUL))))); try done.
    left. split; [|done]. reflexivity.
  - rewrite lineBuffer_app. cbn [app list_ascii_of_string].
    rewrite copyUntil_from0; [|apply (plain_stop d "=" ";"); [done|stops|stops]|reflexivity|lia
                              |rewrite length_replicate; lia].
    rewrite !bind_Ok. cbv beta iota. change ("=" =? "=")%char with true. cbv iota.
    change (SYSTEM_SUCCESS =? SYSTEM_SUCCESS) with true. cbv iota.
    rewrite store_pad5 by done. rewrite !bind_Ok. cbv beta iota. cbn [drop].
    rewrite <- !app_assoc. cbn [app].
    eapply (parseC_rest _ c j _ (fun jmp cmp => lineCommand (set_fields s
      (mkFields (pad5 d) jmp cmp (replicate 10 INVALID_VALUE) (replicate 17 NUL))))); try done.
    right. cbn [app list_ascii_of_string].
    rewrite <- !app_assoc. reflexivity.
  - rewrite lineBuffer_app. cbn [app list_ascii_of_string].
    rewrite copyUntil_from0; [|apply (plain_stop c "=" ";"); [done|stops|stops]|reflexivity|lia
                              |rewrite length_replicate; lia].
    rewrite !bind_Ok. cbv beta iota. change (";" =? "=")%char with false. cbv iota.
    change (SYSTEM_FAILURE =? SYSTEM_SUCCESS) with false. cbv iota.
    rewrite !bind_Ok. cbv beta iota.
    eapply (parseC_rest _ c j _ (fun jmp cmp => lineCommand (set_fields s
      (mkFields (pad5 []) jmp cmp (replicate 10 INVALID_VALUE) (replicate 17 NUL))))); try done.
    right. cbn [app list_ascii_of_string].
    rewrite <- !app_assoc. reflexivity.
Qed.

Lemma lineParser_cStart chunk s :
  cStart chunk -> lineParser (lineBuffer chunk) s = parseC (lineBuffer chunk) s.
Proof.
  destruct chunk as [|c0 [|c1 chunk]]; [done|done|]. intros (H1 & H2 & H3 & H4).
  unfold lineBuffer. cbn [app]. unfold lineParser.
  destruct (Ascii.eqb_spec c0 "/") as [->|]; simpl andb.
  - destruct (Ascii.eqb_spec c1 "/") as [->|]; [by exfalso; apply H4|]. reflexivity.
  - destruct (Ascii.eqb_spec c0 CR); [done|]. destruct (Ascii.eqb_spec c0 "@"); [done|].
    destruct (Ascii.eqb_spec c0 "("); done.
Qed.

Lemma lineCommand_cState_match s d c j ec ed ej :
  NUL ∉ d -> NUL ∉ c -> NUL ∉ j ->
  (length d <= 4)%nat -> (length c <= 4)%nat -> (length j <= 4)%nat ->
  ec ∈ compFieldLT -> ed ∈ destFieldLT -> ej ∈ jumpFieldLT ->
  mnemonic ec = c -> mnemonic ed = d -> mnemonic ej = j ->
  lineCommand (cState s d c j)
  = Ok (SYSTEM_SUCCESS, set_bitFields (cState s d c j) (cWord ec ed ej ++ [NUL])).
Proof.
  intros. apply lineCommand_C; try done; simpl; by rewrite cstr_pad5.
Qed.

Lemma not_elem_of_concat (ls : list (list ascii)) l x : x ∉ concat ls -> l ∈ ls -> x ∉ l.
Proof.
  induction ls as [|l' ls IH]; intros Hx Hl; [by apply elem_of_nil in Hl|].
  simpl in Hx. apply not_elem_of_app in Hx as [H1 H2].
  apply elem_of_cons in Hl as [->|Hl]; [done | by apply IH].
Qed.

Lemma lookupLT_key table fld b :
  NUL ∉ concat (keys table) -> lookupLT fld table = Some b ->
  cstr fld ∈ keys table /\ exists e, e ∈ table /\ b = binary e.
Proof.
  intros Hn H. apply lookupLT_Some in H as (e & He & -> & Hm).
  split; [|eauto]. rewrite <- Hm. rewrite cstr_id.
  - unfold keys. apply list_elem_of_fmap. eauto.
  - apply (not_elem_of_concat (keys table)); [done|].
    unfold keys. apply list_elem_of_fmap. eauto.
Qed.

Lemma lineCommand_cState_reject s d c j :
  NUL ∉ d -> NUL ∉ c -> NUL ∉ j ->
  (length d <= 4)%nat -> (length c <= 4)%nat -> (length j <= 4)%nat ->
  c ∉ keys compFieldLT \/ d ∉ keys destFieldLT \/ j ∉ keys jumpFieldLT ->
  exists bits, lineCommand (cState s d c j)
               = Ok (SYSTEM_FAILURE, set_bitFields (cState s d c j) bits).
Proof.
  intros Hd Hc Hj Ld Lc Lj H. unfold lineCommand.
  cbn [cState set_fields gInsFields addFldString cmpFldString destFldString jmpFldString].
  change (negb (nth 0 (replicate 10 INVALID_VALUE) NUL =? INVALID_VALUE)%char) with false.
  cbv iota. unfold COMP_FIELD_LEN, DEST_FIELD_LEN, JUMP_FIELD_LEN, C_INST_PAD_LEN.
  change (<[2%nat:="1"%char]> (<[1%nat:="1"%char]> (<[0%nat:="1"%char]> (replicate 17 NUL))))
    with ($"111" ++ replicate (17 - 3) NUL).
  destruct (lookupLT (pad5 c) compFieldLT) as [bc|] eqn:Ec; [|eauto].
  apply lookupLT_key in Ec as (Kc & ec & Hec & ->); [|apply compFieldLT_keys].
  pose proof (proj1 (Forall_forall _ _) compFieldLT_width ec Hec) as Wc.
  unfold COMP_FIELD_LEN in Wc.
  rewrite strcpy_bits by (simpl; lia). rewrite bind_Ok, Wc.
  destruct (lookupLT (pad5 d) destFieldLT) as [bd|] eqn:Ed; [|eauto].
  apply lookupLT_key in Ed as (Kd & ed & Hed & ->); [|apply destFieldLT_keys].
  pose proof (proj1 (Forall_forall _ _) destFieldLT_width ed Hed) as Wd.
  unfold DEST_FIELD_LEN in Wd.
  rewrite strcpy_bits by (rewrite ?length_app; simpl; lia). rewrite bind_Ok, Wd.
  destruct (lookupLT (pad5 j) jumpFieldLT) as [bj|] eqn:Ej; [|eauto].
  apply lookupLT_key in Ej as (Kj & ej & Hej & ->); [|apply jumpFieldLT_keys].
  rewrite cstr_pad5 in Kc, Kd, Kj by done. tauto.
Qed.

Lemma varInit_cState s d c j bits :
  fresh s -> varInit (set_bitFields (cState s d c j) bits) = s.
Proof. intros Hs. rewrite <- (varInit_fresh s Hs) at 2. reflexivity. Qed.

Lemma plain_no_nul x : plain x -> NUL ∉ x.
Proof. intros H. apply (plain_not x NUL H). stops. Qed.

(** A C instruction whose fields are in the tables: its word is written. *)
Lemma secondPass_cLine d c j chunk ec ed ej s rest out :
  fresh s -> cStart chunk -> cLine d c j chunk -> plain d -> plain c -> plain j ->
  ec ∈ compFieldLT -> ed ∈ destFieldLT -> ej ∈ jumpFieldLT ->
  mnemonic ec = c -> mnemonic ed = d -> mnemonic ej = j ->
  secondPass (chunk :: rest) s out = secondPass rest s (out ++ cWord ec ed ej ++ [LF]).
Proof.
  intros Hs Hst Hline Hd Hc Hj Hec Hed Hej Mc Md Mj.
  assert (length c <= 4 /\ length d <= 4 /\ length j <= 4)%nat as (Lc & Ld & Lj).
  { subst. repeat split.
    - apply (proj1 (Forall_forall (fun e => (length (mnemonic e) <= 4)%nat) compFieldLT)); [|done].
      apply (bool_decide_unpack _). vm_compute. exact I.
    - apply (proj1 (Forall_forall (fun e => (length (mnemonic e) <= 4)%nat) destFieldLT)); [|done].
      apply (bool_decide_unpack _). vm_compute. exact I.
    - apply (proj1 (Forall_forall (fun e => (length (mnemonic e) <= 4)%nat) jumpFieldLT)); [|done].
      apply (bool_decide_unpack _). vm_compute. exact I. }
  cbn [secondPass]. rewrite lineParser_cStart by done.
  rewrite (parseC_split d c j) by done.
  rewrite (lineCommand_cState_match s d c j ec ed ej) by (try done; by apply plain_no_nul).
  rewrite bind_Ok. cbv beta iota. change (SYSTEM_SUCCESS =? SYSTEM_SUCCESS) with true. cbv iota.
  rewrite lineWriter_word.
  - rewrite bind_Ok. by rewrite varInit_cState.
  - intros Hin. unfold cWord in Hin.
    assert (forall tbl e, Forall (fun e => NUL ∉ binary e) tbl -> e ∈ tbl -> NUL ∉ binary e) as Hn.
    { intros tbl e Hf He. by apply (proj1 (Forall_forall _ _) Hf). }
    rewrite !elem_of_app in Hin. destruct Hin as [Hin|[Hin|[Hin|Hin]]]; revert Hin.
    + apply (bool_decide_unpack _). vm_compute. exact I.
    + apply (Hn compFieldLT); [|done]. apply (bool_decide_unpack _). vm_compute. exact I.
    + apply (Hn destFieldLT); [|done]. apply (bool_decide_unpack _). vm_compute. exact I.
    + apply (Hn jumpFieldLT); [|done]. apply (bool_decide_unpack _). vm_compute. exact I.
Qed.

(** A C instruction with a field that is in no table: nothing is written
    and the pass goes on with the next line. *)
Lemma secondPass_cLine_rejected d c j chunk s rest out :
  fresh s -> cStart chunk -> cLine d c j chunk -> plain d -> plain c -> plain j ->
  (length d <= 4)%nat -> (length c <= 4)%nat -> (length j <= 4)%nat ->
  c ∉ keys compFieldLT \/ d ∉ keys destFieldLT \/ j ∉ keys jumpFieldLT ->
  secondPass (chunk :: rest) s out = secondPass rest s out.
Proof.
  intros Hs Hst Hline Hd Hc Hj Ld Lc Lj Hno.
  cbn [secondPass]. rewrite lineParser_cStart by done.
  rewrite (parseC_split d c j) by done.
  destruct (lineCommand_cState_reject s d c j) as [bits ->]; try done; try by apply plain_no_nul.
  rewrite bind_Ok. cbv beta iota. change (SYSTEM_FAILURE =? SYSTEM_SUCCESS) with false. cbv iota.
  rewrite bind_Ok. by rewrite varInit_cState.
Qed.

(** A line in which the loop for the destination finds neither sign. *)
Lemma parseC_no_sign line s :
  Forall (fun ch => ch <> "="%char /\ ch <> ";"%char) line ->
  exists f, parseC line s = Undefined f.
Proof.
  intros H. unfold parseC. rewrite destLoop_copyUntil.
  destruct (copyUntil_runaway (is_either "=" ";") "destFldString" 5 line 0
              (destFldString (gInsFields s))) as [f ->]; [|by exists f].
  eapply Forall_impl; [exact H|]. intros ch [H1 H2]. unfold is_either.
  destruct (Ascii.eqb_spec ch "="); [done|]. by destruct (Ascii.eqb_spec ch ";").
Qed.

Lemma decimalOf_exists n : 0 <= n < 10 ^ 9 -> exists ds, decimalOf ds n.
Proof.
  intros Hn. destruct (Z.eq_dec n 0) as [->|Hne].
  - exists $"0". split; [discriminate|]. split; [repeat constructor|]. split; [simpl; lia|done].
  - destruct (digitsLoop_spec 9 9 n [] ltac:(lia) Hn) as (d & _ & Hdig & Hval & Hlen).
    exists (rev d). split; [|split; [by apply Forall_rev | split; [by rewrite length_rev | done]]].
    intros Hnil. rewrite Hnil in Hval. by compute in Hval.
Qed.

(** ** Programs with references among other lines *)

Lemma secondPass_program t0 prog : forall p s out,
  allocated t0 p s -> (exists ext, gSymbolTable s = t0 ++ ext) ->
  Forall (passLineOk t0) prog ->
  Forall (fun e => 0 <= value e <= 65535) t0 ->
  Z.of_nat (length t0) + Z.of_nat (length p) + Z.of_nat (length (references prog))
    <= SYMBOLTABLE_SIZE ->
  Z.of_nat (length p) + Z.of_nat (length (references prog)) <= 65520 ->
  exists s',
    secondPass (map chunkOf prog) s out
    = Ok (s', out ++ concat (map (writtenFor t0 (p ++ references prog)) prog))
    /\ allocated t0 (p ++ references prog) s'.
Proof.
  induction prog as [|l prog IH]; intros p s out Ha Hext Hok Ht Hcap Hmax.
  - simpl. rewrite !app_nil_r. eauto.
  - apply Forall_cons in Hok as [Hl Hok]. destruct l as [n|chunk w]; cbn [references map chunkOf].
    + simpl length in *. simpl in Hl.
      destruct (resolveSymbol_step t0 p s n Ha Hl ltac:(lia)) as (s1 & Hres & Ha1).
      assert (0 <= resolved t0 (p ++ [n]) n <= 65535) as Hv.
      { destruct (resolved_bound t0 (p ++ [n]) n Ht) as [H|H]; [apply elem_of_app; right; left|done|].
        rewrite length_app in H. simpl in H. lia. }
      rewrite (secondPass_symbol n s _ s1) by (try done; apply Ha).
      assert (exists ext, gSymbolTable s1 = t0 ++ ext) as Hext1.
      { destruct Hext as [e1 He1]. destruct (resolveSymbol_extends _ _ _ _ Hres) as [e2 He2].
        exists (e1 ++ e2). by rewrite He2, He1, app_assoc. }
      destruct (IH (p ++ [n]) s1 (out ++ binary16 (resolved t0 (p ++ [n]) n) ++ [LF])
                  Ha1 Hext1 Hok Ht)
        as (s' & Hs' & Ha'); [rewrite length_app; simpl; lia | rewrite length_app; simpl; lia|].
      exists s'. split; [|by rewrite <- app_assoc in Ha'].
      rewrite Hs'. f_equal. f_equal. rewrite <- app_assoc. f_equal. cbn [map concat writtenFor].
      replace ((p ++ [n]) ++ references prog) with (p ++ n :: references prog)
        by (by rewrite <- app_assoc).
      f_equal. f_equal. f_equal.
      replace (p ++ n :: references prog) with ((p ++ [n]) ++ references prog)
        by (by rewrite <- app_assoc).
      rewrite (resolved_in t0 (p ++ [n]) (references prog) n); [done|].
      apply elem_of_app. right. left.
    + simpl in Hl. rewrite (Hl s (map chunkOf prog) out) by (try done; apply Ha).
      destruct (IH p s (out ++ w) Ha Hext Hok Ht Hcap Hmax) as (s' & Hs' & Ha').
      exists s'. split; [|done]. rewrite Hs'. f_equal. f_equal.
      cbn [map concat writtenFor]. by rewrite <- app_assoc.
Qed.

Lemma passesBy_comment t0 text : passesBy t0 (render (Comment text)) [].
Proof.
  intros s rest out Hs _. cbn [secondPass].
  change (lineParser (lineBuffer (render (Comment text))) s) with (Ok (SYSTEM_FAILURE, s)).
  rewrite bind_Ok. cbv beta iota. change (SYSTEM_FAILURE =? SYSTEM_SUCCESS) with false.
  cbv iota. rewrite bind_Ok, app_nil_r. by rewrite varInit_fresh.
Qed.

Lemma passesBy_blank t0 : passesBy t0 (render Blank) [].
Proof.
  intros s rest out Hs _. cbn [secondPass].
  change (lineParser (lineBuffer (render Blank)) s) with (Ok (SYSTEM_FAILURE, s)).
  rewrite bind_Ok. cbv beta iota. change (SYSTEM_FAILURE =? SYSTEM_SUCCESS) with false.
  cbv iota. rewrite bind_Ok, app_nil_r. by rewrite varInit_fresh.
Qed.

Lemma passesBy_literal t0 ds n :
  decimalOf ds n -> n <= 65535 -> passesBy t0 (aLiteral ds) (binary16 n ++ [LF]).
Proof.
  intros (Hne & Hds & Hlen & <-) Hn s rest out Hs _. by apply secondPass_literal.
Qed.

Lemma passesBy_cLine t0 d c j chunk ec ed ej :
  cStart chunk -> cLine d c j chunk -> plain d -> plain c -> plain j ->
  ec ∈ compFieldLT -> ed ∈ destFieldLT -> ej ∈ jumpFieldLT ->
  mnemonic ec = c -> mnemonic ed = d -> mnemonic ej = j ->
  passesBy t0 chunk (cWord ec ed ej ++ [LF]).
Proof. intros ?????????? Hj s rest out Hs _. by eapply secondPass_cLine. Qed.

Lemma passesBy_rejected t0 d c j chunk :
  cStart chunk -> cLine d c j chunk -> plain d -> plain c -> plain j ->
  (length d <= 4)%nat -> (length c <= 4)%nat -> (length j <= 4)%nat ->
  c ∉ keys compFieldLT \/ d ∉ keys destFieldLT \/ j ∉ keys jumpFieldLT ->
  passesBy t0 chunk [].
Proof.
  intros ???????? Hno s rest out Hs _. rewrite app_nil_r. by eapply secondPass_cLine_rejected.
Qed.

Lemma passesBy_label t0 name v :
  wellFormed (Label name) -> findEntry name t0 = Some v -> 0 <= v < 10 ^ 9 ->
  passesBy t0 (render (Label name)) [].
Proof.
  intros (Hlen & Hpar & Hnul) Hfind Hv s rest out Hs [ext Hext].
  unfold render in *. rewrite !length_app in Hlen. simpl in Hlen. unfold LINEBUFFER_SIZE in Hlen.
  cbn [secondPass].
  change ($"(" ++ name ++ $")" ++ [CR; LF]) with ("("%char :: name ++ ")"%char :: [CR; LF]).
  rewrite lineBuffer_cons by (rewrite length_app; simpl; unfold LINEBUFFER_SIZE; lia).
  rewrite <- app_assoc. cbn [app]. set (tl := replicate _ NUL).
  assert (exists c1 r, name ++ ")"%char :: CR :: LF :: tl = c1 :: r) as (c1 & r & Hx)
    by (destruct name; simpl; eauto).
  rewrite Hx. unfold lineParser.
  change (("(" =? "/")%char && (c1 =? "/")%char) with false.
  change ("(" =? CR)%char with false. change ("(" =? "@")%char with false.
  change ("(" =? "(")%char with true. cbv iota. cbn [drop]. rewrite <- Hx.
  unfold parseLabel.
  rewrite copyUntil_from0; first last.
  - rewrite length_replicate. lia.
  - unfold LINEBUFFER_SIZE. lia.
  - reflexivity.
  - apply Forall_forall. intros c Hc. unfold is_char.
    destruct (Ascii.eqb_spec c ")") as [->|]; done.
  - rewrite bind_Ok. cbv beta iota. unfold LINEBUFFER_SIZE.
    do 3 (rewrite store_Ok by lia; rewrite bind_Ok).
    assert (cstr (<[(length name + 2)%nat:=NUL]> (<[(length name + 1)%nat:=LF]>
              (<[length name:=CR]> (name ++ drop (length name) (replicate 100 NUL)))))
            = name ++ [CR; LF]) as ->.
    { rewrite drop_replicate.
      destruct (100 - length name)%nat as [|[|[|k]]] eqn:Ek; [lia|lia|lia|].
      cbn [replicate].
      rewrite !insert_app_r_alt by lia.
      replace (length name - length name)%nat with 0%nat by lia.
      replace (length name + 1 - length name)%nat with 1%nat by lia.
      replace (length name + 2 - length name)%nat with 2%nat by lia.
      cbn [insert list_insert].
      change (name ++ CR :: LF :: NUL :: replicate k NUL)
        with (name ++ [CR; LF] ++ NUL :: replicate k NUL).
      rewrite app_assoc. apply cstr_app_nul.
      rewrite not_elem_of_app. split; [done|]. intros H.
      apply elem_of_cons in H as [H|H]; [discriminate|].
      apply elem_of_cons in H as [H|H]; [discriminate|]. by apply elem_of_nil in H. }
    rewrite searchSymbolEntry_name by (unfold LINEBUFFER_SIZE; lia).
    rewrite (resolveSymbol_found name s v) by (rewrite Hext; by apply findEntry_app).
    rewrite bind_Ok. cbv beta iota.
    destruct (writeAddress_spec v s Hs Hv) as (ds & -> & _).
    rewrite !bind_Ok. cbv beta iota. change (SYSTEM_FAILURE =? SYSTEM_SUCCESS) with false.
    cbv iota. rewrite bind_Ok, app_nil_r. f_equal.
    rewrite <- (varInit_fresh s Hs) at 2. reflexivity.
Qed.

(** The allocation of variables in a program whose other lines leave the
    state alone (comments, blank lines, literal addresses, C instructions,
    declarations of labels that the first pass entered). *)
Theorem variable_allocation_in_program (prog : list passLine) (s : State) :
  fresh s -> currMemory s = CURR_MEMORY ->
  (SYMBOLTABLE_TAIL <= length (gSymbolTable s))%nat ->
  Forall (fun e => 0 <= value e <= 65535) (gSymbolTable s) ->
  Forall (passLineOk (gSymbolTable s)) prog ->
  Z.of_nat (length (gSymbolTable s)) + Z.of_nat (length (references prog)) <= SYMBOLTABLE_SIZE ->
  exists s',
    secondPass (map chunkOf prog) s []
    = Ok (s', concat (map (writtenFor (gSymbolTable s) (references prog)) prog)) /\
    forall n, n ∈ references prog ->
              findEntry n (gSymbolTable s') = Some (resolved (gSymbolTable s) (references prog) n).
Proof.
  intros Hs Hm Htail Hval Hok Hcap.
  assert (Forall symbolName (references prog)) as Hns.
  { clear -Hok. induction Hok as [|[n|c w] prog Hl _ IH]; simpl; [done| |done]. by constructor. }
  destruct (secondPass_program (gSymbolTable s) prog [] s [] (allocated_start s Hs Hm)) as (s' & Hrun & Ha);
    try done.
  - exists []. by rewrite app_nil_r.
  - simpl. lia.
  - simpl. unfold SYMBOLTABLE_SIZE, SYMBOLTABLE_TAIL in *. lia.
  - simpl in Hrun, Ha. exists s'. split; [exact Hrun|].
    intros n Hn. destruct Ha as (_ & _ & _ & Hold & _). apply Hold; [|auto].
    by apply (proj1 (Forall_forall _ _) Hns n Hn).
Qed.

(** The test of the A instruction branch: an operand whose first
    character has a code up to that of the digit nine, digit or not, is
    copied as a literal and the symbol table stays as it is. *)
Lemma parseAOperand_up_to_nine c ptr s s' :
  code c <= code "9" -> parseAOperand (c :: ptr) s = Ok s' ->
  gSymbolTable s' = gSymbolTable s /\ currMemory s' = currMemory s.
Proof.
  intros Hc. unfold parseAOperand. destruct (Z.gtb_spec (code c) (code "9")) as [?|_]; [lia|].
  intros H. inv_bind H. destruct a as [[p0 i0] a]. inv_bind H. by injection H as <-.
Qed.

(** ** The properties of the specification *)

(** C1: the two passes over the six lines [@2], [D=A], [@3], [D=D+A],
    [@0], [M=D] (each ended by carriage return and line feed) write
    exactly the six words of the specification, one per line and in source
    order. *)
Theorem end_to_end_example :
  main (crlf ["@2"; "D=A"; "@3"; "D=D+A"; "@0"; "M=D"]%string)
  = Ok (lf [ "0000000000000010"; "1110110000010000"; "0000000000000011";
             "1110000010010000"; "0000000000000000"; "1110001100001000" ]%string).
Proof. vm_compute. reflexivity. Qed.

(** C2: for an operation, a destination and a jump mnemonic of the three
    lookup tables (of 28, 8 and 8 entries), the encoder succeeds and the
    word it leaves in [bitFields], which [lineWriter] writes, is the
    prefix 111, the 7 bits of the operation, the 3 bits of the destination
    and the 3 bits of the jump, as the tables give them: 16 characters. *)
Theorem computation_encoding (s : State) (c d j : Instruction_Encoding) :
  c ∈ compFieldLT -> d ∈ destFieldLT -> j ∈ jumpFieldLT ->
  nth 0 (addFldString (gInsFields s)) NUL = INVALID_VALUE ->
  cstr (cmpFldString (gInsFields s)) = mnemonic c ->
  cstr (destFldString (gInsFields s)) = mnemonic d ->
  cstr (jmpFldString (gInsFields s)) = mnemonic j ->
  (length compFieldLT = 28 /\ length destFieldLT = 8 /\ length jumpFieldLT = 8)%nat /\
  (length (binary c) = 7 /\ length (binary d) = 3 /\ length (binary j) = 3)%nat /\
  lineCommand s
    = Ok (SYSTEM_SUCCESS, set_bitFields s (($"111" ++ binary c ++ binary d ++ binary j) ++ [NUL])) /\
  forall out,
    lineWriter (set_bitFields s (($"111" ++ binary c ++ binary d ++ binary j) ++ [NUL])) out
    = Ok (out ++ ($"111" ++ binary c ++ binary d ++ binary j) ++ [LF]).
Proof.
  intros Hc Hd Hj Hadd Hcf Hdf Hjf.
  pose proof (proj1 (Forall_forall _ _) compFieldLT_width c Hc) as Lc.
  pose proof (proj1 (Forall_forall _ _) destFieldLT_width d Hd) as Ld.
  pose proof (proj1 (Forall_forall _ _) jumpFieldLT_width j Hj) as Lj.
  split; [done|]. split; [done|]. split.
  - by apply lineCommand_C.
  - intros out. apply lineWriter_word.
    assert (forall tbl e, Forall (fun e => NUL ∉ binary e) tbl -> e ∈ tbl -> NUL ∉ binary e) as Hn.
    { intros tbl e H He. by apply (proj1 (Forall_forall _ _) H). }
    rewrite !not_elem_of_app. repeat split.
    + apply (bool_decide_unpack _). vm_compute. exact I.
    + apply (Hn compFieldLT); [|done]. apply (bool_decide_unpack _). vm_compute. exact I.
    + apply (Hn destFieldLT); [|done]. apply (bool_decide_unpack _). vm_compute. exact I.
    + apply (Hn jumpFieldLT); [|done]. apply (bool_decide_unpack _). vm_compute. exact I.
Qed.

Lemma computation_encoding_witness :
  lineCommand computation_encoding_state
  = Ok (SYSTEM_SUCCESS,
        set_bitFields computation_encoding_state ($"1110110000010000" ++ [NUL])).
Proof.
  refine (proj1 (proj2 (proj2
    (computation_encoding computation_encoding_state
       (enc "A" "0110000") (enc "D" "010") (enc "" "000") _ _ _ _ _ _ _)))).
  - unfold compFieldLT. repeat constructor.
  - unfold destFieldLT. repeat constructor.
  - unfold jumpFieldLT. repeat constructor.
  - reflexivity.
  - reflexivity.
  - reflexivity.
  - reflexivity.
Defined.




(** C4: the name [$x] is not numeric and the symbol table does not hold
    it, yet its first reference [@$x] allocates nothing.  The dollar sign
    lies below the digit 9, so the parser copies the operand as a literal:
    the symbol table and [currMemory] stay as they were, no word of the
    address 16 is written, and the sum that [lineCommand] forms from the
    characters is negative, outside [uint16_t].  The reference [@i], whose
    name begins above the digit 9, gets the address 16. *)
Theorem dollar_variable_not_allocated :
  is_digit "$"%char = false /\
  isNew initialSymbolTable $"$x" /\
  (exists s',
     parseAOperand (drop 1 (lineBuffer (aSymbol $"$x"))) (varInit staticState) = Ok s' /\
     gSymbolTable s' = initialSymbolTable /\ currMemory s' = CURR_MEMORY) /\
  secondPass [aSymbol $"$x"] (varInit staticState) [] = Undefined FloatToInt /\
  main (crlf ["@$x"]%string) = Undefined FloatToInt /\
  main (crlf ["@i"]%string) = Ok (lf ["0000000000010000"]%string).
Proof.
  split; [reflexivity|]. split; [vm_compute; reflexivity|]. split.
  - eexists. split; [vm_compute; reflexivity|]. split; reflexivity.
  - split; [vm_compute; reflexivity|]. split; vm_compute; reflexivity.
Qed.

(** X23: the second pass over references [@n] alone, for names [ns] that
    the parser takes for symbols (a first character above the digit 9,
    no zero byte, a line that fits the line buffer), begun with a fresh
    per-line record, [currMemory] at 16 and a table of at least the 23
    predefined elements with values up to 65535 and room for the names,
    writes for every reference the word of the address [resolved] gives
    the name: the value in the table when the pass begins if the name is
    there; otherwise 16 plus the number of distinct new names referenced
    before its first appearance.  So the first new variable gets 16, the
    next distinct one 17, and a later reference to a variable gives the
    address of its first reference; the table holds these addresses at
    the end. *)
Theorem variable_allocation (ns : list (list ascii)) (s : State) :
  fresh s -> currMemory s = CURR_MEMORY ->
  (SYMBOLTABLE_TAIL <= length (gSymbolTable s))%nat ->
  Forall (fun e => 0 <= value e <= 65535) (gSymbolTable s) ->
  Forall symbolName ns ->
  Z.of_nat (length (gSymbolTable s)) + Z.of_nat (length ns) <= SYMBOLTABLE_SIZE ->
  exists s',
    secondPass (map aSymbol ns) s []
    = Ok (s', concat (map (fun n => binary16 (resolved (gSymbolTable s) ns n) ++ [LF]) ns)) /\
    (forall n, n ∈ ns -> findEntry n (gSymbolTable s') = Some (resolved (gSymbolTable s) ns n)) /\
    (forall n ns', ns = n :: ns' -> isNew (gSymbolTable s) n ->
                   resolved (gSymbolTable s) ns n = 16) /\
    (forall n m ns', ns = n :: m :: ns' -> isNew (gSymbolTable s) n -> isNew (gSymbolTable s) m ->
                     n <> m -> resolved (gSymbolTable s) ns m = 17).
Proof.
  intros Hs Hm Htail Hval Hns Hcap.
  destruct (secondPass_symbols (gSymbolTable s) ns [] s [] (allocated_start s Hs Hm) Hns Hval)
    as (s' & Hrun & Ha).
  { simpl. lia. }
  { simpl. unfold SYMBOLTABLE_SIZE, SYMBOLTABLE_TAIL in *. lia. }
  simpl in Hrun, Ha. exists s'. split; [exact Hrun|]. split; [|split].
  - intros n Hn. destruct Ha as (_ & _ & _ & Hold & _). apply Hold; [|auto].
    by apply (proj1 (Forall_forall _ _) Hns n Hn).
  - intros n ns' -> Hn. unfold resolved. rewrite Hn. simpl. by rewrite decide_True.
  - intros n m ns' -> Hn Hm' Hne. unfold resolved. rewrite Hm'. simpl.
    rewrite decide_False, decide_True by done. unfold newCount. simpl.
    rewrite filter_cons_True by done. reflexivity.
Qed.

Lemma variable_allocation_witness :
  exists s',
    secondPass (map aSymbol [$"i"; $"sum"; $"i"]) (varInit staticState) []
    = Ok (s', lf ["0000000000010000"; "0000000000010001"; "0000000000010000"]%string) /\
    findEntry $"i" (gSymbolTable s') = Some 16 /\
    findEntry $"sum" (gSymbolTable s') = Some 17.
Proof.
  destruct (variable_allocation [$"i"; $"sum"; $"i"] (varInit staticState))
    as (s' & Hrun & Hfind & _).
  - reflexivity.
  - reflexivity.
  - vm_compute. lia.
  - apply (bool_decide_unpack _). vm_compute. exact I.
  - apply (bool_decide_unpack _). vm_compute. exact I.
  - vm_compute. discriminate.
  - exists s'. split; [exact Hrun|]. split.
    + apply (Hfind $"i"). left.
    + apply (Hfind $"sum"). right. left.
Defined.

(** C5: every [n] from 0 to 32767 has a decimal literal, and for every
    decimal literal of [n] the line [@n] is accepted and the word written
    for it is the binary expansion of [n], most significant bit first,
    padded with zeros to 16 characters: its first character is [0] and
    it denotes [n]. *)
Theorem literal_address_encoding (n : Z) (s : State) :
  fresh s -> 0 <= n <= 32767 ->
  (exists ds, decimalOf ds n) /\
  forall ds, decimalOf ds n ->
    exists s',
      lineParser (lineBuffer (aLiteral ds)) s = Ok (SYSTEM_SUCCESS, s') /\
      (forall out, lineWriter s' out = Ok (out ++ binary16 n ++ [LF])) /\
      length (binary16 n) = 16%nat /\
      Forall (fun c => c = "0"%char \/ c = "1"%char) (binary16 n) /\
      head (binary16 n) = Some "0"%char /\
      wordValue (binary16 n) = n.
Proof.
  intros Hs Hn. split; [apply decimalOf_exists; lia|].
  intros ds (Hne & Hds & Hlen & <-).
  eexists. split; [apply lineParser_literal; try done; lia|].
  split; [|split; [|split; [|split]]].
  - intros out. apply lineWriter_word, binary16_no_nul.
  - reflexivity.
  - apply binary16_bits.
  - by apply binary16_head.
  - apply wordValue_binary16. lia.
Qed.

Lemma literal_address_encoding_witness :
  exists s',
    lineParser (lineBuffer (aLiteral $"32767")) (varInit staticState) = Ok (SYSTEM_SUCCESS, s') /\
    (forall out, lineWriter s' out = Ok (out ++ $"0111111111111111" ++ [LF])).
Proof.
  destruct (literal_address_encoding 32767 (varInit staticState)) as [_ H].
  - reflexivity.
  - lia.
  - destruct (H $"32767") as (s' & Hp & Hw & _).
    + split; [discriminate|]. split; [repeat constructor|]. split; [simpl; lia | reflexivity].
    + exists s'. split; [exact Hp | exact Hw].
Defined.

(** C6: the operation field of the line [D=D+A+1] has five characters
    and is not in the table, yet the line is not skipped: the terminating
    zero of the field is written to [cmpFldString[5]], outside the array
    of five bytes, and the run does not go on to the next line. *)
Theorem long_field_overflows :
  ($"D+A+1" ∉ keys compFieldLT) /\
  lineParser (lineBuffer ($"D=D+A+1" ++ [CR; LF])) (varInit staticState)
    = Undefined (OutOfBounds "cmpFldString") /\
  main (crlf ["D=D+A+1"; "@1"]%string) = Undefined (OutOfBounds "cmpFldString").
Proof.
  split; [|split; vm_compute; reflexivity].
  apply (bool_decide_unpack _). vm_compute. exact I.
Qed.

(** C7: the operand of [@$x] begins with a dollar sign, which is not a
    decimal digit, but it is not looked up: its code is below that of the
    digit nine, so the parser copies the operand to [addFldString] as if
    it were a number and leaves the symbol table as it was.  No address
    comes of it: the first character alone contributes a negative amount,
    which the [uint16_t] [addr] cannot take. *)
Theorem dollar_operand_taken_as_literal :
  is_digit "$"%char = false /\
  exists s',
    parseAOperand (drop 1 (lineBuffer ($"@$x" ++ [CR; LF]))) (varInit staticState) = Ok s' /\
    gSymbolTable s' = initialSymbolTable /\
    findEntry $"$x" (gSymbolTable s') = None /\
    cstr (addFldString (gInsFields s')) = $"$x" /\
    lineParser (lineBuffer ($"@$x" ++ [CR; LF])) (varInit staticState) = Undefined FloatToInt.
Proof.
  split; [reflexivity|]. eexists. split; [vm_compute; reflexivity|].
  split; [reflexivity|]. split; [|split]; vm_compute; reflexivity.
Qed.

(** C8: the line [D+1] alone has neither an equals sign nor a semicolon.
    None of the 100 bytes of its line buffer stops the loop that looks for
    the destination field, so the loop goes on beyond [destFldString] (the
    sixth byte is written outside the array) and cannot end inside the
    line buffer: the parser does not return the three fields. *)
Theorem bare_operation_overruns :
  length (lineBuffer ($"D+1" ++ [CR; LF])) = LINEBUFFER_SIZE /\
  Forall (fun c => c <> "="%char /\ c <> ";"%char) (lineBuffer ($"D+1" ++ [CR; LF])) /\
  lineParser (lineBuffer ($"D+1" ++ [CR; LF])) (varInit staticState)
    = Undefined (OutOfBounds "destFldString") /\
  main (crlf ["D+1"]%string) = Undefined (OutOfBounds "destFldString").
Proof.
  split; [reflexivity|]. split; [|split; vm_compute; reflexivity].
  apply (bool_decide_unpack _). vm_compute. exact I.
Qed.

(** C9: the lookup returns the value of the first element, from index 0
    upward, whose symbol is the string looked up.  Every step of a run,
    in either pass, leaves the elements of the symbol table as they are
    and at most appends new ones at the tail, so a symbol that resolves to
    a value keeps that value for the rest of the run, whatever is appended
    later under the same name. *)
Theorem keep_first_resolution :
  (forall str t v,
     findEntry str t = Some v <->
     exists i e, t !! i = Some e /\ cstr (symbol e) = cstr str /\ value e = v /\
       forall j e', (j < i)%nat -> t !! j = Some e' -> cstr (symbol e') <> cstr str) /\
  (forall s s', rtc step s s' -> exists ext, gSymbolTable s' = gSymbolTable s ++ ext) /\
  (forall s s' str v,
     rtc step s s' ->
     findEntry str (gSymbolTable s) = Some v -> findEntry str (gSymbolTable s') = Some v) /\
  (forall lines s s', firstPass lines s = Ok s' -> rtc step s s') /\
  (forall lines s out s' out', secondPass lines s out = Ok (s', out') -> rtc step s s').
Proof.
  split; [exact findEntry_first|]. split; [exact steps_extend|]. split; [|split].
  - intros s s' str v Hrun Hv. destruct (steps_extend s s' Hrun) as [ext ->].
    by apply findEntry_app.
  - intros lines s s'. apply firstPassLoop_steps.
  - exact secondPass_steps.
Qed.

Lemma keep_first_resolution_witness :
  findEntry $"SCREEN" (gSymbolTable keep_first_after) = Some 16384.
Proof.
  apply (proj1 (proj2 (proj2 keep_first_resolution)) (varInit staticState) keep_first_after).
  - apply (proj1 (proj2 (proj2 (proj2 keep_first_resolution))) [$"(SCREEN)" ++ [CR; LF]]).
    vm_compute. reflexivity.
  - vm_compute. reflexivity.
Defined.

(** C10: a line that begins with the at sign is never rejected.  Whenever
    the parser returns for it, the status is success and a word of 16
    binary digits is written; the operand is not checked against any
    range, and a literal that needs the sixteenth bit is encoded with a
    leading 1.  A C instruction, in contrast, can be rejected. *)
Theorem address_form_never_rejected :
  (forall chunk s st s',
     fresh s -> head chunk = Some "@"%char ->
     lineParser (lineBuffer chunk) s = Ok (st, s') ->
     st = SYSTEM_SUCCESS /\
     exists w, length w = 16%nat /\ Forall (fun c => c = "0"%char \/ c = "1"%char) w /\
               forall out, lineWriter s' out = Ok (out ++ w ++ [LF])) /\
  (forall n ds s,
     fresh s -> decimalOf ds n -> 32768 <= n <= 65535 ->
     exists s',
       lineParser (lineBuffer (aLiteral ds)) s = Ok (SYSTEM_SUCCESS, s') /\
       (forall out, lineWriter s' out = Ok (out ++ binary16 n ++ [LF])) /\
       head (binary16 n) = Some "1"%char) /\
  (exists s', lineParser (lineBuffer ($"D=Q" ++ [CR; LF])) (varInit staticState)
              = Ok (SYSTEM_FAILURE, s')).
Proof.
  split; [|split].
  - intros chunk s st s' Hs Hc H.
    destruct (lineParser_address_line chunk s st s' Hs Hc H) as [-> [addr Hw]].
    split; [done|]. exists (binary16 addr). split; [reflexivity|]. split; [apply binary16_bits | done].
  - intros n ds s Hs (Hne & Hds & Hlen & <-) Hv.
    eexists. split; [apply lineParser_literal; try done; lia|].
    split; [|by apply binary16_head_one].
    intros out. apply lineWriter_word, binary16_no_nul.
  - eexists. vm_compute. reflexivity.
Qed.

Lemma address_form_never_rejected_witness :
  exists s',
    lineParser (lineBuffer (aLiteral $"40000")) (varInit staticState) = Ok (SYSTEM_SUCCESS, s') /\
    (forall out, lineWriter s' out = Ok (out ++ binary16 40000 ++ [LF])) /\
    head (binary16 40000) = Some "1"%char.
Proof.
  apply (proj1 (proj2 address_form_never_rejected) 40000 $"40000" (varInit staticState)).
  - reflexivity.
  - split; [discriminate|]. split; [repeat constructor|]. split; [simpl; lia | reflexivity].
  - lia.
Defined.

(** A program with a comment, a blank line, variables, a label, predefined
    symbols and a C instruction whose operation is in no table: the
    rejected line leaves no word, the other instructions one word each. *)
Example mixed_program :
  main (crlf [ "// sum"; "@i"; "M=1"; "(LOOP)"; "@i"; "D=M"; "@LOOP"; "D;JGT"; "";
               "@R5"; "@SCREEN"; "0;JMP"; "D=Q"; "AMD=D|M;JNE" ]%string)
  = Ok (lf [ "0000000000010000"; "1110111111001000"; "0000000000010000";
             "1111110000010000"; "0000000000000010"; "1110001100000001";
             "0000000000000101"; "0100000000000000"; "1110101010000111";
             "1111010101111101" ]%string).
Proof. vm_compute. reflexivity. Qed.

(** * Further properties of the program *)

(** ** Reading the file *)

Lemma fgets_chunk n file :
  (length (fgets n file).1 <= n)%nat /\
  (LF ∉ (fgets n file).1 \/ exists body, (fgets n file).1 = body ++ [LF] /\ LF ∉ body).
Proof.
  revert file. induction n as [|n IH]; intros [|c file]; simpl;
    try (split; [lia | left; apply not_elem_of_nil]).
  destruct (Ascii.eqb_spec c LF) as [->|Hc].
  - simpl. split; [lia|]. right. exists []. split; [done | apply not_elem_of_nil].
  - specialize (IH file). destruct (fgets n file) as [l r]. simpl in *.
    destruct IH as [Hl Hlf]. split; [lia|].
    destruct Hlf as [Hno | (body & -> & Hno)].
    + left. by apply not_elem_of_cons.
    + right. exists (c :: body). split; [done | by apply not_elem_of_cons].
Qed.

Lemma fgets_nonempty n c file : (fgets (S n) (c :: file)).1 <> [].
Proof. simpl. destruct (c =? LF)%char; [done|]. by destruct (fgets n file). Qed.

Lemma readLines_chunks calls file :
  Forall (fun l => (1 <= length l <= 99)%nat /\
                   (LF ∉ l \/ exists body, l = body ++ [LF] /\ LF ∉ body))
         (readLines calls file).
Proof.
  revert file. induction calls as [|calls IH]; intros file; [constructor|].
  destruct file as [|c file]; [constructor|]. cbn [readLines].
  pose proof (fgets_chunk (LINEBUFFER_SIZE - 1) (c :: file)) as [H1 H2].
  pose proof (fgets_nonempty 98 c file) as H3.
  change (LINEBUFFER_SIZE - 1)%nat with 99%nat in *.
  destruct (fgets 99 (c :: file)) as [l r]. simpl in *.
  constructor; [|apply IH]. split; [|done]. destruct l; [done|]. cbn [length] in *. lia.
Qed.

Lemma readLines_fuel c1 : forall c2 file,
  (length file <= c1)%nat -> (length file <= c2)%nat -> readLines c1 file = readLines c2 file.
Proof.
  induction c1 as [|c1 IH]; intros c2 file H1 H2.
  - destruct file; [|simpl in H1; lia]. by destruct c2.
  - destruct file as [|c file]; [by destruct c2|].
    destruct c2 as [|c2]; [simpl in H2; lia|]. cbn [readLines].
    pose proof (fgets_progress 98 c file) as Hp.
    change (LINEBUFFER_SIZE - 1)%nat with 99%nat.
    destruct (fgets 99 (c :: file)) as [l r]. simpl in *. f_equal. apply IH; lia.
Qed.

Lemma fgets_piece n piece rest :
  length piece = n -> LF ∉ piece -> fgets n (piece ++ rest) = (piece, rest).
Proof.
  revert piece. induction n as [|n IH]; intros [|c piece] Hl Hno; try done.
  simpl. apply not_elem_of_cons in Hno as [Hc Hno].
    destruct (Ascii.eqb_spec c LF) as [->|_]; [done|].
    rewrite IH; [done | by injection Hl | done].
Qed.

(** X1: the pieces that the [fgets] loops of the two passes read, put
    together, are the file: no character is lost or read twice.  Every
    piece is not empty, has at most 99 characters, and holds a line feed
    only as its last character. *)
Theorem file_read_in_chunks (file : list ascii) :
  concat (fileLines file) = file /\
  Forall (fun l => (1 <= length l <= 99)%nat /\
                   (LF ∉ l \/ exists body, l = body ++ [LF] /\ LF ∉ body))
         (fileLines file).
Proof. split; [apply fileLines_concat | apply readLines_chunks]. Qed.

(** X2: 99 characters without a line feed fill the line buffer: the
    passes take them for a line, and the characters after them, up to
    the next line feed, for the line that follows. *)
Theorem long_line_is_split (piece rest : list ascii) :
  length piece = 99%nat -> LF ∉ piece ->
  fileLines (piece ++ rest) = piece :: fileLines rest.
Proof.
  intros Hl Hno. unfold fileLines. rewrite length_app, Hl.
  change (99 + length rest)%nat with (S (98 + length rest)).
  destruct piece as [|c piece]; [done|]. cbn [app readLines].
  change (c :: piece ++ rest) with ((c :: piece) ++ rest).
  change (LINEBUFFER_SIZE - 1)%nat with 99%nat.
  rewrite fgets_piece by done. f_equal. apply readLines_fuel; lia.
Qed.

Lemma long_line_is_split_witness :
  fileLines (($"//" ++ replicate 97 "-"%char) ++ $"--" ++ [CR; LF])
  = [ $"//" ++ replicate 97 "-"%char; $"--" ++ [CR; LF] ].
Proof.
  apply (long_line_is_split ($"//" ++ replicate 97 "-"%char) ($"--" ++ [CR; LF])).
  - reflexivity.
  - apply (bool_decide_unpack _). vm_compute. exact I.
Defined.

(** ** Copy loops that leave their array *)

Lemma copyUntil_overflow stop w size x ptr : forall cs index a,
  Forall (fun c => stop c = false) cs -> (index + length cs = size)%nat ->
  copyUntil stop w size (cs ++ x :: ptr) index a = Undefined (OutOfBounds w) \/
  stop x = true /\
  exists a', copyUntil stop w size (cs ++ x :: ptr) index a = Ok (x :: ptr, size, a').
Proof.
  induction cs as [|c cs IH]; intros index a Hcs Hl.
  - simpl in *. destruct (stop x).
    + right. split; [done|]. exists a. repeat f_equal. lia.
    + left. unfold store. destruct (Nat.ltb_spec index size); [lia|]. reflexivity.
  - apply Forall_cons in Hcs as [Hc Hcs]. simpl in Hl. cbn [app copyUntil]. rewrite Hc.
    rewrite store_Ok by lia. rewrite bind_Ok. apply IH; [done | lia].
Qed.

Lemma copyUntil_overflow_store {X} stop w size x ptr cs a
    (k : list ascii -> list ascii -> result X) :
  Forall (fun c => stop c = false) cs -> length cs = size ->
  ('(p, index, a') ← copyUntil stop w size (cs ++ x :: ptr) 0 a;
   a'' ← store w size a' index NUL; k p a'') = Undefined (OutOfBounds w).
Proof.
  intros Hcs Hl.
  destruct (copyUntil_overflow stop w size x ptr cs 0%nat a Hcs) as [-> | [_ [a' ->]]]; [lia|done|].
  rewrite bind_Ok. cbv beta iota. unfold store.
  destruct (Nat.ltb_spec size size); [lia|]. reflexivity.
Qed.

(** ** The fields of a C instruction *)

Lemma no_stops (c1 c2 : ascii) cs :
  c1 ∉ cs -> c2 ∉ cs -> Forall (fun ch => is_either c1 c2 ch = false) cs.
Proof.
  intros H1 H2. apply Forall_forall. intros ch Hch. unfold is_either.
  destruct (Ascii.eqb_spec ch c1) as [->|_]; [done|].
  by destruct (Ascii.eqb_spec ch c2) as [->|_].
Qed.

Lemma parseC_parseRest line s :
  parseC line s =
  '(status, ptr, index, dest) ← destLoop line 0 (destFldString (gInsFields s));
  '(ptr, dest) ←
    (if status =? SYSTEM_SUCCESS then
       dest ← store "destFldString" 5 dest index NUL; Ok (drop 1 ptr, dest)
     else Ok (line, replicate 5 NUL));
  parseRest dest ptr s.
Proof. reflexivity. Qed.

Lemma parseC_dest d rest s :
  fresh s -> plain d -> (length d <= 4)%nat ->
  parseC (d ++ "="%char :: rest) s = parseRest (pad5 d) rest s.
Proof.
  intros Hs Hd Ld. rewrite parseC_parseRest, destLoop_copyUntil, Hs.
  cbn [destFldString varInit_fields].
  rewrite copyUntil_from0; [|apply (plain_stop d "=" ";"); [done|stops|stops]|reflexivity|lia
                            |rewrite length_replicate; lia].
  rewrite !bind_Ok. cbv beta iota. change ("=" =? "=")%char with true. cbv iota.
  change (SYSTEM_SUCCESS =? SYSTEM_SUCCESS) with true. cbv iota.
  rewrite store_pad5 by done. by rewrite !bind_Ok.
Qed.

Lemma parseC_nodest c rest s :
  fresh s -> plain c -> (length c <= 5)%nat ->
  parseC (c ++ ";"%char :: rest) s = parseRest (replicate 5 NUL) (c ++ ";"%char :: rest) s.
Proof.
  intros Hs Hc Lc. rewrite parseC_parseRest, destLoop_copyUntil, Hs.
  cbn [destFldString varInit_fields].
  rewrite copyUntil_from0; [|apply (plain_stop c "=" ";"); [done|stops|stops]|reflexivity|lia
                            |rewrite length_replicate; lia].
  rewrite !bind_Ok. cbv beta iota. change (";" =? "=")%char with false. cbv iota.
  change (SYSTEM_FAILURE =? SYSTEM_SUCCESS) with false. cbv iota.
  by rewrite !bind_Ok.
Qed.

Lemma parseRest_fields dest c j t tl s :
  fresh s -> plain c -> plain j -> (length c <= 4)%nat -> (length j <= 4)%nat ->
  t = CR \/ t = " "%char ->
  parseRest dest (c ++ ";"%char :: j ++ t :: tl) s
  = lineCommand (set_fields s (mkFields dest (pad5 j) (pad5 c)
                                 (replicate 10 INVALID_VALUE) (replicate 17 NUL))).
Proof.
  intros Hs Hc Hj Lc Lj Ht. unfold parseRest. rewrite Hs.
  cbn [destFldString addFldString bitFields cmpFldString jmpFldString varInit_fields].
  change (<[0%nat:=INVALID_VALUE]> (replicate 10 INVALID_VALUE)) with (replicate 10 INVALID_VALUE).
  rewrite copyUntil_from0; [|apply (plain_stop c ";" CR); [done|stops|stops]|reflexivity|lia
                            |rewrite length_replicate; lia].
  rewrite bind_Ok. cbv beta iota. rewrite store_pad5 by done. rewrite bind_Ok.
  change (";" =? ";")%char with true. cbv iota.
  rewrite copyUntil_from0; [|apply (plain_stop j CR " "); [done|stops|stops]
                            |by destruct Ht as [-> | ->]|lia|rewrite length_replicate; lia].
  rewrite bind_Ok. cbv beta iota. rewrite store_pad5 by done. by rewrite bind_Ok.
Qed.

Lemma parseRest_long_comp dest c x tl s :
  ";"%char ∉ c -> CR ∉ c -> length c = 5%nat ->
  parseRest dest (c ++ x :: tl) s = Undefined (OutOfBounds "cmpFldString").
Proof.
  intros H1 H2 Lc. unfold parseRest.
  apply (copyUntil_overflow_store (is_either ";" CR) "cmpFldString" 5 x tl c _
           (fun p cmp => _)); [by apply no_stops | done].
Qed.

Lemma parseRest_long_jump dest c j x tl s :
  fresh s -> plain c -> (length c <= 4)%nat ->
  CR ∉ j -> " "%char ∉ j -> length j = 5%nat ->
  parseRest dest (c ++ ";"%char :: j ++ x :: tl) s = Undefined (OutOfBounds "jmpFldString").
Proof.
  intros Hs Hc Lc H1 H2 Lj. unfold parseRest. rewrite Hs.
  cbn [destFldString addFldString bitFields cmpFldString jmpFldString varInit_fields].
  rewrite copyUntil_from0; [|apply (plain_stop c ";" CR); [done|stops|stops]|reflexivity|lia
                            |rewrite length_replicate; lia].
  rewrite bind_Ok. cbv beta iota. rewrite store_pad5 by done. rewrite bind_Ok.
  change (";" =? ";")%char with true. cbv iota.
  destruct (copyUntil_overflow (is_either CR " ") "jmpFldString" 5 x tl j 0%nat
              (replicate 5 NUL)) as [-> | [_ [a' ->]]]; [by apply no_stops | lia | done |].
  rewrite bind_Ok. cbv beta iota. unfold store at 1. by rewrite Nat.ltb_irrefl.
Qed.

Lemma codeOf_Some x table b :
  codeOf x table = Some b -> exists e, e ∈ table /\ mnemonic e = x /\ b = binary e.
Proof.
  induction table as [|e table IH]; [done|]. simpl.
  destruct (decide (mnemonic e = x)) as [He|_].
  - intros [= <-]. exists e. split; [left | done].
  - intros H. destruct (IH H) as (e' & He' & Hm & Hb). exists e'. split; [by right | done].
Qed.

Lemma codeOf_None x table : codeOf x table = None -> x ∉ keys table.
Proof.
  induction table as [|e table IH]; simpl; [intros _; apply not_elem_of_nil|].
  destruct (decide (mnemonic e = x)) as [|Hne]; [done|].
  intros H. apply not_elem_of_cons. split; [done | by apply IH].
Qed.

Lemma lineBuffer_tail chunk : lineBuffer chunk = chunk ++ replicate (LINEBUFFER_SIZE - length chunk) NUL.
Proof. reflexivity. Qed.

(** X3: for a C instruction [d=c], [d=c;j] or [c;j] whose fields have at
    most four characters, the parser calls [lineCommand] with exactly the
    three fields in their arrays, each ended by a zero byte, and with the
    address field marked invalid. *)
Theorem c_instruction_fields (d c j chunk : list ascii) (s : State) :
  fresh s -> cStart chunk -> cLine d c j chunk ->
  plain d -> plain c -> plain j ->
  (length d <= 4)%nat -> (length c <= 4)%nat -> (length j <= 4)%nat ->
  lineParser (lineBuffer chunk) s = lineCommand (cState s d c j).
Proof.
  intros Hs Hst Hline Hd Hc Hj Ld Lc Lj.
  rewrite lineParser_cStart by done. by apply parseC_split.
Qed.

Lemma c_instruction_fields_witness :
  lineParser (lineBuffer ($"AM=D|M;JNE" ++ [CR; LF])) (varInit staticState)
  = lineCommand (cState (varInit staticState) $"AM" $"D|M" $"JNE").
Proof.
  apply (c_instruction_fields $"AM" $"D|M" $"JNE").
  - reflexivity.
  - apply (bool_decide_unpack _). vm_compute. exact I.
  - apply cLine_dest_comp_jump.
  - apply (bool_decide_unpack _). vm_compute. exact I.
  - apply (bool_decide_unpack _). vm_compute. exact I.
  - apply (bool_decide_unpack _). vm_compute. exact I.
  - simpl. lia.
  - simpl. lia.
  - simpl. lia.
Defined.

Lemma secondPass_cOutput d c j chunk s rest out :
  fresh s -> cStart chunk -> cLine d c j chunk ->
  plain d -> plain c -> plain j ->
  (length d <= 4)%nat -> (length c <= 4)%nat -> (length j <= 4)%nat ->
  secondPass (chunk :: rest) s out = secondPass rest s (out ++ cOutput d c j).
Proof.
  intros Hs Hst Hline Hd Hc Hj Ld Lc Lj. unfold cOutput.
  destruct (codeOf c compFieldLT) as [bc|] eqn:Ec; first
  destruct (codeOf d destFieldLT) as [bd|] eqn:Ed; first
  destruct (codeOf j jumpFieldLT) as [bj|] eqn:Ej.
  - apply codeOf_Some in Ec as (ec & Hec & Mc & ->).
    apply codeOf_Some in Ed as (ed & Hed & Md & ->).
    apply codeOf_Some in Ej as (ej & Hej & Mj & ->).
    rewrite (secondPass_cLine d c j chunk ec ed ej) by done.
    unfold cWord. by rewrite <- !app_assoc.
  - apply codeOf_None in Ej. rewrite app_nil_r.
    apply (secondPass_cLine_rejected d c j); auto.
  - apply codeOf_None in Ed. rewrite app_nil_r.
    apply (secondPass_cLine_rejected d c j); auto.
  - apply codeOf_None in Ec. rewrite app_nil_r.
    apply (secondPass_cLine_rejected d c j); auto.
Qed.

(** X4: for a C instruction of the form [d=c], [d=c;j] or [c;j], ended
    by carriage return and line feed (the form [c] alone, with neither
    sign, is not among them: X5), whose fields have at most four
    characters and none of the characters that end a field, the second
    pass, with the per-line record as [varInit] leaves it, writes the word
    made of 111 and the bits of the operation, the destination and the
    jump, with a line feed, when each field is a mnemonic of its table,
    and nothing when one of them is not; in both cases it goes on with the
    next line in the state it had. *)
Theorem c_line_output (d c j chunk : list ascii) (s : State) (rest : list (list ascii))
    (out : list ascii) :
  fresh s -> cStart chunk -> cLine d c j chunk ->
  plain d -> plain c -> plain j ->
  (length d <= 4)%nat -> (length c <= 4)%nat -> (length j <= 4)%nat ->
  secondPass (chunk :: rest) s out = secondPass rest s (out ++ cOutput d c j).
Proof. apply secondPass_cOutput. Qed.

Lemma c_line_output_witness :
  secondPass [$"D=Q" ++ [CR; LF]; $"0;JMP" ++ [CR; LF]] (varInit staticState) []
  = Ok (varInit staticState, $"1110101010000111" ++ [LF]).
Proof.
  rewrite (c_line_output $"D" $"Q" [] ($"D=Q" ++ [CR; LF]));
    [ | reflexivity | apply (bool_decide_unpack _); vm_compute; exact I
      | by apply cLine_dest_comp
      | apply (bool_decide_unpack _); vm_compute; exact I
      | apply (bool_decide_unpack _); vm_compute; exact I
      | apply (bool_decide_unpack _); vm_compute; exact I
      | simpl; lia | simpl; lia | simpl; lia ].
  rewrite (c_line_output [] $"0" $"JMP" ($"0;JMP" ++ [CR; LF]));
    [ reflexivity | reflexivity | apply (bool_decide_unpack _); vm_compute; exact I
      | by apply cLine_comp_jump
      | apply (bool_decide_unpack _); vm_compute; exact I
      | apply (bool_decide_unpack _); vm_compute; exact I
      | apply (bool_decide_unpack _); vm_compute; exact I
      | simpl; lia | simpl; lia | simpl; lia ].
Defined.

(** X5: the loop for the destination copies characters until it meets an
    equals sign or a semicolon.  When neither is among the first five
    characters of a line and the sixth is not a semicolon, the loop, or
    the write of the zero byte after it, goes past the five bytes of
    [destFldString].  A line with an operation alone, like [D+1], is such
    a line. *)
Theorem destination_scan_overflows (chunk cs tl : list ascii) (x : ascii) (s : State) :
  cStart chunk -> lineBuffer chunk = cs ++ x :: tl -> length cs = 5%nat ->
  "="%char ∉ cs -> ";"%char ∉ cs -> x <> ";"%char ->
  lineParser (lineBuffer chunk) s = Undefined (OutOfBounds "destFldString").
Proof.
  intros Hst Hbuf Lc H1 H2 Hx. rewrite lineParser_cStart by done. rewrite Hbuf.
  rewrite parseC_parseRest, destLoop_copyUntil.
  destruct (copyUntil_overflow (is_either "=" ";") "destFldString" 5 x tl cs 0%nat
              (destFldString (gInsFields s))) as [-> | [Hstop [a' ->]]];
    [by apply no_stops | lia | done |].
  rewrite !bind_Ok. cbv beta iota. unfold is_either in Hstop.
  destruct (Ascii.eqb_spec x "=") as [->|_].
  - change (SYSTEM_SUCCESS =? SYSTEM_SUCCESS) with true. cbv iota.
    unfold store at 1. by rewrite Nat.ltb_irrefl.
  - by destruct (Ascii.eqb_spec x ";").
Qed.

Lemma destination_scan_overflows_witness :
  lineParser (lineBuffer ($"D+1" ++ [CR; LF])) (varInit staticState)
  = Undefined (OutOfBounds "destFldString").
Proof.
  apply (destination_scan_overflows _ ($"D+1" ++ [CR; LF]) (replicate 94 NUL) NUL).
  - apply (bool_decide_unpack _). vm_compute. exact I.
  - reflexivity.
  - reflexivity.
  - apply (bool_decide_unpack _). vm_compute. exact I.
  - apply (bool_decide_unpack _). vm_compute. exact I.
  - discriminate.
Defined.

(** X6: an operation of five or more characters after the equals sign
    does not fit the five bytes of [cmpFldString]: the parser writes past
    the array. *)
Theorem long_operation_overflows (d c tl : list ascii) (x : ascii) (s : State) :
  fresh s -> cStart (d ++ $"=" ++ c ++ x :: tl) ->
  plain d -> (length d <= 4)%nat ->
  length c = 5%nat -> ";"%char ∉ c -> CR ∉ c ->
  lineParser (lineBuffer (d ++ $"=" ++ c ++ x :: tl)) s = Undefined (OutOfBounds "cmpFldString").
Proof.
  intros Hs Hst Hd Ld Lc H1 H2. rewrite lineParser_cStart by done.
  rewrite lineBuffer_tail. rewrite <- !app_assoc. cbn [app list_ascii_of_string].
  rewrite parseC_dest by done. by apply parseRest_long_comp.
Qed.

Lemma long_operation_overflows_witness :
  lineParser (lineBuffer ($"D=D+A+1" ++ [CR; LF])) (varInit staticState)
  = Undefined (OutOfBounds "cmpFldString").
Proof.
  apply (long_operation_overflows $"D" $"D+A+1" [LF] CR).
  - reflexivity.
  - apply (bool_decide_unpack _). vm_compute. exact I.
  - apply (bool_decide_unpack _). vm_compute. exact I.
  - simpl. lia.
  - reflexivity.
  - apply (bool_decide_unpack _). vm_compute. exact I.
  - apply (bool_decide_unpack _). vm_compute. exact I.
Defined.

(** X7: a jump of five or more characters after the semicolon does not
    fit the five bytes of [jmpFldString]: the parser writes past the
    array. *)
Theorem long_jump_overflows (chunk d c j tl : list ascii) (x : ascii) (s : State) :
  fresh s -> cStart chunk ->
  chunk = d ++ $"=" ++ c ++ $";" ++ j ++ x :: tl \/
  (d = [] /\ chunk = c ++ $";" ++ j ++ x :: tl) ->
  plain d -> plain c -> (length d <= 4)%nat -> (length c <= 4)%nat ->
  length j = 5%nat -> CR ∉ j -> " "%char ∉ j ->
  lineParser (lineBuffer chunk) s = Undefined (OutOfBounds "jmpFldString").
Proof.
  intros Hs Hst Hchunk Hd Hc Ld Lc Lj H1 H2. rewrite lineParser_cStart by done.
  rewrite lineBuffer_tail. destruct Hchunk as [-> | [-> ->]].
  - rewrite <- !app_assoc. cbn [app list_ascii_of_string].
    rewrite parseC_dest by done. by apply parseRest_long_jump.
  - rewrite <- !app_assoc. cbn [app list_ascii_of_string].
    rewrite parseC_nodest by (try done; lia). by apply parseRest_long_jump.
Qed.

Lemma long_jump_overflows_witness :
  lineParser (lineBuffer ($"0;JMPJMP" ++ [CR; LF])) (varInit staticState)
  = Undefined (OutOfBounds "jmpFldString").
Proof.
  apply (long_jump_overflows _ [] $"0" $"JMPJM" [CR; LF] "P"%char).
  - reflexivity.
  - apply (bool_decide_unpack _). vm_compute. exact I.
  - right. split; reflexivity.
  - apply (bool_decide_unpack _). vm_compute. exact I.
  - apply (bool_decide_unpack _). vm_compute. exact I.
  - simpl. lia.
  - simpl. lia.
  - reflexivity.
  - apply (bool_decide_unpack _). vm_compute. exact I.
  - apply (bool_decide_unpack _). vm_compute. exact I.
Defined.

(** X8: a space ends the jump field.  What follows the space on the
    line, a comment say, is not read: the parser calls [lineCommand] with
    the fields before it. *)
Theorem jump_ends_at_space (chunk d c j tl : list ascii) (s : State) :
  fresh s -> cStart chunk ->
  chunk = d ++ $"=" ++ c ++ $";" ++ j ++ " "%char :: tl \/
  (d = [] /\ chunk = c ++ $";" ++ j ++ " "%char :: tl) ->
  plain d -> plain c -> plain j ->
  (length d <= 4)%nat -> (length c <= 4)%nat -> (length j <= 4)%nat ->
  lineParser (lineBuffer chunk) s = lineCommand (cState s d c j).
Proof.
  intros Hs Hst Hchunk Hd Hc Hj Ld Lc Lj. rewrite lineParser_cStart by done.
  rewrite lineBuffer_tail. destruct Hchunk as [-> | [-> ->]].
  - rewrite <- !app_assoc. cbn [app list_ascii_of_string].
    rewrite parseC_dest by done. apply parseRest_fields; auto.
  - rewrite <- !app_assoc. cbn [app list_ascii_of_string].
    rewrite parseC_nodest by (try done; lia). apply parseRest_fields; auto.
Qed.

Lemma jump_ends_at_space_witness :
  lineParser (lineBuffer ($"D;JGT // if D > 0" ++ [CR; LF])) (varInit staticState)
  = lineCommand (cState (varInit staticState) [] $"D" $"JGT").
Proof.
  apply (jump_ends_at_space _ [] $"D" $"JGT" ($"// if D > 0" ++ [CR; LF])).
  - reflexivity.
  - apply (bool_decide_unpack _). vm_compute. exact I.
  - right. split; reflexivity.
  - apply (bool_decide_unpack _). vm_compute. exact I.
  - apply (bool_decide_unpack _). vm_compute. exact I.
  - apply (bool_decide_unpack _). vm_compute. exact I.
  - simpl. lia.
  - simpl. lia.
  - simpl. lia.
Defined.

(** ** The operand of an A instruction *)





Lemma addrLoop_overflow chars : forall addr,
  Forall (fun c => is_digit c = true) chars -> (length chars <= 256)%nat ->
  0 <= addr <= 65535 -> 65535 < addr + pval chars ->
  addrLoop chars (wrap8 (Z.of_nat (length chars) - 1)) addr = Undefined FloatToInt.
Proof.
  induction chars as [|c chars IH]; intros addr Hd Hlen Ha Hv.
  - simpl in Hv. lia.
  - apply Forall_cons in Hd as [Hc Hd]. simpl in Hlen. cbn [addrLoop pval] in *.
    replace (Z.of_nat (length (c :: chars)) - 1) with (Z.of_nat (length chars)) by (simpl; lia).
    rewrite (wrap8_small (Z.of_nat (length chars))) by lia.
    fold (digitOf c).
    assert (0 <= digitOf c * 10 ^ Z.of_nat (length chars)).
    { apply is_digit_code in Hc. unfold digitOf. change (code "0") with 48.
      assert (0 <= 10 ^ Z.of_nat (length chars)) by (apply Z.pow_nonneg; lia). nia. }
    destruct (Z.leb_spec 0 (addr + digitOf c * 10 ^ Z.of_nat (length chars))); [|lia].
    destruct (Z.leb_spec (addr + digitOf c * 10 ^ Z.of_nat (length chars)) 65535); [|done].
    simpl andb. cbv iota. apply IH; [done | lia | lia | lia].
Qed.

(** X10: a decimal literal above 65535 takes the sum that [lineCommand]
    forms out of the range of [uint16_t].  The conversion of the [double]
    is then undefined in C; the program makes no check before it. *)
Theorem literal_too_large (ds : list ascii) (n : Z) (s : State) :
  fresh s -> decimalOf ds n -> 65535 < n ->
  lineParser (lineBuffer (aLiteral ds)) s = Undefined FloatToInt.
Proof.
  intros Hs (Hne & Hds & Hlen & Hn) Hv. unfold aLiteral.
  rewrite lineBuffer_cons by (rewrite length_app; simpl; unfold LINEBUFFER_SIZE; lia).
  rewrite <- app_assoc. cbn [app].
  destruct ds as [|d ds'] eqn:E; [done|]. rewrite <- E in *.
  assert (exists x r, ds ++ CR :: LF :: replicate (LINEBUFFER_SIZE - 1 - length (ds ++ [CR; LF])) NUL = x :: r)
    as (x & r & Hx) by (rewrite E; simpl; eauto).
  rewrite Hx, lineParser_at, <- Hx. unfold parseA.
  rewrite parseAOperand_literal by done. rewrite bind_Ok.
  unfold lineCommand. cbn [set_addFldString set_fields gInsFields addFldString].
  assert (nth 0 (ds ++ NUL :: replicate (9 - length ds) INVALID_VALUE) NUL <> INVALID_VALUE) as Hnth.
  { rewrite E. simpl. apply is_digit_valid. rewrite E in Hds. by apply Forall_inv in Hds. }
  destruct (Ascii.eqb_spec (nth 0 (ds ++ NUL :: replicate (9 - length ds) INVALID_VALUE) NUL)
              INVALID_VALUE) as [|_]; [done|].
  simpl negb. cbv iota.
  rewrite read_cstr_app by (apply digits_no; done). rewrite bind_Ok.
  rewrite addrLoop_overflow; [done | done | lia | lia |].
  rewrite pval_decimalValue. lia.
Qed.

Lemma literal_too_large_witness :
  lineParser (lineBuffer (aLiteral $"65536")) (varInit staticState) = Undefined FloatToInt.
Proof.
  apply (literal_too_large $"65536" 65536).
  - reflexivity.
  - split; [discriminate|]. split; [repeat constructor|]. split; [simpl; lia | reflexivity].
  - lia.
Defined.

(** X11: when an operand begins with a character up to the digit 9 and
    has no carriage return among its first ten characters, the parser
    writes past the ten bytes of [addFldString].  A literal of ten or more
    digits is such an operand. *)
Theorem long_literal_overflows (chunk ds tl : list ascii) (c x : ascii) (s : State) :
  lineBuffer chunk = "@"%char :: (c :: ds) ++ x :: tl ->
  code c <= code "9" -> length (c :: ds) = 10%nat -> CR ∉ c :: ds ->
  lineParser (lineBuffer chunk) s = Undefined (OutOfBounds "addFldString").
Proof.
  intros -> Hc Hl Hno. cbn [app]. rewrite lineParser_at. unfold parseA, parseAOperand.
  destruct (Z.gtb_spec (code c) (code "9")) as [?|_]; [lia|].
  change (c :: ds ++ x :: tl) with ((c :: ds) ++ x :: tl).
  rewrite (copyUntil_overflow_store (is_char CR) "addFldString" 10 x tl (c :: ds) _
             (fun _ add => Ok (set_addFldString s add))); [done | | done].
  apply Forall_forall. intros ch Hch. unfold is_char.
  by destruct (Ascii.eqb_spec ch CR) as [->|_].
Qed.

Lemma long_literal_overflows_witness :
  lineParser (lineBuffer ($"@0000000016" ++ [CR; LF])) (varInit staticState)
  = Undefined (OutOfBounds "addFldString").
Proof.
  apply (long_literal_overflows _ $"000000016" (LF :: replicate 87 NUL) "0"%char CR).
  - reflexivity.
  - vm_compute. discriminate.
  - reflexivity.
  - apply (bool_decide_unpack _). vm_compute. exact I.
Defined.

(** X12: the address of a symbol goes through its decimal digits.
    [searchSymbolEntry] writes a value from 0 to 65535 to [addFldString]
    as a string of decimal digits that denotes it (the empty string for
    0); [lineCommand] reads the string back to the same value and writes
    its 16 binary digits, which denote the value again. *)
Theorem decimal_round_trip (v : Z) (s : State) :
  fresh s -> 0 <= v <= 65535 ->
  exists s1,
    writeAddress v s = Ok s1 /\
    decimalValue (cstr (addFldString (gInsFields s1))) = v /\
    lineCommand s1 = Ok (SYSTEM_SUCCESS, set_bitFields s1 (binary16 v ++ [NUL])) /\
    wordValue (binary16 v) = v.
Proof.
  intros Hs Hv. destruct (writeAddress_spec v s Hs ltac:(lia)) as (ds & Hw & Hds & Hval & Hl).
  eexists. split; [exact Hw|]. split; [|split].
  - cbn [set_addFldString set_fields gInsFields addFldString].
    rewrite cstr_app_nul; [done | by apply digits_no].
  - erewrite lineCommand_address; [by rewrite Hval | reflexivity | done | lia | lia].
  - apply wordValue_binary16. lia.
Qed.

Lemma decimal_round_trip_witness :
  exists s1,
    writeAddress 24576 (varInit staticState) = Ok s1 /\
    decimalValue (cstr (addFldString (gInsFields s1))) = 24576 /\
    lineCommand s1 = Ok (SYSTEM_SUCCESS, set_bitFields s1 (binary16 24576 ++ [NUL])) /\
    wordValue (binary16 24576) = 24576.
Proof. apply (decimal_round_trip 24576 (varInit staticState)); [reflexivity | lia]. Defined.

(** X13: a reference to a predefined symbol (R0 to R15, SCREEN, KBD, SP,
    LCL, ARG, THIS, THAT) is written as the word of its predefined value
    and leaves the state as it was, whatever labels and variables have
    been appended to the table. *)
Theorem predefined_symbols (e : Symbol_Table) (s : State) (rest : list (list ascii))
    (out : list ascii) :
  e ∈ initialSymbolTable -> fresh s ->
  (exists ext, gSymbolTable s = initialSymbolTable ++ ext) ->
  secondPass (aSymbol (cstr (symbol e)) :: rest) s out
  = secondPass rest s (out ++ binary16 (value e) ++ [LF]).
Proof.
  intros He Hs [ext Hext].
  assert (Forall (fun e => symbolName (cstr (symbol e)) /\
                           findEntry (cstr (symbol e)) initialSymbolTable = Some (value e) /\
                           0 <= value e <= 65535) initialSymbolTable) as Hall.
  { apply (bool_decide_unpack _). vm_compute. exact I. }
  destruct (proj1 (Forall_forall _ _) Hall e He) as (Hn & Hf & Hv).
  apply secondPass_symbol; [done | done | | done].
  apply resolveSymbol_found. rewrite Hext. by apply findEntry_app.
Qed.

Lemma predefined_symbols_witness :
  secondPass [aSymbol $"SCREEN"] keep_first_after [] = Ok (keep_first_after, binary16 16384 ++ [LF]).
Proof.
  apply (predefined_symbols (sym "SCREEN" 16384) keep_first_after [] []).
  - repeat constructor.
  - reflexivity.
  - exists [sym "SCREEN" 0]. reflexivity.
Defined.

(** ** What a successful [lineCommand] leaves in [bitFields] *)

Lemma lineCommand_C_success s s' :
  nth 0 (addFldString (gInsFields s)) NUL = INVALID_VALUE ->
  lineCommand s = Ok (SYSTEM_SUCCESS, s') ->
  exists ec ed ej,
    ec ∈ compFieldLT /\ ed ∈ destFieldLT /\ ej ∈ jumpFieldLT /\
    cstr (mnemonic ec) = cstr (cmpFldString (gInsFields s)) /\
    cstr (mnemonic ed) = cstr (destFldString (gInsFields s)) /\
    cstr (mnemonic ej) = cstr (jmpFldString (gInsFields s)) /\
    s' = set_bitFields s (cWord ec ed ej ++ [NUL]).
Proof.
  intros Hadd. unfold lineCommand. rewrite Hadd.
  change (negb (INVALID_VALUE =? INVALID_VALUE)%char) with false. cbv iota.
  unfold COMP_FIELD_LEN, DEST_FIELD_LEN, JUMP_FIELD_LEN, C_INST_PAD_LEN.
  change (<[2%nat:="1"%char]> (<[1%nat:="1"%char]> (<[0%nat:="1"%char]> (replicate 17 NUL))))
    with ($"111" ++ replicate (17 - 3) NUL).
  destruct (lookupLT _ compFieldLT) as [bc|] eqn:Ec; [|discriminate].
  apply lookupLT_Some in Ec as (ec & Hec & -> & Mc).
  pose proof (proj1 (Forall_forall _ _) compFieldLT_width ec Hec) as Wc.
  unfold COMP_FIELD_LEN in Wc.
  rewrite strcpy_bits by (simpl; lia). rewrite bind_Ok, Wc.
  destruct (lookupLT _ destFieldLT) as [bd|] eqn:Ed; [|discriminate].
  apply lookupLT_Some in Ed as (ed & Hed & -> & Md).
  pose proof (proj1 (Forall_forall _ _) destFieldLT_width ed Hed) as Wd.
  unfold DEST_FIELD_LEN in Wd.
  rewrite strcpy_bits by (rewrite ?length_app; simpl; lia). rewrite bind_Ok, Wd.
  destruct (lookupLT _ jumpFieldLT) as [bj|] eqn:Ej; [|discriminate].
  apply lookupLT_Some in Ej as (ej & Hej & -> & Mj).
  pose proof (proj1 (Forall_forall _ _) jumpFieldLT_width ej Hej) as Wj.
  unfold JUMP_FIELD_LEN in Wj.
  rewrite strcpy_bits by (rewrite ?length_app; simpl; lia). rewrite bind_Ok, Wj.
  rewrite store_Ok by lia. rewrite bind_Ok. intros [= <-].
  exists ec, ed, ej. repeat (split; [done|]). f_equal.
  unfold cWord. rewrite <- !app_assoc.
  rewrite !app_assoc. rewrite insert_app_r_alt by (rewrite !length_app; simpl; lia).
  rewrite !length_app. simpl length. rewrite Wc, Wd, Wj. reflexivity.
Qed.

Lemma table_bits :
  Forall (fun e => Forall (fun c => c = "0"%char \/ c = "1"%char) (binary e))
         (compFieldLT ++ destFieldLT ++ jumpFieldLT).
Proof. apply (bool_decide_unpack _). vm_compute. exact I. Qed.

Lemma cWord_isWord ec ed ej :
  ec ∈ compFieldLT -> ed ∈ destFieldLT -> ej ∈ jumpFieldLT -> isWord (cWord ec ed ej).
Proof.
  intros Hc Hd Hj.
  pose proof (proj1 (Forall_forall _ _) compFieldLT_width ec Hc) as Wc.
  pose proof (proj1 (Forall_forall _ _) destFieldLT_width ed Hd) as Wd.
  pose proof (proj1 (Forall_forall _ _) jumpFieldLT_width ej Hj) as Wj.
  pose proof (proj1 (Forall_forall _ _) table_bits) as Hb.
  split.
  - simpl in Wc, Wd, Wj. unfold cWord. rewrite !length_app, Wc, Wd, Wj. reflexivity.
  - unfold cWord. rewrite !Forall_app. split; [repeat (constructor; [by right|]); constructor|].
    split; [|split]; apply Hb; rewrite !elem_of_app; auto.
Qed.

Lemma binary16_isWord n : isWord (binary16 n).
Proof. split; [apply length_binary16 | apply binary16_bits]. Qed.

Lemma parseC_lineCommand line s r :
  parseC line s = Ok r ->
  exists dest jmp cmp,
    lineCommand (set_fields s (mkFields dest jmp cmp
                   (<[0%nat := INVALID_VALUE]> (addFldString (gInsFields s)))
                   (bitFields (gInsFields s)))) = Ok r.
Proof.
  unfold parseC. intros H. inv_bind H. destruct a as [[[st0 p] i] d].
  inv_bind H. destruct a as [p1 d1]. inv_bind H. destruct a as [[p2 i2] c2].
  inv_bind H. inv_bind H. eauto.
Qed.

(** A line that [lineParser] accepts leaves a word in [bitFields]. *)
Lemma lineParser_success line s s' :
  fresh s -> lineParser line s = Ok (SYSTEM_SUCCESS, s') ->
  exists w, isWord w /\ bitFields (gInsFields s') = w ++ [NUL].
Proof.
  intros Hs. unfold lineParser. destruct line as [|c0 [|c1 line]]; [done|done|].
  destruct (_ && _); [discriminate|].
  destruct (c0 =? CR)%char; [discriminate|].
  destruct (c0 =? "@")%char.
  - unfold parseA. intros H. inv_bind H. apply parseAOperand_first in E; [|done].
    apply lineCommand_address_shape in H as [_ [addr ->]]; [|done].
    exists (binary16 addr). split; [apply binary16_isWord | reflexivity].
  - destruct (c0 =? "(")%char.
    + unfold parseLabel. intros H. inv_bind H. destruct a as [[p i] str].
      repeat inv_bind H. discriminate.
    + intros H. apply parseC_lineCommand in H as (dest & jmp & cmp & H).
      apply lineCommand_C_success in H as (ec & ed & ej & Hc & Hd & Hj & _ & _ & _ & ->).
      * exists (cWord ec ed ej). split; [by apply cWord_isWord | reflexivity].
      * cbn [set_fields gInsFields addFldString]. by rewrite Hs.
Qed.

Lemma isWord_no_nul w : isWord w -> NUL ∉ w.
Proof.
  intros [_ Hb] Hin. rewrite Forall_forall in Hb. by destruct (Hb _ Hin).
Qed.

Lemma secondPass_words lines : forall s out s' out',
  fresh s -> secondPass lines s out = Ok (s', out') ->
  exists ws, out' = out ++ concat (map (fun w => w ++ [LF]) ws) /\
             Forall isWord ws /\ (length ws <= length lines)%nat.
Proof.
  induction lines as [|chunk lines IH]; intros s out s' out' Hs H.
  - injection H as <- <-. exists []. simpl. by rewrite app_nil_r.
  - cbn [secondPass] in H. inv_bind H. destruct a as [st s1].
    destruct (Z.eqb_spec st SYSTEM_SUCCESS) as [->|Hst].
    + apply lineParser_success in E as (w & Hw & Hbits); [|done].
      inv_bind H. unfold lineWriter in E. rewrite Hbits in E.
      rewrite read_cstr_app, bind_Ok in E by (by apply isWord_no_nul). injection E as <-.
      apply IH in H as (ws & -> & Hws & Hl); [|reflexivity].
      exists (w :: ws). split; [|split].
      * simpl. by rewrite <- !app_assoc.
      * by constructor.
      * simpl. lia.
    + rewrite bind_Ok in H. apply IH in H as (ws & -> & Hws & Hl); [|reflexivity].
      exists ws. split; [done|]. split; [done|]. simpl. lia.
Qed.

Lemma firstPassLine_fields chunk n s n' s' :
  firstPassLine chunk n s = Ok (n', s') ->
  currMemory s' = currMemory s /\ gInsFields s' = gInsFields s.
Proof.
  unfold firstPassLine. destruct (lineBuffer chunk) as [|c0 [|c1 line]]; [done|done|].
  destruct (_ && _); [by intros [= <- <-]|].
  destruct (c0 =? CR)%char; [by intros [= <- <-]|].
  destruct (c0 =? "(")%char; [|by intros [= <- <-]].
  destruct (_ <? _); [|done]. intros H. inv_bind H. destruct a as [[p i] a].
  inv_bind H. by injection H as <- <-.
Qed.

Lemma firstPassLoop_fields lines : forall n s s',
  firstPassLoop lines n s = Ok s' ->
  currMemory s' = currMemory s /\ gInsFields s' = gInsFields s.
Proof.
  induction lines as [|chunk lines IH]; intros n s s' H.
  - by injection H as <-.
  - cbn [firstPassLoop] in H. inv_bind H. destruct a as [n1 s1].
    apply firstPassLine_fields in E as [E1 E2]. apply IH in H as [H1 H2].
    split; congruence.
Qed.

(** X14: whatever the input, when the program runs to its end the
    output consists of lines of exactly sixteen binary digits, each ended
    by a line feed, and there is at most one of them for each line
    read. *)
Theorem output_is_words (input out : list ascii) :
  main input = Ok out ->
  exists ws, out = concat (map (fun w => w ++ [LF]) ws) /\
             Forall isWord ws /\ (length ws <= length (fileLines input))%nat.
Proof.
  unfold main. intros H. inv_bind H. unfold firstPass in E.
  apply firstPassLoop_fields in E as [_ Hf]. inv_bind H. destruct a0 as [s' out'].
  injection H as <-. by apply secondPass_words in E.
Qed.

Lemma output_is_words_witness :
  exists ws, lf ["0000000000000010"; "1110110000010000"]%string
             = concat (map (fun w => w ++ [LF]) ws) /\
             Forall isWord ws /\ (length ws <= length (fileLines (crlf ["@2"; "D=A"]%string)))%nat.
Proof. apply (output_is_words (crlf ["@2"; "D=A"]%string)). vm_compute. reflexivity. Defined.

(** ** Distinct instructions, distinct words *)

Lemma binary_inj table e e' :
  NoDup (map binary table) -> e ∈ table -> e' ∈ table -> binary e = binary e' -> e = e'.
Proof.
  induction table as [|x table IH]; intros Hnd He He' Hb; [by apply elem_of_nil in He|].
  apply NoDup_cons in Hnd as [Hx Hnd].
  apply elem_of_cons in He as [->|He]; apply elem_of_cons in He' as [->|He']; auto.
  - exfalso. apply Hx. rewrite Hb. apply list_elem_of_fmap. eauto.
  - exfalso. apply Hx. rewrite <- Hb. apply list_elem_of_fmap. eauto.
Qed.

Lemma tables_binary_NoDup :
  NoDup (map binary compFieldLT) /\ NoDup (map binary destFieldLT) /\
  NoDup (map binary jumpFieldLT).
Proof. repeat split; apply (bool_decide_unpack _); vm_compute; exact I. Qed.

Lemma cWord_inj ec ed ej ec' ed' ej' :
  ec ∈ compFieldLT -> ed ∈ destFieldLT -> ej ∈ jumpFieldLT ->
  ec' ∈ compFieldLT -> ed' ∈ destFieldLT -> ej' ∈ jumpFieldLT ->
  cWord ec ed ej = cWord ec' ed' ej' -> ec = ec' /\ ed = ed' /\ ej = ej'.
Proof.
  intros Hc Hd Hj Hc' Hd' Hj' H. unfold cWord in H.
  apply app_inv_head in H.
  apply app_inj_1 in H as [H1 H]; first last.
  { rewrite (proj1 (Forall_forall _ _) compFieldLT_width ec Hc).
    by rewrite (proj1 (Forall_forall _ _) compFieldLT_width ec' Hc'). }
  apply app_inj_1 in H as [H2 H3]; first last.
  { rewrite (proj1 (Forall_forall _ _) destFieldLT_width ed Hd).
    by rewrite (proj1 (Forall_forall _ _) destFieldLT_width ed' Hd'). }
  destruct tables_binary_NoDup as (N1 & N2 & N3).
  split; [|split].
  - exact (binary_inj compFieldLT _ _ N1 Hc Hc' H1).
  - exact (binary_inj destFieldLT _ _ N2 Hd Hd' H2).
  - exact (binary_inj jumpFieldLT _ _ N3 Hj Hj' H3).
Qed.

(** X15: two C instructions that [lineCommand] accepts and encodes by
    the same word have the same operation, the same destination and the
    same jump: no two mnemonics of a table share their bits. *)
Theorem c_encoding_injective (s t s' t' : State) :
  nth 0 (addFldString (gInsFields s)) NUL = INVALID_VALUE ->
  nth 0 (addFldString (gInsFields t)) NUL = INVALID_VALUE ->
  lineCommand s = Ok (SYSTEM_SUCCESS, s') ->
  lineCommand t = Ok (SYSTEM_SUCCESS, t') ->
  bitFields (gInsFields s') = bitFields (gInsFields t') ->
  cstr (cmpFldString (gInsFields s)) = cstr (cmpFldString (gInsFields t)) /\
  cstr (destFldString (gInsFields s)) = cstr (destFldString (gInsFields t)) /\
  cstr (jmpFldString (gInsFields s)) = cstr (jmpFldString (gInsFields t)).
Proof.
  intros Hs Ht H1 H2 Hb.
  apply lineCommand_C_success in H1 as (ec & ed & ej & Hc & Hd & Hj & Mc & Md & Mj & ->); [|done].
  apply lineCommand_C_success in H2 as (ec' & ed' & ej' & Hc' & Hd' & Hj' & Mc' & Md' & Mj' & ->);
    [|done].
  cbn [set_bitFields set_fields gInsFields bitFields] in Hb.
  apply app_inj_2 in Hb as [Hb _]; [|done].
  apply cWord_inj in Hb as (-> & -> & ->); try done.
  repeat split; congruence.
Qed.

Lemma c_encoding_injective_witness :
  cstr (cmpFldString (gInsFields computation_encoding_state))
  = cstr (cmpFldString (gInsFields (cState keep_first_after $"D" $"A" []))) /\
  cstr (destFldString (gInsFields computation_encoding_state))
  = cstr (destFldString (gInsFields (cState keep_first_after $"D" $"A" []))) /\
  cstr (jmpFldString (gInsFields computation_encoding_state))
  = cstr (jmpFldString (gInsFields (cState keep_first_after $"D" $"A" []))).
Proof.
  eapply (c_encoding_injective computation_encoding_state (cState keep_first_after $"D" $"A" [])).
  - reflexivity.
  - reflexivity.
  - vm_compute. reflexivity.
  - vm_compute. reflexivity.
  - reflexivity.
Defined.

(** ** What the first pass changes *)

Lemma wrap32_bounds n : 0 <= n -> 0 <= wrap32 (n + 1) <= n + 1.
Proof.
  intros H. unfold wrap32. split; [apply Z.mod_pos_bound; lia|].
  apply Z.mod_le; lia.
Qed.

Lemma firstPassLine_appends chunk n s n' s' :
  0 <= n -> firstPassLine chunk n s = Ok (n', s') ->
  0 <= n' <= n + 1 /\
  exists ext, gSymbolTable s' = gSymbolTable s ++ ext /\ (length ext <= 1)%nat /\
              Forall (fun e => value e = n) ext.
Proof.
  intros Hn. unfold firstPassLine.
  destruct (lineBuffer chunk) as [|c0 [|c1 line]]; [done|done|].
  assert (forall n0 s0, Ok (n, s) = Ok (n0, s0) ->
            0 <= n0 <= n + 1 /\
            exists ext, gSymbolTable s0 = gSymbolTable s ++ ext /\ (length ext <= 1)%nat /\
                        Forall (fun e => value e = n) ext) as Hsame.
  { intros n0 s0 [= <- <-]. split; [lia|]. exists []. rewrite app_nil_r. simpl.
    split; [done|]. split; [lia | constructor]. }
  destruct (_ && _); [apply Hsame|].
  destruct (c0 =? CR)%char; [apply Hsame|].
  destruct (c0 =? "(")%char.
  - destruct (_ <? _); [|done]. intros H. inv_bind H. destruct a as [[p i] a].
    inv_bind H. injection H as <- <-. split; [lia|]. eexists. split; [reflexivity|].
    simpl. split; [lia|]. by repeat constructor.
  - intros [= <- <-]. pose proof (wrap32_bounds n Hn). split; [lia|].
    exists []. rewrite app_nil_r. simpl. split; [done|]. split; [lia | constructor].
Qed.

Lemma firstPassLoop_appends lines : forall n s s',
  0 <= n -> firstPassLoop lines n s = Ok s' ->
  exists ext, gSymbolTable s' = gSymbolTable s ++ ext /\ (length ext <= length lines)%nat /\
              Forall (fun e => 0 <= value e <= n + Z.of_nat (length lines)) ext.
Proof.
  induction lines as [|chunk lines IH]; intros n s s' Hn H.
  - injection H as <-. exists []. rewrite app_nil_r. simpl. split; [done|]. split; [lia|constructor].
  - cbn [firstPassLoop] in H. inv_bind H. destruct a as [n1 s1].
    apply firstPassLine_appends in E as (Hn1 & e1 & He1 & Hl1 & Hv1); [|done].
    apply IH in H as (e2 & He2 & Hl2 & Hv2); [|lia].
    exists (e1 ++ e2). split; [by rewrite He2, He1, app_assoc|]. split.
    + rewrite length_app. simpl. lia.
    + apply Forall_app. split.
      * eapply Forall_impl; [exact Hv1|]. intros e He. cbv beta in He.
        change (length (chunk :: lines)) with (S (length lines)). lia.
      * eapply Forall_impl; [exact Hv2|]. intros e He. cbv beta in He.
        change (length (chunk :: lines)) with (S (length lines)). lia.
Qed.

(** X16: the first pass leaves [currMemory] and the per-line record as
    they were and only appends to the symbol table: at most one element
    for each line read, each with a value between 0 and the number of
    lines. *)
Theorem first_pass_only_appends_labels (lines : list (list ascii)) (s s' : State) :
  firstPass lines s = Ok s' ->
  currMemory s' = currMemory s /\ gInsFields s' = gInsFields s /\
  exists ext, gSymbolTable s' = gSymbolTable s ++ ext /\
              (length ext <= length lines)%nat /\
              Forall (fun e => 0 <= value e <= Z.of_nat (length lines)) ext.
Proof.
  unfold firstPass. intros H.
  destruct (firstPassLoop_fields _ _ _ _ H) as [H1 H2].
  apply firstPassLoop_appends in H as (ext & He & Hl & Hv); [|lia].
  split; [done|]. split; [done|]. exists ext. split; [done|]. split; [done|].
  eapply Forall_impl; [exact Hv|]. intros e He'. cbv beta in He'. lia.
Qed.

Lemma first_pass_only_appends_labels_witness :
  exists s',
    firstPass (map render loopProgram) (varInit staticState) = Ok s' /\
    currMemory s' = 16 /\ gInsFields s' = varInit_fields /\
    exists ext, gSymbolTable s' = initialSymbolTable ++ ext /\
                (length ext <= 8)%nat /\ Forall (fun e => 0 <= value e <= 8) ext.
Proof.
  eexists. split; [vm_compute; reflexivity|].
  apply (first_pass_only_appends_labels (map render loopProgram) (varInit staticState)).
  vm_compute. reflexivity.
Defined.

(** ** A label without its closing parenthesis *)

Lemma copyUntil_end stop w size ptr : forall index a,
  Forall (fun c => stop c = false) ptr -> (index + length ptr <= size)%nat ->
  copyUntil stop w size ptr index a = Undefined (OutOfBounds "lineBuffer").
Proof.
  induction ptr as [|c ptr IH]; intros index a Hp Hl; [done|].
  apply Forall_cons in Hp as [Hc Hp]. simpl in Hl. cbn [copyUntil]. rewrite Hc.
  rewrite store_Ok by lia. rewrite bind_Ok. apply IH; [done | lia].
Qed.

Lemma lineBuffer_unclosed chunk :
  head chunk = Some "("%char -> ")"%char ∉ chunk -> (length chunk < LINEBUFFER_SIZE)%nat ->
  exists c1 ptr, lineBuffer chunk = "("%char :: c1 :: ptr /\
                 Forall (fun c => is_char ")" c = false) (c1 :: ptr) /\
                 length (c1 :: ptr) = 99%nat.
Proof.
  intros Hh Hno Hl. destruct chunk as [|c chunk]; [done|]. injection Hh as ->.
  apply not_elem_of_cons in Hno as [_ Hno]. simpl in Hl. unfold LINEBUFFER_SIZE in Hl.
  rewrite lineBuffer_cons by (unfold LINEBUFFER_SIZE; lia). unfold LINEBUFFER_SIZE.
  assert (Forall (fun c => is_char ")" c = false) (chunk ++ replicate (100 - 1 - length chunk) NUL)) as Hf.
  { apply Forall_app. split.
    - apply Forall_forall. intros c Hc. unfold is_char.
      by destruct (Ascii.eqb_spec c ")") as [->|_].
    - apply Forall_replicate. reflexivity. }
  assert (length (chunk ++ replicate (100 - 1 - length chunk) NUL) = 99%nat) as Hlen.
  { rewrite length_app, length_replicate. lia. }
  destruct (chunk ++ replicate (100 - 1 - length chunk) NUL) as [|c1 ptr]; [done|].
  eauto.
Qed.

(** X17: a line that begins with an opening parenthesis and holds no
    closing one makes the label loop, in the first pass and in the parser
    of the second, run through the line buffer and read past its end. *)
Theorem unclosed_label_overruns (chunk : list ascii) (n : Z) (s : State) :
  head chunk = Some "("%char -> ")"%char ∉ chunk -> (length chunk < LINEBUFFER_SIZE)%nat ->
  Z.of_nat (symbolTableTail s) < SYMBOLTABLE_SIZE ->
  firstPassLine chunk n s = Undefined (OutOfBounds "lineBuffer") /\
  lineParser (lineBuffer chunk) s = Undefined (OutOfBounds "lineBuffer").
Proof.
  intros Hh Hno Hl Ht.
  destruct (lineBuffer_unclosed chunk Hh Hno Hl) as (c1 & ptr & Hbuf & Hf & Hlen).
  split.
  - unfold firstPassLine. rewrite Hbuf.
    change (("(" =? "/")%char && (c1 =? "/")%char) with false.
    change ("(" =? CR)%char with false. change ("(" =? "(")%char with true. cbv iota.
    destruct (Z.ltb_spec (Z.of_nat (symbolTableTail s)) SYMBOLTABLE_SIZE); [|lia].
    cbn [drop]. rewrite copyUntil_end; [done | done |]. rewrite Hlen. unfold LINEBUFFER_SIZE. lia.
  - rewrite Hbuf. unfold lineParser.
    change (("(" =? "/")%char && (c1 =? "/")%char) with false.
    change ("(" =? CR)%char with false. change ("(" =? "@")%char with false.
    change ("(" =? "(")%char with true. cbv iota. unfold parseLabel.
    cbn [drop]. rewrite copyUntil_end; [done | done |]. rewrite Hlen. unfold LINEBUFFER_SIZE. lia.
Qed.

Lemma unclosed_label_overruns_witness :
  firstPassLine ($"(LOOP" ++ [CR; LF]) 0 (varInit staticState)
    = Undefined (OutOfBounds "lineBuffer") /\
  lineParser (lineBuffer ($"(LOOP" ++ [CR; LF])) (varInit staticState)
    = Undefined (OutOfBounds "lineBuffer").
Proof.
  apply (unclosed_label_overruns ($"(LOOP" ++ [CR; LF]) 0 (varInit staticState)).
  - reflexivity.
  - apply (bool_decide_unpack _). vm_compute. exact I.
  - vm_compute. lia.
  - vm_compute. reflexivity.
Defined.

(** ** A label in both passes *)

Lemma findEntry_bound str t v (P : Z -> Prop) :
  Forall (fun e => P (value e)) t -> findEntry str t = Some v -> P v.
Proof.
  intros Ht H. apply findEntry_value in H as (e & He & <-).
  by apply (proj1 (Forall_forall _ _) Ht).
Qed.

(** X18: the first pass enters the label of a declaration [(name)]
    without counting the line.  In every later state of the run the
    second pass finds the name in the table when it meets the declaration
    again: it writes nothing for it and leaves the state as it was. *)
Theorem label_declared_then_skipped (name : list ascii) (n : Z) (s : State) :
  wellFormed (Label name) -> 0 <= n < 10 ^ 9 ->
  Forall (fun e => 0 <= value e < 10 ^ 9) (gSymbolTable s) ->
  Z.of_nat (symbolTableTail s) < SYMBOLTABLE_SIZE ->
  exists s1,
    firstPassLine (render (Label name)) n s = Ok (n, s1) /\
    forall s2 rest out,
      rtc step s1 s2 -> fresh s2 ->
      secondPass (render (Label name) :: rest) s2 out = secondPass rest s2 out.
Proof.
  intros Hwf Hn Hv Ht. pose proof Hwf as (Hlen & Hpar & Hnul).
  eexists. split; [by apply firstPassLine_label|].
  intros s2 rest out Hsteps Hs2.
  apply steps_extend in Hsteps as [ext Hext]. cbn [set_table gSymbolTable] in Hext.
  assert (exists v, findEntry name (gSymbolTable s ++ [mkSymbol (symbol_array name) n]) = Some v /\
                    0 <= v < 10 ^ 9) as (v & Hfind & Hvb).
  { destruct (findEntry name (gSymbolTable s)) as [v|] eqn:E.
    - exists v. split; [by apply findEntry_app|].
      by apply (findEntry_bound name (gSymbolTable s) v (fun v => 0 <= v < 10 ^ 9)).
    - exists n. split; [|done]. rewrite findEntry_app_None by done.
      rewrite findEntry_single; [by rewrite decide_True | done | done |].
      unfold render in Hlen. rewrite !length_app in Hlen. simpl in Hlen. lia. }
  rewrite <- (app_nil_r out) at 2.
  apply (passesBy_label (gSymbolTable s ++ [mkSymbol (symbol_array name) n]) name v); try done.
  by exists ext.
Qed.

Lemma label_declared_then_skipped_witness :
  exists s1,
    firstPassLine (render (Label $"LOOP")) 3 (varInit staticState) = Ok (3, s1) /\
    forall s2 rest out,
      rtc step s1 s2 -> fresh s2 ->
      secondPass (render (Label $"LOOP") :: rest) s2 out = secondPass rest s2 out.
Proof.
  apply (label_declared_then_skipped $"LOOP" 3 (varInit staticState)).
  - apply (bool_decide_unpack _). vm_compute. exact I.
  - lia.
  - apply (bool_decide_unpack _). vm_compute. exact I.
  - vm_compute. reflexivity.
Defined.

(** ** Lines that both passes skip *)

Lemma fgets_0 file : fgets 0 file = ([], file).
Proof. by destruct file. Qed.

Lemma fgets_app_line n : forall a b,
  last a = Some LF ->
  fgets n (a ++ b) = ((fgets n a).1, (fgets n a).2 ++ b) /\
  ((fgets n a).2 = [] \/ last (fgets n a).2 = Some LF).
Proof.
  induction n as [|n IH]; intros a b Ha.
  - rewrite !fgets_0. simpl. auto.
  - destruct a as [|c a]; [done|]. cbn [app fgets].
    destruct (Ascii.eqb_spec c LF) as [->|Hc].
    + simpl. split; [done|]. rewrite last_cons in Ha.
      destruct (last a) as [y|] eqn:E; [right; exact Ha|].
      left. by apply last_None in E.
    + assert (last a = Some LF) as Ha'.
      { rewrite last_cons in Ha. destruct (last a); [done|]. by injection Ha as ->. }
      destruct (IH a b Ha') as [-> Hr]. destruct (fgets n a) as [l r]. simpl in *. done.
Qed.

Lemma readLines_app calls : forall a b,
  (length a <= calls)%nat -> a = [] \/ last a = Some LF ->
  fileLines (a ++ b) = readLines calls a ++ fileLines b.
Proof.
  induction calls as [|calls IH]; intros a b Hl Ha.
  - destruct a; [done | simpl in Hl; lia].
  - destruct a as [|c a]; [done|]. destruct Ha as [|Ha]; [done|].
    unfold fileLines at 1. cbn [app length readLines].
    change (c :: a ++ b) with ((c :: a) ++ b).
    destruct (fgets_app_line (LINEBUFFER_SIZE - 1) (c :: a) b Ha) as [-> Hr].
    pose proof (fgets_progress 98 c a) as Hp. change (LINEBUFFER_SIZE - 1)%nat with 99%nat in *.
    destruct (fgets 99 (c :: a)) as [l r]. cbn [fst snd] in *. cbn [app]. f_equal.
    rewrite <- IH by (simpl in Hl; lia || done). unfold fileLines.
    apply readLines_fuel; rewrite !length_app; lia.
Qed.

Lemma fileLines_app a b :
  a = [] \/ last a = Some LF -> fileLines (a ++ b) = fileLines a ++ fileLines b.
Proof. intros Ha. by apply readLines_app. Qed.

Lemma fileLines_line body rest :
  LF ∉ body -> (length body + 1 < LINEBUFFER_SIZE)%nat ->
  fileLines (body ++ LF :: rest) = (body ++ [LF]) :: fileLines rest.
Proof.
  intros Hno Hl. unfold fileLines. rewrite length_app. cbn [length].
  replace (length body + S (length rest))%nat with (S (length body + length rest)) by lia.
  destruct (body ++ LF :: rest) as [|c r] eqn:E; [by destruct body|].
  cbn [readLines]. rewrite <- E. rewrite fgets_line by (unfold LINEBUFFER_SIZE in *; lia || done).
  f_equal. apply readLines_fuel; lia.
Qed.

Lemma firstPassLoop_skip chunk pre post :
  (forall n s, firstPassLine chunk n s = Ok (n, s)) ->
  forall n s, firstPassLoop (pre ++ chunk :: post) n s = firstPassLoop (pre ++ post) n s.
Proof.
  intros Hskip. induction pre as [|l pre IH]; intros n s.
  - cbn [app firstPassLoop]. by rewrite Hskip.
  - cbn [app firstPassLoop]. destruct (firstPassLine l n s) as [[n1 s1]|]; [|done].
    rewrite !bind_Ok. apply IH.
Qed.

Lemma secondPass_skip chunk pre post :
  (forall s, lineParser (lineBuffer chunk) s = Ok (SYSTEM_FAILURE, s)) ->
  forall s out, fresh s ->
    secondPass (pre ++ chunk :: post) s out = secondPass (pre ++ post) s out.
Proof.
  intros Hskip. induction pre as [|l pre IH]; intros s out Hs.
  - cbn [app secondPass]. rewrite Hskip, bind_Ok. cbv beta iota.
    change (SYSTEM_FAILURE =? SYSTEM_SUCCESS) with false. cbv iota.
    by rewrite bind_Ok, varInit_fresh.
  - cbn [app secondPass]. destruct (lineParser (lineBuffer l) s) as [[st s1]|]; [|done].
    rewrite !bind_Ok. cbv beta iota.
    destruct (if st =? SYSTEM_SUCCESS then lineWriter s1 out else Ok out) as [out1|]; [|done].
    rewrite !bind_Ok. by apply IH.
Qed.

(** X19: a comment line or a blank line that [fgets] reads in one piece
    (fewer than 100 characters with its carriage return and line feed,
    no other line feed in it), put at the beginning of a source file or
    after one of its line feeds, does not change what the program does
    with the file. *)
Theorem comment_lines_ignored (before after : list ascii) (l : sourceLine) :
  l = Blank \/ (exists text, l = Comment text) ->
  (length (render l) < LINEBUFFER_SIZE)%nat -> LF ∉ textOf l ->
  before = [] \/ last before = Some LF ->
  main (before ++ render l ++ after) = main (before ++ after).
Proof.
  intros Hl Hlen Hno Hb.
  assert (fileLines (before ++ render l ++ after)
          = fileLines before ++ render l :: fileLines after) as Hlines.
  { rewrite fileLines_app by done. f_equal.
    assert (render l = (textOf l ++ [CR]) ++ [LF]) as ->.
    { destruct Hl as [-> | [text ->]]; [done|]. simpl. by rewrite <- app_assoc. }
    rewrite <- app_assoc. cbn [app]. rewrite fileLines_line.
    - by rewrite <- app_assoc.
    - rewrite not_elem_of_app. split; [done|]. intros H.
      apply elem_of_cons in H as [H|H]; [discriminate | by apply elem_of_nil in H].
    - assert (length (render l) = length (textOf l ++ [CR]) + 1)%nat as <-; [|done].
      destruct Hl as [-> | [text ->]]; [done|]. simpl. rewrite !length_app. simpl. lia. }
  unfold main. rewrite Hlines, fileLines_app by done. unfold firstPass.
  rewrite firstPassLoop_skip; first last.
  { destruct Hl as [-> | [text ->]]; intros n s;
      [apply firstPassLine_blank | apply firstPassLine_comment]. }
  destruct (firstPassLoop _ 0 (varInit staticState)) as [s1|] eqn:E; [|done].
  rewrite !bind_Ok. rewrite secondPass_skip; [done| |].
  - destruct Hl as [-> | [text ->]]; intros s; reflexivity.
  - apply firstPassLoop_fields in E as [_ E]. exact E.
Qed.

Lemma comment_lines_ignored_witness :
  main (crlf ["@2"]%string ++ render (Comment $" load A") ++ crlf ["D=A"]%string)
  = main (crlf ["@2"]%string ++ crlf ["D=A"]%string).
Proof.
  apply (comment_lines_ignored (crlf ["@2"]%string) (crlf ["D=A"]%string) (Comment $" load A")).
  - right. by eexists.
  - vm_compute. lia.
  - apply (bool_decide_unpack _). vm_compute. exact I.
  - right. reflexivity.
Defined.

(** ** The two passes over a program *)

Lemma findEntry_exists str t e :
  e ∈ t -> cstr (symbol e) = cstr str -> exists v, findEntry str t = Some v.
Proof.
  induction t as [|x t IH]; intros He Hc; [by apply elem_of_nil in He|].
  cbn [findEntry]. destruct (strcmp_eq str (symbol x)) eqn:E; [eauto|].
  apply elem_of_cons in He as [->|He]; [|by apply IH].
  assert (strcmp_eq str (symbol x) = true) as E'; [|congruence].
  by apply strcmp_eq_true.
Qed.

Lemma labelsFrom_values ls : forall n,
  0 <= n -> Forall (fun e => 0 <= value e <= n + instructionCount ls) (labelsFrom ls n).
Proof.
  induction ls as [|l ls IH]; intros n Hn; [constructor|].
  pose proof (instructionCount_nonneg ls) as Hc.
  destruct l; cbn [labelsFrom instructionCount]; try by apply IH.
  - constructor; [simpl; lia | by apply IH].
  - eapply Forall_impl; [apply (IH (n + 1)); lia|]. intros e He. cbv beta in He. lia.
Qed.

Lemma instructionCount_le ls : instructionCount ls <= Z.of_nat (length ls).
Proof.
  induction ls as [|l ls IH]; [done|].
  change (length (l :: ls)) with (S (length ls)). destruct l; cbn [instructionCount]; lia.
Qed.

Lemma labels_symbols_length prog : forall n,
  (length (labelsFrom (map toSource prog) n) + length (symbolsOf prog) <= length prog)%nat.
Proof.
  induction prog as [|l prog IH]; intros n; [done|].
  destruct l; cbn [map toSource labelsFrom symbolsOf length];
    try (specialize (IH n); lia); specialize (IH (n + 1)); lia.
Qed.

Lemma references_toPass prog : references (map toPass prog) = symbolsOf prog.
Proof. induction prog as [|l prog IH]; [done|]. destruct l; simpl; by rewrite IH. Qed.

Lemma chunkOf_toPass l : chunkOf (toPass l) = asmText l.
Proof. by destruct l. Qed.

Lemma writtenFor_toPass t ns l : writtenFor t ns (toPass l) = asmWord t ns l.
Proof. by destruct l. Qed.

Lemma field_plain x : field x -> plain x.
Proof. by intros [? ?]. Qed.

Lemma plain_nil : plain [].
Proof. constructor. Qed.

Lemma passLineOk_toPass t l :
  asmOk l ->
  (forall name, l = ALabel name -> exists v, findEntry name t = Some v /\ 0 <= v < 10 ^ 9) ->
  passLineOk t (toPass l).
Proof.
  intros (Hwf & Hlf & Hl) Hlab. destruct l; cbn [toPass passLineOk].
  - apply passesBy_comment.
  - apply passesBy_blank.
  - destruct (Hlab name eq_refl) as (v & Hf & Hv). by apply (passesBy_label t name v).
  - destruct Hl as [Hd Hv]. by apply passesBy_literal.
  - exact Hl.
  - destruct Hl as (Hst & [Hd Ld] & [Hc Lc]). intros s rest out Hs _.
    apply (secondPass_cOutput d c []); try done; [|apply plain_nil|simpl; lia].
    unfold asmText, toSource, render. rewrite <- !app_assoc. by apply cLine_dest_comp.
  - destruct Hl as (Hst & [Hd Ld] & [Hc Lc] & [Hj Lj]). intros s rest out Hs _.
    apply (secondPass_cOutput d c j); try done.
    unfold asmText, toSource, render. rewrite <- !app_assoc. by apply cLine_dest_comp_jump.
  - destruct Hl as (Hst & [Hc Lc] & [Hj Lj]). intros s rest out Hs _.
    apply (secondPass_cOutput [] c j); try done; [|apply plain_nil|simpl; lia].
    unfold asmText, toSource, render. rewrite <- !app_assoc. by apply cLine_comp_jump.
Qed.

Lemma labelTable_values prog :
  Z.of_nat (length prog) <= 65512 ->
  Forall (fun e => 0 <= value e <= 65535) (labelTable prog).
Proof.
  intros Hl. unfold labelTable. apply Forall_app. split.
  - apply (bool_decide_unpack _). vm_compute. exact I.
  - eapply Forall_impl; [apply labelsFrom_values; lia|]. intros e He. cbv beta in He.
    pose proof (instructionCount_le (map toSource prog)) as Hc. rewrite length_map in Hc. lia.
Qed.

Lemma labelTable_declared prog name :
  Forall asmOk prog -> ALabel name ∈ prog ->
  exists v, findEntry name (labelTable prog) = Some v.
Proof.
  intros Hok Hin.
  pose proof (proj1 (Forall_forall _ _) Hok _ Hin) as ((Hlen & Hpar & Hnul) & _).
  apply list_elem_of_lookup in Hin as [i Hi].
  assert (map toSource prog !! i = Some (Label name)) as Hi'.
  { change (map toSource prog) with (toSource <$> prog). by rewrite list_lookup_fmap, Hi. }
  pose proof (labelsFrom_lookup _ 0 _ _ Hi') as He.
  eapply (findEntry_exists name (labelTable prog)).
  - unfold labelTable. apply elem_of_app. right. exact He.
  - simpl. rewrite cstr_symbol_array, cstr_id; try done.
    cbn [toSource] in Hlen. unfold render in Hlen. rewrite !length_app in Hlen.
    simpl in Hlen. lia.
Qed.

(** X20: for a program of at most 65512 lines, each ended by carriage
    return and line feed, with no other line feed and fewer than 100
    characters with the two, and each of one of these forms:
    a comment; a blank line; a label declaration whose name has no
    closing parenthesis and no zero byte; an A instruction with a literal
    of one to nine decimal digits and a value up to 65535; an A
    instruction with a symbol that begins above the digit 9 and has no
    zero byte; a C instruction [d=c], [d=c;j] or [c;j] (not [c] alone)
    that does not begin like a line of another form and whose fields have
    at most four characters, none of them one that ends a field;
    the two passes run to the end and write, line by line: for a literal
    the word of its value; for a symbol the word of its address, which is
    the value of the first element of that name among the predefined
    symbols and the labels if there is one, and otherwise 16 plus the
    number of distinct new symbols referred to before its first
    reference; for a C instruction its word, or nothing when a field is in
    no table; nothing for the other lines. *)
Theorem assembler_correct (prog : list asmLine) :
  Forall asmOk prog -> Z.of_nat (length prog) <= 65512 ->
  main (concat (map asmText prog))
  = Ok (concat (map (asmWord (labelTable prog) (symbolsOf prog)) prog)).
Proof.
  intros Hok Hlen. unfold main.
  assert (fileLines (concat (map asmText prog)) = map render (map toSource prog)) as ->.
  { rewrite <- fileLines_render; [by rewrite map_map|].
    apply Forall_map. eapply Forall_impl; [exact Hok|].
    intros l ((Hl & _) & Hlf & _). done. }
  unfold firstPass. rewrite firstPassLoop_render; first last.
  - rewrite length_map. lia.
  - lia.
  - rewrite length_map. change (length (gSymbolTable (varInit staticState))) with 23%nat.
    unfold SYMBOLTABLE_SIZE. lia.
  - apply Forall_map. eapply Forall_impl; [exact Hok|]. by intros l (Hl & _).
  - rewrite bind_Ok. change (gSymbolTable (varInit staticState) ++ labelsFrom (map toSource prog) 0)
      with (labelTable prog).
    set (s1 := set_table (varInit staticState) (labelTable prog)).
    assert (map render (map toSource prog) = map chunkOf (map toPass prog)) as ->.
    { rewrite !map_map. apply map_ext. intros l. by rewrite chunkOf_toPass. }
    pose proof (labelTable_values prog Hlen) as Hval.
    pose proof (labels_symbols_length prog 0) as Hls.
    destruct (secondPass_program (labelTable prog) (map toPass prog) [] s1 []) as (s' & Hrun & _).
    + by apply (allocated_start s1).
    + exists []. by rewrite app_nil_r.
    + apply Forall_map. apply Forall_forall. intros l Hin.
      pose proof (proj1 (Forall_forall _ _) Hok l Hin) as Hl.
      apply passLineOk_toPass; [done|]. intros name ->.
      destruct (labelTable_declared prog name Hok Hin) as [v Hv]. exists v. split; [done|].
      pose proof (findEntry_bound name _ v (fun v => 0 <= v <= 65535) Hval Hv) as Hb.
      cbv beta in Hb. lia.
    + done.
    + rewrite references_toPass. unfold labelTable. rewrite length_app.
      change (length initialSymbolTable) with 23%nat. unfold SYMBOLTABLE_SIZE. simpl length. lia.
    + rewrite references_toPass. simpl length. lia.
    + rewrite Hrun, bind_Ok. cbv beta iota. f_equal. cbn [app].
      rewrite references_toPass, map_map. f_equal. apply map_ext. intros l.
      apply writtenFor_toPass.
Qed.

Lemma assembler_correct_witness :
  main (crlf [ "// sum"; "@i"; "M=1"; "(LOOP)"; "@i"; "D=M"; "@LOOP"; "D;JGT"; "";
               "@5"; "@SCREEN"; "@sum"; "D=Q"; "AMD=D|M;JNE" ]%string)
  = Ok (lf [ "0000000000010000"; "1110111111001000"; "0000000000010000";
             "1111110000010000"; "0000000000000010"; "1110001100000001";
             "0000000000000101"; "0100000000000000"; "0000000000010001";
             "1111010101111101" ]%string).
Proof.
  pose proof (assembler_correct sumProgram) as H.
  assert (Forall asmOk sumProgram) as Hok by (apply (bool_decide_unpack _); vm_compute; exact I).
  assert (Z.of_nat (length sumProgram) <= 65512) as Hlen by (vm_compute; discriminate).
  specialize (H Hok Hlen).
  assert (concat (map asmText sumProgram)
          = crlf [ "// sum"; "@i"; "M=1"; "(LOOP)"; "@i"; "D=M"; "@LOOP"; "D;JGT"; "";
                   "@5"; "@SCREEN"; "@sum"; "D=Q"; "AMD=D|M;JNE" ]%string) as E1
    by (vm_compute; reflexivity).
  assert (concat (map (asmWord (labelTable sumProgram) (symbolsOf sumProgram)) sumProgram)
          = lf [ "0000000000010000"; "1110111111001000"; "0000000000010000";
                 "1111110000010000"; "0000000000000010"; "1110001100000001";
                 "0000000000000101"; "0100000000000000"; "0000000000010001";
                 "1111010101111101" ]%string) as E2
    by (vm_compute; reflexivity).
  rewrite E1, E2 in H. exact H.
Defined.

(** ** Where the symbol table grows *)

Lemma resolveSymbol_cases str s v s' :
  resolveSymbol str s = Ok (v, s') -> sameSymbols s s' \/ allocates s s'.
Proof.
  unfold resolveSymbol. destruct (findEntry str (gSymbolTable s)) eqn:E.
  - intros [= <- <-]. by left.
  - destruct (_ <? _); [|done]. intros [= <- <-]. right. by exists str.
Qed.

Lemma sameSymbols_then s1 s2 s3 :
  sameSymbols s1 s2 \/ allocates s1 s2 -> sameSymbols s2 s3 ->
  sameSymbols s1 s3 \/ allocates s1 s3.
Proof.
  intros [[H1 H2] | (name & Hf & Ht & Hm)] [H3 H4].
  - left. split; congruence.
  - right. exists name. split; [done|]. split; congruence.
Qed.

Lemma searchSymbolEntry_cases line s s' :
  searchSymbolEntry line s = Ok s' -> sameSymbols s s' \/ allocates s s'.
Proof.
  unfold searchSymbolEntry. destruct (_ <=? _)%nat; [done|]. destruct (_ <? _)%nat; [done|].
  intros H. inv_bind H. destruct a as [v s1]. apply resolveSymbol_cases in E.
  apply writeAddress_table in H. by eapply sameSymbols_then.
Qed.

(** X21: [lineParser] changes the symbol table and [currMemory] in one
    way only: for a label line, or an A instruction whose operand begins
    above the digit 9, it may append one element whose symbol the table
    did not hold, with the value [currMemory], and advance [currMemory] by
    one.  C instructions, literals, comments and blank lines leave both as
    they were. *)
Theorem table_grows_by_allocation (line : list ascii) (s s' : State) (status : Z) :
  lineParser line s = Ok (status, s') ->
  sameSymbols s s' \/
  (allocates s s' /\ exists c0 c1 rest, line = c0 :: c1 :: rest /\
                       (c0 = "("%char \/ (c0 = "@"%char /\ code c1 > code "9"))).
Proof.
  unfold lineParser. destruct line as [|c0 [|c1 line]]; [done|done|].
  destruct (_ && _); [intros [= <- <-]; by left|].
  destruct (c0 =? CR)%char; [intros [= <- <-]; by left|].
  destruct (Ascii.eqb_spec c0 "@") as [->|_].
  - unfold parseA. intros H. inv_bind H. apply lineCommand_table in H.
    cbn [drop] in E. unfold parseAOperand in E.
    destruct (Z.gtb_spec (code c1) (code "9")) as [Hc|Hc].
    + inv_bind E. apply searchSymbolEntry_cases in E.
      destruct (sameSymbols_then _ _ _ E H) as [?|?]; [by left|].
      right. split; [done|]. exists "@"%char, c1, line. split; [done|]. right. split; [done|lia].
    + inv_bind E. destruct a0 as [[p i] add]. inv_bind E. injection E as <-.
      left. exact H.
  - destruct (Ascii.eqb_spec c0 "(") as [->|_].
    + unfold parseLabel. intros H. inv_bind H. destruct a as [[p i] str].
      repeat inv_bind H. injection H as <- <-. apply searchSymbolEntry_cases in E3.
      destruct E3 as [?|?]; [by left|]. right. split; [done|].
      exists "("%char, c1, line. split; [done|]. by left.
    + intros H. apply parseC_table in H. by left.
Qed.

Lemma table_grows_by_allocation_witness :
  exists s',
    lineParser (lineBuffer (aSymbol $"i")) (varInit staticState) = Ok (SYSTEM_SUCCESS, s') /\
    (sameSymbols (varInit staticState) s' \/
     (allocates (varInit staticState) s' /\
      exists c0 c1 rest, lineBuffer (aSymbol $"i") = c0 :: c1 :: rest /\
                         (c0 = "("%char \/ (c0 = "@"%char /\ code c1 > code "9")))).
Proof.
  eexists. split; [vm_compute; reflexivity|].
  apply (table_grows_by_allocation (lineBuffer (aSymbol $"i")) (varInit staticState) _
           SYSTEM_SUCCESS).
  vm_compute. reflexivity.
Defined.

(** ** A full symbol table *)


